(** * Symbol elaboration of the SystemVerilog front-end: member and variable symbols

    A shallow embedding of the symbol-creation code of
    [MemberSymbols.cpp] and [VariableSymbols.cpp].  Symbols are records,
    the arena-allocated objects that the C++ mutates through pointers are
    threaded explicitly, and the diagnostics a scope collects are a list in
    issue order.  Code of the compiler that lives in other translation units
    (expression binding, constant evaluation, scope bookkeeping) is taken as
    a section variable at the place where it is called.  Attribute instances
    ([setAttributes]) are only registered with the compilation and are left
    out of the records. *)

From Stdlib Require Import String List ZArith Lia Bool.
From stdpp Require Import base option list strings gmap.

Open Scope string_scope.
Open Scope list_scope.

Set Warnings "-register-all".

(** ** Source positions, tokens and diagnostics *)

Definition SourceLocation := nat.
Definition SourceRange := (SourceLocation * SourceLocation)%type.

Record Token := mkToken {
  valueText : string;
  location : SourceLocation;
}.

Definition range (t : Token) : SourceRange :=
  (location t, location t + String.length (valueText t)).

(** The diagnostic codes issued by the embedded functions.  The code
    [UnsupportedUdpPortList] is named by the specification only; no line of
    the sources issues it. *)
Inductive DiagCode :=
  | AutomaticNotAllowed | StaticInitializerMustBeExplicit | ConstVarNoInitializer
  | StaticAssert | FatalTask | ErrorTask | WarningTask | InfoTask
  | NamedArgNotAllowed
  | PrimitiveAnsiMix | PrimitivePortDup | PrimitiveRegDup | PrimitivePortUnknown
  | PrimitiveRegInput | PrimitivePortMissing | PrimitiveTwoPorts
  | PrimitiveOutputFirst | PrimitiveDupOutput | PrimitiveInitialInComb
  | PrimitiveDupInitial | PrimitiveWrongInitial | PrimitiveInitVal
  | MultipleDefaultInputSkew | MultipleDefaultOutputSkew | GlobalClockingGenerate
  | NotePreviousDefinition | NoteDeclarationHere | NoteComparisonReduces
  | UnsupportedUdpPortList.

#[global] Instance DiagCode_eq_dec : EqDecision DiagCode.
Proof. solve_decision. Defined.

Record Note := mkNote {
  noteCode : DiagCode;
  noteLocation : SourceLocation;
  noteRanges : list SourceRange;
  noteArgs : list string;
}.

(** [addDiag(code, range)] records the start of the range as the location
    and the range itself; [<<] appends a formatting argument. *)
Record Diagnostic := mkDiagnostic {
  code : DiagCode;
  diagLocation : SourceLocation;
  ranges : list SourceRange;
  args : list string;
  notes : list Note;
}.

Definition diagAt (c : DiagCode) (loc : SourceLocation) : Diagnostic :=
  mkDiagnostic c loc [] [] [].

Definition diagOver (c : DiagCode) (r : SourceRange) : Diagnostic :=
  mkDiagnostic c (fst r) [r] [] [].

Definition withArg (d : Diagnostic) (a : string) : Diagnostic :=
  mkDiagnostic (code d) (diagLocation d) (ranges d) (args d ++ [a]) (notes d).

Definition addNote (d : Diagnostic) (c : DiagCode) (loc : SourceLocation) : Diagnostic :=
  mkDiagnostic (code d) (diagLocation d) (ranges d) (args d)
    (notes d ++ [mkNote c loc [] []]).

Definition hasCode (c : DiagCode) (d : Diagnostic) : bool :=
  bool_decide (code d = c).

Definition withCode (c : DiagCode) (ds : list Diagnostic) : list Diagnostic :=
  List.filter (hasCode c) ds.

(** ** Expression syntax

    The part of the expression grammar the embedded functions look into:
    names, literals, selects, concatenations and binary expressions (an
    assignment is a binary expression of kind [AssignmentExpression]). *)

Inductive SyntaxKind :=
  | AssignmentExpression | AddAssignmentExpression | NonblockingAssignmentExpression
  | AddExpression | EqualityExpression | LessThanExpression.

#[global] Instance SyntaxKind_eq_dec : EqDecision SyntaxKind.
Proof. solve_decision. Defined.

Inductive ExpressionSyntax :=
  | IdentifierName (identifier : Token)
  | ScopedName (left : ExpressionSyntax) (right : ExpressionSyntax)
  | LiteralExpression (literal : Token)
  | ElementSelectExpression (left : ExpressionSyntax) (selector : ExpressionSyntax)
  | ConcatenationExpression (openBrace : Token) (expressions : list ExpressionSyntax)
  | BinaryExpression (kind : SyntaxKind) (left : ExpressionSyntax)
      (operatorToken : Token) (right : ExpressionSyntax).

Fixpoint getFirstToken (e : ExpressionSyntax) : Token :=
  match e with
  | IdentifierName t => t
  | ScopedName l _ => getFirstToken l
  | LiteralExpression t => t
  | ElementSelectExpression l _ => getFirstToken l
  | ConcatenationExpression b _ => b
  | BinaryExpression _ l _ _ => getFirstToken l
  end.

Inductive NameSyntax :=
  | PlainName (identifier : Token)
  | ClassName (identifier : Token) (parameters : list ExpressionSyntax).

Inductive DataTypeSyntax :=
  | ImplicitType
  | KeywordType (keyword : Token)
  | NamedType (name : NameSyntax).

(** ** Scopes as the embedded functions see them

    The functions of this part only ask a scope for the symbol it belongs
    to and for a few fields of that symbol. *)

Inductive VariableLifetime := Automatic | Static.

#[global] Instance VariableLifetime_eq_dec : EqDecision VariableLifetime.
Proof. solve_decision. Defined.

Inductive DefinitionKind := ModuleDefinition | InterfaceDefinition | ProgramDefinition.

Inductive ScopeSymbol :=
  | StatementBlock (defaultLifetime : VariableLifetime)
  | Subroutine (defaultLifetime : VariableLifetime)
  | MethodPrototype
  | ProceduralBlock
  | InstanceBody (definitionKind : DefinitionKind)
  | Package
  | CompilationUnit
  | GenerateBlock
  | ClassType.

Record Scope := mkScope { asSymbol : ScopeSymbol }.

(** Modelled from the spec: [Scope::isProceduralContext] is defined with
    the scope class.  Statement blocks, subroutines and their prototypes,
    and procedural blocks are the procedural contexts.  The properties
    below take the predicate as a variable and hold for any. *)
Definition proceduralKinds (scope : Scope) : bool :=
  match asSymbol scope with
  | StatementBlock _ | Subroutine _ | MethodPrototype | ProceduralBlock => true
  | _ => false
  end.

(** ** Variables: [VariableSymbol::fromSyntax] for data declarations *)

Module VariableSymbols.

(** The modifiers the parser puts on a data declaration; any other token
    kind is unreachable in the switch of [fromSyntax]. *)
Inductive ModifierKeyword :=
  VarKeyword | ConstKeyword | StaticKeyword | AutomaticKeyword.

#[global] Instance ModifierKeyword_eq_dec : EqDecision ModifierKeyword.
Proof. solve_decision. Defined.

Record Modifier := mkModifier {
  modKind : ModifierKeyword;
  modRange : SourceRange;
}.

Record DeclaratorSyntax := mkDeclarator {
  name : Token;
  initializer : option ExpressionSyntax;
}.

Record DataDeclarationSyntax := mkDataDeclaration {
  modifiers : list Modifier;
  type : DataTypeSyntax;
  declarators : list DeclaratorSyntax;
}.

Inductive DeclaredTypeFlags := AutomaticInitializer | InterfaceVariable.

Record VariableSymbol := mkVariableSymbol {
  varName : string;
  varLocation : SourceLocation;
  lifetime : VariableLifetime;
  isConstVar : bool;
  declaredTypeSyntax : option DataTypeSyntax;
  declaredTypeFlags : list DeclaredTypeFlags;
  fromDeclarator : option DeclaratorSyntax;
}.

(** The constructor: automatic variables get the automatic-initializer flag
    on their declared type. *)
Definition newVariableSymbol (n : string) (loc : SourceLocation)
    (lt : VariableLifetime) : VariableSymbol :=
  mkVariableSymbol n loc lt false None
    (if decide (lt = Automatic) then [AutomaticInitializer] else []) None.

Definition getDefaultLifetime (scope : Scope) : VariableLifetime :=
  match asSymbol scope with
  | StatementBlock l => l
  | Subroutine l => l
  | MethodPrototype => Automatic
  | _ => Static
  end.

(** State of the modifier loop: [isConst], the optional explicit lifetime,
    and the diagnostics added so far. *)
Record ModState := mkModState {
  msConst : bool;
  msLifetime : option VariableLifetime;
  msDiags : list Diagnostic;
}.

Definition modifierStep (inProceduralContext : bool) (st : ModState)
    (m : Modifier) : ModState :=
  match modKind m with
  | VarKeyword => st
  | ConstKeyword => mkModState true (msLifetime st) (msDiags st)
  | StaticKeyword => mkModState (msConst st) (Some Static) (msDiags st)
  | AutomaticKeyword =>
      if inProceduralContext
      then mkModState (msConst st) (Some Automatic) (msDiags st)
      else mkModState (msConst st) (Some Static)
             (msDiags st ++ [diagOver AutomaticNotAllowed (modRange m)])
  end.

Definition isInIface (scope : Scope) : bool :=
  match asSymbol scope with
  | InstanceBody InterfaceDefinition => true
  | _ => false
  end.

Definition hasInitializer (d : DeclaratorSyntax) : bool :=
  bool_decide (is_Some (initializer d)).

Record Result := mkResult {
  results : list VariableSymbol;
  diags : list Diagnostic;
}.

Section FromSyntax.

(** [Scope::isProceduralContext] is defined with the scope class. *)
Variable isProceduralContext : Scope -> bool.

(** The body of the declarator loop: the variable created and the
    diagnostics it adds. *)
Definition declaratorStep (scope : Scope) (syntax : DataDeclarationSyntax)
    (isConst hasExplicitLifetime : bool) (lt : VariableLifetime)
    (d : DeclaratorSyntax) : VariableSymbol * list Diagnostic :=
  let v := newVariableSymbol (valueText (name d)) (location (name d)) lt in
  let v := mkVariableSymbol (varName v) (varLocation v) (lifetime v)
             (isConstVar v || isConst) (Some (type syntax))
             (declaredTypeFlags v ++
                (if isInIface scope then [InterfaceVariable] else []))
             (Some d) in
  let d1 :=
    if bool_decide (lt = Static) && negb hasExplicitLifetime &&
       hasInitializer d && isProceduralContext scope
    then [diagOver StaticInitializerMustBeExplicit (range (name d))]
    else [] in
  let d2 :=
    if isConst && negb (hasInitializer d)
    then [diagOver ConstVarNoInitializer (range (name d))]
    else [] in
  (v, d1 ++ d2).

Definition fromSyntax (syntax : DataDeclarationSyntax) (scope : Scope) : Result :=
  let inProceduralContext := isProceduralContext scope in
  let st := fold_left (modifierStep inProceduralContext) (modifiers syntax)
              (mkModState false None []) in
  let hasExplicitLifetime := bool_decide (is_Some (msLifetime st)) in
  let lt := match msLifetime st with
            | Some l => l
            | None => getDefaultLifetime scope
            end in
  let steps := map (declaratorStep scope syntax (msConst st) hasExplicitLifetime lt)
                 (declarators syntax) in
  mkResult (map fst steps) (msDiags st ++ concat (map snd steps)).

End FromSyntax.

(** *** Notions the lifetime rules are stated with *)

Definition isLifetimeKeyword (m : Modifier) : bool :=
  match modKind m with
  | StaticKeyword | AutomaticKeyword => true
  | _ => false
  end.

Definition isAutomaticKeyword (m : Modifier) : bool :=
  bool_decide (modKind m = AutomaticKeyword).

(** The declaration carries a lifetime keyword / the [automatic] keyword. *)
Definition hasLifetimeKeyword (syntax : DataDeclarationSyntax) : bool :=
  existsb isLifetimeKeyword (modifiers syntax).

Definition carriesAutomatic (syntax : DataDeclarationSyntax) : bool :=
  existsb isAutomaticKeyword (modifiers syntax).

(** The last lifetime keyword among the modifiers, if any. *)
Definition lastLifetimeKeyword (syntax : DataDeclarationSyntax) : option ModifierKeyword :=
  modKind <$> last (List.filter isLifetimeKeyword (modifiers syntax)).

(** The lifetime a keyword stands for in the given context. *)
Definition keywordLifetime (inProc : bool) (m : Modifier) : VariableLifetime :=
  if isAutomaticKeyword m && inProc then Automatic else Static.

Definition automaticNotAllowed (ms : list Modifier) : list Diagnostic :=
  map (fun m => diagOver AutomaticNotAllowed (modRange m))
    (List.filter isAutomaticKeyword ms).

(** *** Sample declarations *)

Definition tok (s : string) (loc : SourceLocation) : Token := mkToken s loc.

(** [int x = 1;] *)
Definition decl_int_x_init : DataDeclarationSyntax :=
  mkDataDeclaration [] (KeywordType (tok "int" 0))
    [mkDeclarator (tok "x" 4) (Some (LiteralExpression (tok "1" 8)))].

(** [automatic int x;] *)
Definition decl_automatic_int_x : DataDeclarationSyntax :=
  mkDataDeclaration [mkModifier AutomaticKeyword (0, 9)] (KeywordType (tok "int" 10))
    [mkDeclarator (tok "x" 14) None].

(** [automatic static int x;] *)
Definition decl_automatic_static_int_x : DataDeclarationSyntax :=
  mkDataDeclaration [mkModifier AutomaticKeyword (0, 9); mkModifier StaticKeyword (10, 16)]
    (KeywordType (tok "int" 17)) [mkDeclarator (tok "x" 21) None].

Definition blockScope : Scope := mkScope (StatementBlock Static).
Definition automaticBlockScope : Scope := mkScope (StatementBlock Automatic).
Definition moduleScope : Scope := mkScope (InstanceBody ModuleDefinition).

End VariableSymbols.

(** ** Bound expressions and constants

    [Expression], [ConstantValue] and the four-state integers are declared
    in other translation units.  A bound expression is the record of what
    the embedded functions read from it. *)

Inductive logic_t := L0 | L1 | Lx | Lz.

#[global] Instance logic_t_eq_dec : EqDecision logic_t.
Proof. solve_decision. Defined.

(** Modelled from the spec: the decoded value of an integer literal (the
    four-state integer class is declared outside these sources) is its
    sign flag and its bits, least significant first; the bit width is the
    number of bits. *)
Record SVInt := mkSVInt {
  signFlag : bool;
  bits : list logic_t;
}.

Definition getBitWidth (v : SVInt) : nat := length (bits v).

Definition isUnknownBit (b : logic_t) : bool :=
  match b with Lx | Lz => true | _ => false end.

Definition hasUnknown (v : SVInt) : bool := existsb isUnknownBit (bits v).

Fixpoint unsignedValue (bs : list logic_t) : Z :=
  match bs with
  | [] => 0
  | b :: bs' => (if bool_decide (b = L1) then 1 else 0) + 2 * unsignedValue bs'
  end.

(** The integer a known value stands for, two's complement when signed. *)
Definition toZ (v : SVInt) : Z :=
  let u := unsignedValue (bits v) in
  if signFlag v && bool_decide (last (bits v) = Some L1)
  then u - 2 ^ Z.of_nat (getBitWidth v)
  else u.

(** [val == n] converted to [bool]: unknown bits make the comparison
    unknown, which converts to false. *)
Definition eqInt (v : SVInt) (n : Z) : bool :=
  negb (hasUnknown v) && (toZ v =? n)%Z.

(** [val[i]]. *)
Definition bitAt (v : SVInt) (i : nat) : logic_t := nth i (bits v) Lx.

Definition exactlyEqual (a b : logic_t) : bool := bool_decide (a = b).

Inductive ConstantValue :=
  | CVInteger (value : SVInt)
  | CVReal (isNonZero : bool)
  | CVString (text : string).

Inductive ExpressionKind :=
  | Invalid | IntegerLiteral | UnbasedUnsizedIntegerLiteral | RealLiteral
  | StringLiteral | NamedValue | UnaryOp | BinaryOp | Assignment
  | EmptyArgument.

#[global] Instance ExpressionKind_eq_dec : EqDecision ExpressionKind.
Proof. solve_decision. Defined.

Inductive BinaryOperator :=
  | Add | Subtract | LogicalAnd | LogicalOr
  | Equality | Inequality | CaseEquality | CaseInequality
  | WildcardEquality | WildcardInequality
  | GreaterThan | GreaterThanEqual | LessThan | LessThanEqual.

(** What [reduceComparison] reads from a binary expression: the operator,
    the constants of both operands and, when the expression has a syntax,
    the operator token of that syntax. *)
Record BinaryInfo := mkBinaryInfo {
  op : BinaryOperator;
  leftConstant : option ConstantValue;
  rightConstant : option ConstantValue;
  binaryOperatorToken : option Token;
}.

Record Expression := mkExpression {
  exprKind : ExpressionKind;
  bad : bool;
  typeBitWidth : nat;
  isUnsizedInteger : bool;
  literalValue : option SVInt;
  constant : option ConstantValue;
  sourceRange : SourceRange;
  binaryInfo : option BinaryInfo;
}.

Definition setConstant (c : option ConstantValue) (e : Expression) : Expression :=
  mkExpression (exprKind e) (bad e) (typeBitWidth e) (isUnsizedInteger e)
    (literalValue e) c (sourceRange e) (binaryInfo e).

Inductive ASTFlags := NonProcedural | AssignmentAllowed | LValue.

Inductive LookupLocation :=
  | LookupBefore (symbolLocation : SourceLocation)
  | LookupAfter (symbolLocation : SourceLocation)
  | LookupMax.

Record ASTContext := mkASTContext {
  contextScope : Scope;
  lookupLocation : LookupLocation;
  contextFlags : list ASTFlags;
}.

Inductive TimingControlKind := InvalidTiming | Delay | Delay3 | SignalEvent.

Record TimingControl := mkTimingControl {
  timingKind : TimingControlKind;
  timingRange : SourceRange;
}.

Record TimingControlSyntax := mkTimingControlSyntax {
  hash : Token;
  delayValues : list ExpressionSyntax;
}.

(** What [ASTContext::eval] leaves behind: the expression with its
    constant cached, the value ([None] when it is bad) and the
    diagnostics of the evaluation. *)
Record EvalResult := mkEvalResult {
  evaluated : Expression;
  value : option ConstantValue;
  evalDiags : list Diagnostic;
}.

(** ** Nets: [NetSymbol] *)

Module NetSymbols.

Inductive NetKind :=
  | Unknown | Wire | WAnd | WOr | Tri | Tri0 | Tri1 | UWire | Interconnect | UserDefined.

#[global] Instance NetKind_eq_dec : EqDecision NetKind.
Proof. solve_decision. Defined.

(** The types a declared type can be resolved to by the functions of this
    part; [LogicType] is the compilation's scalar (single-bit) logic type. *)
Inductive Type_ := ErrorType | VoidType | LogicType | UntypedType.

#[global] Instance Type_eq_dec : EqDecision Type_.
Proof. solve_decision. Defined.

Definition typeBitWidthOf (t : Type_) : nat :=
  match t with LogicType => 1 | _ => 0 end.

Record NetType := mkNetType {
  netKind : NetKind;
  netTypeName : string;
}.

(** [NetType::isError]: the net type of [`default_nettype none]. *)
Definition isError (nt : NetType) : bool := bool_decide (netKind nt = Unknown).

(** The three states of a declared type slot. *)
Inductive DeclaredType :=
  | LinkedToNetType (nt : NetType)
  | FromTypeSyntax (syntax : DataTypeSyntax)
  | Resolved (t : Type_).

Inductive ExpansionHint := NoHint | Vectored | Scalared.

(** The syntax node a net was built from (a declarator, or the identifier
    of an implicit net) is kept through its parent node, which is all that
    [getDelay] looks at. *)
Inductive ParentSyntax :=
  | NetDeclarationParent (delay : option TimingControlSyntax)
  | DataDeclarationParent (type : DataTypeSyntax)
  | OtherParent.

Record SyntaxLink := mkSyntaxLink {
  nodeName : Token;
  parent : option ParentSyntax;
}.

Record NetSymbol := mkNetSymbol {
  name : string;
  netLocation : SourceLocation;
  netType : NetType;
  declaredType : DeclaredType;
  isImplicit : bool;
  expansionHint : ExpansionHint;
  interconnectNet : bool;
  getSyntax : option SyntaxLink;
  getParentScope : option Scope;
  delay : option (option TimingControl);
}.

(** The constructor links the declared type to that of the net type. *)
Definition newNetSymbol (n : string) (loc : SourceLocation) (nt : NetType) : NetSymbol :=
  mkNetSymbol n loc nt (LinkedToNetType nt) false NoHint
    (bool_decide (netKind nt = Interconnect)) None None None.

Definition setType (t : Type_) (net : NetSymbol) : NetSymbol :=
  mkNetSymbol (name net) (netLocation net) (netType net) (Resolved t)
    (isImplicit net) (expansionHint net) (interconnectNet net)
    (getSyntax net) (getParentScope net) (delay net).

Definition setDeclaredType (s : DataTypeSyntax) (net : NetSymbol) : NetSymbol :=
  mkNetSymbol (name net) (netLocation net) (netType net) (FromTypeSyntax s)
    (isImplicit net) (expansionHint net) (interconnectNet net)
    (getSyntax net) (getParentScope net) (delay net).

Definition setSyntax (l : SyntaxLink) (net : NetSymbol) : NetSymbol :=
  mkNetSymbol (name net) (netLocation net) (netType net) (declaredType net)
    (isImplicit net) (expansionHint net) (interconnectNet net)
    (Some l) (getParentScope net) (delay net).

Definition setImplicit (net : NetSymbol) : NetSymbol :=
  mkNetSymbol (name net) (netLocation net) (netType net) (declaredType net)
    true (expansionHint net) (interconnectNet net)
    (getSyntax net) (getParentScope net) (delay net).

Definition setExpansionHint (h : ExpansionHint) (net : NetSymbol) : NetSymbol :=
  mkNetSymbol (name net) (netLocation net) (netType net) (declaredType net)
    (isImplicit net) h (interconnectNet net)
    (getSyntax net) (getParentScope net) (delay net).

Definition setParent (s : Scope) (net : NetSymbol) : NetSymbol :=
  mkNetSymbol (name net) (netLocation net) (netType net) (declaredType net)
    (isImplicit net) (expansionHint net) (interconnectNet net)
    (getSyntax net) (Some s) (delay net).

Definition setDelay (d : option TimingControl) (net : NetSymbol) : NetSymbol :=
  mkNetSymbol (name net) (netLocation net) (netType net) (declaredType net)
    (isImplicit net) (expansionHint net) (interconnectNet net)
    (getSyntax net) (getParentScope net) (Some d).

(** [NetSymbol::createImplicit]: the identifier's parent is an expression. *)
Definition createImplicit (identifier : Token) (nt : NetType) : NetSymbol :=
  let net := newNetSymbol (valueText identifier) (location identifier) nt in
  let net := setType LogicType net in
  let net := setImplicit net in
  setSyntax (mkSyntaxLink identifier (Some OtherParent)) net.

Inductive NetTypeKeyword := WireKeyword | TriKeyword | WAndKeyword | WOrKeyword | UWireKeyword.
Inductive ExpansionKeyword := NoExpansionKeyword | VectoredKeyword | ScalaredKeyword.

Record NetDeclarationSyntax := mkNetDeclaration {
  netTypeKeyword : NetTypeKeyword;
  expansionKeyword : ExpansionKeyword;
  declType : DataTypeSyntax;
  declDelay : option TimingControlSyntax;
  declarators : list Token;
}.

(** [Compilation::getNetType] for the keywords of the built-in net types. *)
Definition getNetType (k : NetTypeKeyword) : NetType :=
  match k with
  | WireKeyword => mkNetType Wire "wire"
  | TriKeyword => mkNetType Tri "tri"
  | WAndKeyword => mkNetType WAnd "wand"
  | WOrKeyword => mkNetType WOr "wor"
  | UWireKeyword => mkNetType UWire "uwire"
  end.

(** [NetSymbol::fromSyntax] for a declaration with a built-in net type. *)
Definition fromSyntax (syntax : NetDeclarationSyntax) : list NetSymbol :=
  let nt := getNetType (netTypeKeyword syntax) in
  let hint := match expansionKeyword syntax with
              | VectoredKeyword => Vectored
              | ScalaredKeyword => Scalared
              | NoExpansionKeyword => NoHint
              end in
  map (fun declarator =>
         let net := newNetSymbol (valueText declarator) (location declarator) nt in
         let net := setExpansionHint hint net in
         let net := setDeclaredType (declType syntax) net in
         setSyntax (mkSyntaxLink declarator
                      (Some (NetDeclarationParent (declDelay syntax)))) net)
      (declarators syntax).

Section GetDelay.

(** The compilation state the binders work on, and the two binders
    [TimingControl::bind] and [DelayControl::fromParams]. *)
Variable Compilation : Type.
Variable bindTimingControl :
  TimingControlSyntax -> ASTContext -> Compilation -> TimingControl * Compilation.
Variable fromParams :
  list ExpressionSyntax -> ASTContext -> Compilation -> TimingControl * Compilation.

(** [NetSymbol::getDelay]: the result, the symbol with its cache filled,
    and the compilation after the call. *)
Definition getDelay (net : NetSymbol) (comp : Compilation)
    : option TimingControl * NetSymbol * Compilation :=
  match delay net with
  | Some d => (d, net, comp)
  | None =>
      match getParentScope net, getSyntax net with
      | Some scope, Some (mkSyntaxLink _ (Some parentNode)) =>
          let context := mkASTContext scope (LookupBefore (netLocation net))
                           [NonProcedural] in
          match parentNode with
          | NetDeclarationParent (Some delaySyntax) =>
              let '(tc, comp') := bindTimingControl delaySyntax context comp in
              (Some tc, setDelay (Some tc) net, comp')
          | DataDeclarationParent (NamedType (ClassName _ params)) =>
              let '(tc, comp') := fromParams params context comp in
              (Some tc, setDelay (Some tc) net, comp')
          | _ => (None, setDelay None net, comp)
          end
      | _, _ => (None, setDelay None net, comp)
      end
  end.

End GetDelay.

End NetSymbols.

(** ** Scopes with members

    A scope is a symbol that also contains an ordered list of member
    symbols and a name-to-member lookup. *)

Module Scopes.

Record ContinuousAssignSymbol := mkContinuousAssignSymbol {
  assignLocation : SourceLocation;
  getSyntax : option ExpressionSyntax;
  getParentScope : option Scope;
  assign : option Expression;
}.

Inductive SymbolKind :=
  | VariableKind | SubroutineKind | ClassKind | CovergroupKind | GenvarKind
  | ParameterKind | TypeAliasKind | InstanceKind | EmptyMemberKind.

Inductive Symbol :=
  | NetSym (net : NetSymbols.NetSymbol)
  | ContinuousAssignSym (a : ContinuousAssignSymbol)
  | OtherSym (kind : SymbolKind) (name : string) (loc : SourceLocation)
  | TransparentMemberSym (wrapped : Symbol).

Inductive ScopeState :=
  | mkScopeState (thisScope : Scope) (defaultNetType : NetSymbols.NetType)
      (members : list Symbol) (parentScope : option ScopeState).

Definition thisScope (s : ScopeState) : Scope :=
  match s with mkScopeState t _ _ _ => t end.

Definition getDefaultNetType (s : ScopeState) : NetSymbols.NetType :=
  match s with mkScopeState _ nt _ _ => nt end.

Definition members (s : ScopeState) : list Symbol :=
  match s with mkScopeState _ _ ms _ => ms end.

Definition parentScope (s : ScopeState) : option ScopeState :=
  match s with mkScopeState _ _ _ p => p end.

(** A transparent member carries the name of the symbol it wraps; a
    continuous assignment has the empty name. *)
Fixpoint symbolName (s : Symbol) : string :=
  match s with
  | NetSym net => NetSymbols.name net
  | ContinuousAssignSym _ => ""
  | OtherSym _ n _ => n
  | TransparentMemberSym w => symbolName w
  end.

Fixpoint unwrap (s : Symbol) : Symbol :=
  match s with
  | TransparentMemberSym w => unwrap w
  | _ => s
  end.

Definition setParent (owner : Scope) (s : Symbol) : Symbol :=
  match s with
  | NetSym net => NetSym (NetSymbols.setParent owner net)
  | ContinuousAssignSym a =>
      ContinuousAssignSym
        (mkContinuousAssignSymbol (assignLocation a) (getSyntax a) (Some owner) (assign a))
  | _ => s
  end.

(** Modelled from the spec: [Scope::addMember] is defined with the scope
    class.  Adding a member pushes it, in source order, at the end of the
    member list and makes the scope its parent. *)
Definition addMember (sym : Symbol) (s : ScopeState) : ScopeState :=
  match s with
  | mkScopeState t nt ms p => mkScopeState t nt (ms ++ [setParent t sym]) p
  end.

(** Modelled from the spec: the name-to-member lookup of a scope.  The
    first member with the name is the one found, a transparent member
    stands for the symbol it wraps, and the empty name finds nothing. *)
Definition lookupMember (n : string) (ms : list Symbol) : option Symbol :=
  if bool_decide (n = "") then None
  else unwrap <$> List.find (fun m => bool_decide (symbolName m = n)) ms.

(** Modelled from the spec: unqualified lookup ([Lookup::unqualifiedAt] and
    [Lookup::name] are defined elsewhere) searches what the scope has
    declared so far and then the enclosing scopes. *)
Fixpoint unqualified (n : string) (s : ScopeState) : option Symbol :=
  match s with
  | mkScopeState _ _ ms p =>
      match lookupMember n ms with
      | Some sym => Some sym
      | None =>
          match p with
          | Some outer => unqualified n outer
          | None => None
          end
      end
  end.

Record ElabContext := mkElabContext {
  scope : ScopeState;
  elabFlags : list ASTFlags;
}.

Definition resetFlags (c : ElabContext) (f : ASTFlags) : ElabContext :=
  mkElabContext (scope c) [f].

(** The identifier names of an expression that are not part of a scoped
    (hierarchical) name, in source order. *)
Fixpoint bareIdentifiers (e : ExpressionSyntax) : list Token :=
  match e with
  | IdentifierName t => [t]
  | ScopedName _ _ => []
  | LiteralExpression _ => []
  | ElementSelectExpression l sel => bareIdentifiers l ++ bareIdentifiers sel
  | ConcatenationExpression _ es => flat_map bareIdentifiers es
  | BinaryExpression _ l _ r => bareIdentifiers l ++ bareIdentifiers r
  end.

Definition resolves (context : ElabContext) (identifier : Token) : bool :=
  bool_decide (is_Some (unqualified (valueText identifier) (scope context))).

(** Modelled from the spec: [Expression::findPotentiallyImplicitNets] is
    defined with the expression binder.  It collects each bare identifier
    of the expression that is not already resolved. *)
Definition findPotentiallyImplicitNets (e : ExpressionSyntax) (context : ElabContext)
    : list Token :=
  List.filter (fun t => negb (resolves context t)) (bareIdentifiers e).

End Scopes.

(** ** Continuous assignments: [ContinuousAssignSymbol] *)

Module ContinuousAssign.

Import Scopes.

Record ContinuousAssignSyntax := mkContinuousAssign {
  assignments : list ExpressionSyntax;
  assignDelay : option TimingControlSyntax;
}.

(** The two constructors: from the syntax of one assignment, and from an
    assignment expression that is already bound. *)
Definition newFromSyntax (syntax : ExpressionSyntax) : ContinuousAssignSymbol :=
  mkContinuousAssignSymbol (location (getFirstToken syntax)) (Some syntax) None None.

Definition newFromExpression (loc : SourceLocation) (assignment : Expression)
    : ContinuousAssignSymbol :=
  mkContinuousAssignSymbol loc None None (Some assignment).

(** The left-hand side of an assignment item; an item of any other kind
    belongs to a program the parser has already diagnosed. *)
Definition assignmentLeft (expr : ExpressionSyntax) : option ExpressionSyntax :=
  match expr with
  | BinaryExpression AssignmentExpression l _ _ => Some l
  | _ => None
  end.

(** The bare identifiers on the left-hand side of one assignment item that
    do not resolve in the scope. *)
Definition unresolvedOnLeft (context : ElabContext) (expr : ExpressionSyntax)
    : list Token :=
  match assignmentLeft expr with
  | Some l => List.filter (fun t => negb (resolves context t)) (bareIdentifiers l)
  | None => []
  end.

Section FromSyntax.

Variable findPotentiallyImplicitNets : ExpressionSyntax -> ElabContext -> list Token.

(** The implicit nets one item of the list gives rise to. *)
Definition implicitNetsOf (context : ElabContext) (nt : NetSymbols.NetType)
    (expr : ExpressionSyntax) : list NetSymbols.NetSymbol :=
  if negb (NetSymbols.isError nt) then
    match assignmentLeft expr with
    | Some l =>
        map (fun ins => NetSymbols.createImplicit ins nt)
          (findPotentiallyImplicitNets l context)
    | None => []
    end
  else [].

(** [ContinuousAssignSymbol::fromSyntax]: the symbols pushed on [results]
    and the nets pushed on [implicitNets]. *)
Definition fromSyntax (syntax : ContinuousAssignSyntax) (parentContext : ElabContext)
    : list ContinuousAssignSymbol * list NetSymbols.NetSymbol :=
  let context := resetFlags parentContext NonProcedural in
  let nt := getDefaultNetType (scope context) in
  fold_left
    (fun '(results, implicitNets) expr =>
       (results ++ [newFromSyntax expr],
        implicitNets ++ implicitNetsOf context nt expr))
    (assignments syntax) ([], []).

End FromSyntax.

Section GetAssignment.

(** The compilation state the binder works on, and [Expression::bind]. *)
Variable Compilation : Type.
Variable bind :
  ExpressionSyntax -> ASTContext -> list ASTFlags -> Compilation -> Expression * Compilation.

(** [ContinuousAssignSymbol::getAssignment]; [None] is the failure of the
    assertion that an unbound symbol has a parent scope and a syntax. *)
Definition getAssignment (sym : ContinuousAssignSymbol) (comp : Compilation)
    : option (Expression * ContinuousAssignSymbol * Compilation) :=
  match assign sym with
  | Some e => Some (e, sym, comp)
  | None =>
      match getParentScope sym, getSyntax sym with
      | Some scope, Some syntax =>
          let context := mkASTContext scope (LookupAfter (assignLocation sym))
                           [NonProcedural] in
          let '(e, comp') := bind syntax context [AssignmentAllowed] comp in
          Some (e,
                mkContinuousAssignSymbol (assignLocation sym) (getSyntax sym)
                  (getParentScope sym) (Some e),
                comp')
      | _, _ => None
      end
  end.

End GetAssignment.

(** *** Populating a module scope *)

Inductive MemberSyntax :=
  | NetDeclarationMember (syntax : NetSymbols.NetDeclarationSyntax)
  | ContinuousAssignMember (syntax : ContinuousAssignSyntax).

(** Modelled from the spec: [Scope::addMembers] is defined with the scope
    class.  It creates the symbols of one member syntax and adds them to
    the scope in source order; for a continuous assignment the implicit
    nets are created in the enclosing scope, followed by the assignment
    symbols.  The diagnostics are those the creating functions issue. *)
Definition addMembers (m : MemberSyntax) (st : ScopeState * list Diagnostic)
    : ScopeState * list Diagnostic :=
  let '(s, ds) := st in
  match m with
  | NetDeclarationMember syntax =>
      (fold_left (fun s net => addMember (NetSym net) s)
         (NetSymbols.fromSyntax syntax) s, ds)
  | ContinuousAssignMember syntax =>
      let '(results, implicitNets) :=
        fromSyntax Scopes.findPotentiallyImplicitNets syntax (mkElabContext s []) in
      let s := fold_left (fun s net => addMember (NetSym net) s) implicitNets s in
      (fold_left (fun s a => addMember (ContinuousAssignSym a) s) results s, ds)
  end.

Definition elaborate (body : list MemberSyntax) (s : ScopeState)
    : ScopeState * list Diagnostic :=
  fold_left (fun st m => addMembers m st) body (s, []).

Definition isNet (s : Symbol) : bool :=
  match s with NetSym _ => true | _ => false end.

Definition isContinuousAssign (s : Symbol) : bool :=
  match s with ContinuousAssignSym _ => true | _ => false end.

(** *** Seed scenario 1 and a variation

    [module m; wire foo; assign foo = 1, foo = 'z; endmodule] *)

Definition tk (s : string) (loc : SourceLocation) : Token := mkToken s loc.

Definition wireType : NetSymbols.NetType := NetSymbols.mkNetType NetSymbols.Wire "wire".
Definition noneType : NetSymbols.NetType := NetSymbols.mkNetType NetSymbols.Unknown "".

Definition emptyModule (nt : NetSymbols.NetType) : ScopeState :=
  mkScopeState (mkScope (InstanceBody ModuleDefinition)) nt []
    (Some (mkScopeState (mkScope CompilationUnit) nt [] None)).

Definition wire_foo : NetSymbols.NetDeclarationSyntax :=
  NetSymbols.mkNetDeclaration NetSymbols.WireKeyword NetSymbols.NoExpansionKeyword
    ImplicitType None [tk "foo" 15].

Definition assign_foo_twice : ContinuousAssignSyntax :=
  mkContinuousAssign
    [BinaryExpression AssignmentExpression (IdentifierName (tk "foo" 27))
       (tk "=" 31) (LiteralExpression (tk "1" 33));
     BinaryExpression AssignmentExpression (IdentifierName (tk "foo" 36))
       (tk "=" 40) (LiteralExpression (tk "'z" 42))]
    None.

Definition seed1 : list MemberSyntax :=
  [NetDeclarationMember wire_foo; ContinuousAssignMember assign_foo_twice].

(** [assign {bar, foo} = 2'b0;] in a module that declares [foo] only. *)
Definition assign_bar_foo : ContinuousAssignSyntax :=
  mkContinuousAssign
    [BinaryExpression AssignmentExpression
       (ConcatenationExpression (tk "{" 27)
          [IdentifierName (tk "bar" 28); IdentifierName (tk "foo" 33)])
       (tk "=" 38) (LiteralExpression (tk "2'b0" 40))]
    None.

End ContinuousAssign.

(** ** Elaboration system tasks: [ElabSystemTaskSymbol] *)

Module ElabSystemTasks.

Inductive ElabSystemTaskKind := Fatal | Error | Warning | Info | StaticAssertTask.

Inductive ArgumentSyntax :=
  | OrderedArgument (expr : ExpressionSyntax)
  | NamedArgument (argRange : SourceRange)
  | EmptyArgumentSyntax (argRange : SourceRange).

Record ElabSystemTaskSyntax := mkElabSystemTaskSyntax {
  taskName : Token;
  arguments : option (list ArgumentSyntax);
}.

Record ElabSystemTaskSymbol := mkElabSystemTaskSymbol {
  taskKind : ElabSystemTaskKind;
  taskLocation : SourceLocation;
  getSyntax : ElabSystemTaskSyntax;
  message : option string;
  assertCondition : option Expression;
}.

Definition setMessage (m : string) (t : ElabSystemTaskSymbol) : ElabSystemTaskSymbol :=
  mkElabSystemTaskSymbol (taskKind t) (taskLocation t) (getSyntax t) (Some m)
    (assertCondition t).

Definition setAssertCondition (c : Expression) (t : ElabSystemTaskSymbol)
    : ElabSystemTaskSymbol :=
  mkElabSystemTaskSymbol (taskKind t) (taskLocation t) (getSyntax t) (message t)
    (Some c).

(** The expression that stands for an empty argument: void type, not bad. *)
Definition emptyArgumentExpression (r : SourceRange) : Expression :=
  mkExpression EmptyArgument false 0 false None None r None.

Definition isComparison (o : BinaryOperator) : bool :=
  match o with
  | Equality | Inequality | CaseEquality | CaseInequality
  | WildcardEquality | WildcardInequality
  | GreaterThan | GreaterThanEqual | LessThan | LessThanEqual => true
  | _ => false
  end.

Section Tasks.

(** Helpers of the binder, the evaluator and the formatter, each with the
    diagnostics it issues. *)
Variable getElabSystemTaskKind : Token -> ElabSystemTaskKind.
Variable requireSimpleExpr :
  ASTContext -> ExpressionSyntax -> option ExpressionSyntax * list Diagnostic.
Variable bind : ExpressionSyntax -> ASTContext -> Expression * list Diagnostic.
Variable checkFinishNum : ASTContext -> Expression -> bool * list Diagnostic.
Variable requireBooleanConvertible : ASTContext -> Expression -> bool * list Diagnostic.
Variable eval : ASTContext -> Expression -> EvalResult.
Variable checkDisplayArgs : ASTContext -> list Expression -> bool * list Diagnostic.
Variable formatDisplay : Scope -> list Expression -> option string * list Diagnostic.
Variable isTrue : ConstantValue -> bool.
Variable constantToString : ConstantValue -> string.

Definition fromSyntax (syntax : ElabSystemTaskSyntax) : ElabSystemTaskSymbol :=
  mkElabSystemTaskSymbol (getElabSystemTaskKind (taskName syntax))
    (location (taskName syntax)) syntax None None.

(** The argument-binding loop of [getMessage]; [None] is the early return
    through [empty()]. *)
Fixpoint bindArguments (astCtx : ASTContext) (params : list ArgumentSyntax)
    (args : list Expression) : option (list Expression) * list Diagnostic :=
  match params with
  | [] => (Some args, [])
  | arg :: rest =>
      let '(bound, ds) :=
        match arg with
        | OrderedArgument e =>
            let '(exSyn, ds1) := requireSimpleExpr astCtx e in
            match exSyn with
            | Some ex => let '(b, ds2) := bind ex astCtx in (Some b, ds1 ++ ds2)
            | None => (None, ds1)
            end
        | NamedArgument r => (None, [diagOver NamedArgNotAllowed r])
        | EmptyArgumentSyntax r => (Some (emptyArgumentExpression r), [])
        end in
      match bound with
      | None => (None, ds)
      | Some b =>
          if bad b then (None, ds)
          else
            let '(res, ds') := bindArguments astCtx rest (args ++ [b]) in
            (res, ds ++ ds')
      end
  end.

(** [ElabSystemTaskSymbol::createMessage]. *)
Definition createMessage (context : ASTContext) (args : list Expression)
    : string * list Diagnostic :=
  let '(ok, ds1) := checkDisplayArgs context args in
  if negb ok then ("", ds1)
  else
    let '(str, ds2) := formatDisplay (contextScope context) args in
    match str with
    | None => ("", ds1 ++ ds2)
    | Some s =>
        if bool_decide (s = "") then ("", ds1 ++ ds2)
        else (String.append ": " s, ds1 ++ ds2)
    end.

(** [ElabSystemTaskSymbol::getMessage]: the message, the symbol with the
    message (and the assert condition) cached, and the diagnostics issued
    on the way. *)
Definition getMessage (scope : Scope) (t : ElabSystemTaskSymbol)
    : string * ElabSystemTaskSymbol * list Diagnostic :=
  match message t with
  | Some m => (m, t, [])
  | None =>
      let empty (t : ElabSystemTaskSymbol) (ds : list Diagnostic) :=
        ("", setMessage "" t, ds) in
      match arguments (getSyntax t) with
      | None => empty t []
      | Some params =>
          let astCtx := mkASTContext scope (LookupBefore (taskLocation t)) [] in
          let '(bound, ds) := bindArguments astCtx params [] in
          match bound with
          | None => empty t ds
          | Some args =>
              let finish t argSpan ds :=
                let '(m, ds') := createMessage astCtx argSpan in
                (m, setMessage m t, ds ++ ds') in
              match args, taskKind t with
              | arg0 :: rest, Fatal =>
                  let '(ok, ds1) := checkFinishNum astCtx arg0 in
                  if negb ok then empty t (ds ++ ds1)
                  else finish t rest (ds ++ ds1)
              | arg0 :: rest, StaticAssertTask =>
                  let '(conv, ds1) := requireBooleanConvertible astCtx arg0 in
                  if negb conv then empty t (ds ++ ds1)
                  else
                    let r := eval astCtx arg0 in
                    match value r with
                    | None => empty t (ds ++ ds1 ++ evalDiags r)
                    | Some _ =>
                        finish (setAssertCondition (evaluated r) t) rest
                          (ds ++ ds1 ++ evalDiags r)
                    end
              | _, _ => finish t args ds
              end
          end
      end
  end.

(** [reduceComparison]: for a comparison, a note with both operand values;
    [None] is the failure of one of its two assertions, that the expression
    has a syntax and that both operands carry a constant. *)
Definition reduceComparison (expr : Expression) (info : BinaryInfo)
    (result : Diagnostic) : option Diagnostic :=
  if isComparison (op info) then
    match binaryOperatorToken info with
    | None => None
    | Some operatorToken =>
        match leftConstant info, rightConstant info with
        | Some lc, Some rc =>
            Some (mkDiagnostic (code result) (diagLocation result) (ranges result)
                    (args result)
                    (notes result ++
                       [mkNote NoteComparisonReduces (location operatorToken)
                          [sourceRange expr]
                          [constantToString lc; valueText operatorToken;
                           constantToString rc]]))
        | _, _ => None
        end
    end
  else Some result.

(** The condition is present, has a constant, and the constant is true. *)
Definition conditionIsTrue (condition : option Expression) : bool :=
  match condition with
  | Some c =>
      match constant c with
      | Some v => isTrue v
      | None => false
      end
  | None => false
  end.

(** The diagnostic of a failed assertion; [None] is a failed assertion of
    [reduceComparison]. *)
Definition staticAssertDiagnostic (loc : SourceLocation) (msg : string)
    (condition : option Expression) : option Diagnostic :=
  let diag := withArg (diagAt StaticAssert loc) msg in
  match condition with
  | Some c =>
      match exprKind c, binaryInfo c with
      | BinaryOp, Some info => reduceComparison c info diag
      | _, _ => Some diag
      end
  | None => Some diag
  end.

(** [ElabSystemTaskSymbol::reportStaticAssert]: the diagnostics added to
    the scope. *)
Definition reportStaticAssert (loc : SourceLocation) (msg : string)
    (condition : option Expression) : option (list Diagnostic) :=
  if conditionIsTrue condition then Some []
  else
    match staticAssertDiagnostic loc msg condition with
    | Some diag => Some [diag]
    | None => None
    end.

(** [ElabSystemTaskSymbol::issueDiagnostic]; [None] is a failed assertion
    of [reduceComparison]. *)
Definition issueDiagnostic (scope : Scope) (t : ElabSystemTaskSymbol)
    : option (ElabSystemTaskSymbol * list Diagnostic) :=
  let '(msg, t', ds) := getMessage scope t in
  let taskDiag c := Some (t', ds ++ [withArg (diagAt c (taskLocation t')) msg]) in
  match taskKind t' with
  | Fatal => taskDiag FatalTask
  | Error => taskDiag ErrorTask
  | Warning => taskDiag WarningTask
  | Info => taskDiag InfoTask
  | StaticAssertTask =>
      match reportStaticAssert (taskLocation t') msg (assertCondition t') with
      | Some report => Some (t', ds ++ report)
      | None => None
      end
  end.

End Tasks.

End ElabSystemTasks.

(** ** User-defined primitives: [PrimitivePortSymbol] and [PrimitiveSymbol] *)

Module Primitives.

Import NetSymbols.

Inductive PrimitivePortDirection := In | Out | OutReg.

#[global] Instance PrimitivePortDirection_eq_dec : EqDecision PrimitivePortDirection.
Proof. solve_decision. Defined.

Record UdpOutputPortDeclSyntax := mkUdpOutputPortDecl {
  keyword : option Token;
  reg : option Token;
  outName : Token;
  initializer : option ExpressionSyntax;
  outRange : SourceRange;
}.

Record UdpInputPortDeclSyntax := mkUdpInputPortDecl {
  names : list Token;
  inRange : SourceRange;
}.

Inductive UdpPortDeclSyntax :=
  | UdpOutputPortDecl (d : UdpOutputPortDeclSyntax)
  | UdpInputPortDecl (d : UdpInputPortDeclSyntax).

Definition declRange (d : UdpPortDeclSyntax) : SourceRange :=
  match d with
  | UdpOutputPortDecl o => outRange o
  | UdpInputPortDecl i => inRange i
  end.

Inductive UdpPortListSyntax :=
  | AnsiUdpPortList (ports : list UdpPortDeclSyntax)
  | NonAnsiUdpPortList (ports : list Token)
  | WildcardUdpPortList.

Record UdpInitialStmtSyntax := mkUdpInitialStmt {
  initialName : Token;
  initialValue : ExpressionSyntax;
  initialRange : SourceRange;
}.

Record UdpBodySyntax := mkUdpBody {
  portDecls : list UdpPortDeclSyntax;
  initialStmt : option UdpInitialStmtSyntax;
}.

Record UdpDeclarationSyntax := mkUdpDeclaration {
  udpName : Token;
  portList : UdpPortListSyntax;
  body : UdpBodySyntax;
}.

(** The syntax node of a port: an output declaration or an identifier. *)
Inductive PortSyntax :=
  | OutputDeclNode (d : UdpOutputPortDeclSyntax)
  | IdentifierNode (identifier : Token).

Record PrimitivePortSymbol := mkPrimitivePortSymbol {
  name : string;
  portLocation : SourceLocation;
  direction : PrimitivePortDirection;
  type : Type_;
  getSyntax : option PortSyntax;
}.

(** The constructor: all primitive ports are single bit logic types. *)
Definition newPrimitivePortSymbol (n : string) (loc : SourceLocation)
    (dir : PrimitivePortDirection) : PrimitivePortSymbol :=
  mkPrimitivePortSymbol n loc dir LogicType None.

Definition setSyntax (s : PortSyntax) (p : PrimitivePortSymbol) : PrimitivePortSymbol :=
  mkPrimitivePortSymbol (name p) (portLocation p) (direction p) (type p) (Some s).

Definition setDirection (d : PrimitivePortDirection) (p : PrimitivePortSymbol)
    : PrimitivePortSymbol :=
  mkPrimitivePortSymbol (name p) (portLocation p) d (type p) (getSyntax p).

Definition setLocation (loc : SourceLocation) (p : PrimitivePortSymbol)
    : PrimitivePortSymbol :=
  mkPrimitivePortSymbol (name p) loc (direction p) (type p) (getSyntax p).

(** The ports are members of the primitive's scope and the elements of its
    port list; both hold the same objects, kept here once. *)
Record PrimitiveSymbol := mkPrimitiveSymbol {
  primName : string;
  primLocation : SourceLocation;
  ports : list PrimitivePortSymbol;
  isSequential : bool;
  initVal : option ConstantValue;
}.

(** *** The port list in ANSI form *)

Definition ansiPortsOf (decl : UdpPortDeclSyntax) : list PrimitivePortSymbol :=
  match decl with
  | UdpOutputPortDecl outputDecl =>
      let dir := if bool_decide (is_Some (reg outputDecl)) then OutReg else Out in
      [setSyntax (OutputDeclNode outputDecl)
         (newPrimitivePortSymbol (valueText (outName outputDecl))
            (location (outName outputDecl)) dir)]
  | UdpInputPortDecl inputDecl =>
      map (fun nm =>
             setSyntax (IdentifierNode nm)
               (newPrimitivePortSymbol (valueText nm) (location nm) In))
        (names inputDecl)
  end.

Definition ansiPortList (decls : list UdpPortDeclSyntax) (body : UdpBodySyntax)
    : list PrimitivePortSymbol * list Diagnostic :=
  (flat_map ansiPortsOf decls,
   match portDecls body with
   | first :: _ => [diagOver PrimitiveAnsiMix (declRange first)]
   | [] => []
   end).

(** *** The port list in non-ANSI form

    The list gives the ordering only; the map from names to ports holds the
    index of the port in the list, and a name that is already in the map
    keeps its first port. *)

Definition emplace (n : string) (i : nat) (m : gmap string nat) : gmap string nat :=
  match m !! n with
  | Some _ => m
  | None => <[n := i]> m
  end.

Definition buildPortMap (names : list Token) : gmap string nat :=
  fold_left
    (fun m '(i, nm) =>
       if bool_decide (valueText nm = "") then m else emplace (valueText nm) i m)
    (imap pair names) ∅.

Definition checkDup (port : PrimitivePortSymbol) (nameToken : Token) : list Diagnostic :=
  match getSyntax port with
  | Some _ =>
      [addNote (withArg (diagOver PrimitivePortDup (range nameToken)) (valueText nameToken))
         NotePreviousDefinition (portLocation port)]
  | None => []
  end.

Record DeclState := mkDeclState {
  dsPorts : list PrimitivePortSymbol;
  regSpecifier : option UdpOutputPortDeclSyntax;
  dsDiags : list Diagnostic;
}.

Definition tokenLocation (t : option Token) : SourceLocation :=
  match t with Some t => location t | None => 0 end.

Definition tokenRange (t : option Token) : SourceRange :=
  match t with Some t => range t | None => (0, 0) end.

Definition unknownPort (nameToken : Token) : Diagnostic :=
  withArg (diagOver PrimitivePortUnknown (range nameToken)) (valueText nameToken).

Definition outputDeclStep (portMap : gmap string nat) (st : DeclState)
    (outputDecl : UdpOutputPortDeclSyntax) : DeclState :=
  match portMap !! valueText (outName outputDecl) with
  | Some idx =>
      if bool_decide (is_Some (reg outputDecl)) &&
         negb (bool_decide (is_Some (keyword outputDecl)))
      then
        (* a standalone "reg" specifier: saved for the end *)
        let ds := match regSpecifier st with
                  | Some prev =>
                      [addNote (diagOver PrimitiveRegDup (tokenRange (reg outputDecl)))
                         NotePreviousDefinition (tokenLocation (reg prev))]
                  | None => []
                  end in
        mkDeclState (dsPorts st) (Some outputDecl) (dsDiags st ++ ds)
      else
        match dsPorts st !! idx with
        | Some port =>
            let dir := if bool_decide (is_Some (reg outputDecl)) then OutReg else Out in
            let port' := setSyntax (OutputDeclNode outputDecl)
                           (setLocation (location (outName outputDecl))
                              (setDirection dir port)) in
            mkDeclState (<[idx := port']> (dsPorts st)) (regSpecifier st)
              (dsDiags st ++ checkDup port (outName outputDecl))
        | None => st
        end
  | None =>
      mkDeclState (dsPorts st) (regSpecifier st)
        (dsDiags st ++ [unknownPort (outName outputDecl)])
  end.

Definition inputNameStep (portMap : gmap string nat) (st : DeclState) (nm : Token)
    : DeclState :=
  match portMap !! valueText nm with
  | Some idx =>
      match dsPorts st !! idx with
      | Some port =>
          let port' := setSyntax (IdentifierNode nm) (setLocation (location nm) port) in
          mkDeclState (<[idx := port']> (dsPorts st)) (regSpecifier st)
            (dsDiags st ++ checkDup port nm)
      | None => st
      end
  | None =>
      mkDeclState (dsPorts st) (regSpecifier st) (dsDiags st ++ [unknownPort nm])
  end.

Definition declStep (portMap : gmap string nat) (st : DeclState)
    (decl : UdpPortDeclSyntax) : DeclState :=
  match decl with
  | UdpOutputPortDecl outputDecl => outputDeclStep portMap st outputDecl
  | UdpInputPortDecl inputDecl => fold_left (inputNameStep portMap) (names inputDecl) st
  end.

(** The saved "reg" specifier is applied once all declarations are seen. *)
Definition applyRegSpecifier (portMap : gmap string nat) (st : DeclState) : DeclState :=
  match regSpecifier st with
  | None => st
  | Some spec =>
      match portMap !! valueText (outName spec) with
      | Some idx =>
          match dsPorts st !! idx with
          | Some port =>
              match getSyntax port with
              | Some _ =>
                  match direction port with
                  | OutReg =>
                      mkDeclState (dsPorts st) (regSpecifier st)
                        (dsDiags st ++ checkDup port (outName spec))
                  | In =>
                      mkDeclState (dsPorts st) (regSpecifier st)
                        (dsDiags st ++
                           [withArg (diagOver PrimitiveRegInput (range (outName spec)))
                              (name port)])
                  | Out =>
                      mkDeclState (<[idx := setDirection OutReg port]> (dsPorts st))
                        (regSpecifier st) (dsDiags st)
                  end
              | None => st
              end
          | None => st
          end
      | None => st
      end
  end.

Definition missingPorts (ps : list PrimitivePortSymbol) : list Diagnostic :=
  flat_map (fun port =>
              match getSyntax port with
              | None => [withArg (diagAt PrimitivePortMissing (portLocation port)) (name port)]
              | Some _ => []
              end) ps.

Definition nonAnsiPortList (names : list Token) (body : UdpBodySyntax)
    : list PrimitivePortSymbol * list Diagnostic :=
  let ports0 := map (fun nm => newPrimitivePortSymbol (valueText nm) (location nm) In)
                  names in
  let portMap := buildPortMap names in
  let st := fold_left (declStep portMap) (portDecls body) (mkDeclState ports0 None []) in
  let st := applyRegSpecifier portMap st in
  (dsPorts st, dsDiags st ++ missingPorts (dsPorts st)).

(** The wildcard form is a to-do in the source: no port is created. *)
Definition buildPorts (syntax : UdpDeclarationSyntax)
    : list PrimitivePortSymbol * list Diagnostic :=
  match portList syntax with
  | AnsiUdpPortList decls => ansiPortList decls (body syntax)
  | NonAnsiUdpPortList names => nonAnsiPortList names (body syntax)
  | WildcardUdpPortList => ([], [])
  end.

(** *** Output port and initial value *)

(** "Make sure we have only one output port": the first port after the
    first one that is not an input is reported, and only that one. *)
Definition dupOutput (rest : list PrimitivePortSymbol) : list Diagnostic :=
  match List.find (fun p => negb (bool_decide (direction p = In))) rest with
  | Some p => [diagAt PrimitiveDupOutput (portLocation p)]
  | None => []
  end.

(** The initializer written inline on an [output reg] declaration. *)
Definition inlineInitializer (first : PrimitivePortSymbol) : option ExpressionSyntax :=
  match getSyntax first with
  | Some (OutputDeclNode outSyntax) => initializer outSyntax
  | _ => None
  end.

(** The check of the initial statement: the initial value expression to
    bind and the diagnostics. *)
Definition checkInitial (isSeq : bool) (first : PrimitivePortSymbol)
    (initExpr : option ExpressionSyntax) (initial : option UdpInitialStmtSyntax)
    : option ExpressionSyntax * list Diagnostic :=
  match initial with
  | None => (initExpr, [])
  | Some initial =>
      if negb isSeq then
        (initExpr, [diagOver PrimitiveInitialInComb (initialRange initial)])
      else
        match initExpr with
        | Some prev =>
            (initExpr,
             [addNote (diagOver PrimitiveDupInitial (initialRange initial))
                NotePreviousDefinition (location (getFirstToken prev))])
        | None =>
            let initialName := valueText (initialName initial) in
            (Some (initialValue initial),
             if negb (bool_decide (initialName = "")) &&
                negb (bool_decide (name first = "")) &&
                negb (bool_decide (initialName = name first))
             then [addNote (withArg (diagOver PrimitiveWrongInitial
                                       (range (Primitives.initialName initial)))
                              initialName)
                     NoteDeclarationHere (portLocation first)]
             else [])
        end
  end.

(** The values an initial value may have: 0, 1, or a 1-bit x. *)
Definition isInitValue (val : SVInt) : bool :=
  eqInt val 0 || eqInt val 1 ||
  (bool_decide (getBitWidth val = 1) && exactlyEqual (bitAt val 0) Lx).

Section FromSyntax.

(** [Expression::bind] with the diagnostics of the binder, and
    [ASTContext::eval]. *)
Variable bind : ExpressionSyntax -> ASTContext -> Expression * list Diagnostic.
Variable eval : ASTContext -> Expression -> EvalResult.

(** The constant stored as the initial value, if the bound expression
    passes the check. *)
Definition acceptedInitVal (context : ASTContext) (expr : Expression)
    : option ConstantValue * list Diagnostic :=
  if bool_decide (exprKind expr = IntegerLiteral) &&
     (bool_decide (typeBitWidth expr = 1) || isUnsizedInteger expr)
  then
    let r := eval context expr in
    (match constant (evaluated r) with
     | Some (CVInteger val) =>
         if isInitValue val then Some (CVInteger val) else None
     | _ => None
     end, evalDiags r)
  else (None, []).

Definition bindInitVal (scope : Scope) (initExpr : option ExpressionSyntax)
    : option ConstantValue * list Diagnostic :=
  match initExpr with
  | None => (None, [])
  | Some ie =>
      let context := mkASTContext scope LookupMax [] in
      let '(expr, ds) := bind ie context in
      if bad expr then (None, ds)
      else
        let '(v, ds') := acceptedInitVal context expr in
        (v, ds ++ ds' ++
            match v with
            | None => [diagOver PrimitiveInitVal (sourceRange expr)]
            | Some _ => []
            end)
  end.

(** [PrimitiveSymbol::fromSyntax]. *)
Definition fromSyntax (scope : Scope) (syntax : UdpDeclarationSyntax)
    : PrimitiveSymbol * list Diagnostic :=
  let primLoc := location (udpName syntax) in
  let '(ports, ds) := buildPorts syntax in
  let prim seq iv := mkPrimitiveSymbol (valueText (udpName syntax)) primLoc ports seq iv in
  match ports with
  | first :: second :: _ =>
      if bool_decide (direction first = In) then
        (prim false None, ds ++ [diagAt PrimitiveOutputFirst (portLocation first)])
      else
        let isSeq := bool_decide (direction first = OutReg) in
        let initExpr := if isSeq then inlineInitializer first else None in
        let dsDup := dupOutput (tail ports) in
        let '(initExpr, dsInitial) :=
          checkInitial isSeq first initExpr (initialStmt (body syntax)) in
        let '(iv, dsInit) := bindInitVal scope initExpr in
        (prim isSeq iv, ds ++ dsDup ++ dsInitial ++ dsInit)
  | _ => (prim false None, ds ++ [diagAt PrimitiveTwoPorts primLoc])
  end.

End FromSyntax.

(** What the initial value check asks of a bound expression: an integer
    literal that is one bit wide or unsized. *)
Definition isInitLiteral (expr : Expression) : bool :=
  bool_decide (exprKind expr = IntegerLiteral) &&
  (bool_decide (typeBitWidth expr = 1) || isUnsizedInteger expr).

(** The initial value expression that is examined, in the words of the
    amended claim: for a sequential primitive the initializer written
    inline on the [output reg] declaration when there is one, and otherwise
    the value of the initial statement; none for a primitive that is not
    sequential, whatever its initial statement. *)
Definition usedInitialValue (syntax : UdpDeclarationSyntax) (first : PrimitivePortSymbol)
    : option ExpressionSyntax :=
  if bool_decide (direction first = OutReg) then
    match inlineInitializer first with
    | Some prev => Some prev
    | None =>
        match initialStmt (body syntax) with
        | Some initial => Some (initialValue initial)
        | None => None
        end
    end
  else None.

(** The report on the initial statement, in the same words: on a
    primitive that is not sequential [PrimitiveInitialInComb]; beside an
    inline initializer [PrimitiveDupInitial] with a note at the
    initializer; and otherwise [PrimitiveWrongInitial] when the statement
    names something else than the first port. *)
Definition initialStatementReport (syntax : UdpDeclarationSyntax)
    (first : PrimitivePortSymbol) : list Diagnostic :=
  match initialStmt (body syntax) with
  | None => []
  | Some initial =>
      if bool_decide (direction first = OutReg) then
        match inlineInitializer first with
        | Some prev =>
            [addNote (diagOver PrimitiveDupInitial (initialRange initial))
               NotePreviousDefinition (location (getFirstToken prev))]
        | None =>
            if negb (bool_decide (valueText (initialName initial) = "")) &&
               negb (bool_decide (name first = "")) &&
               negb (bool_decide (valueText (initialName initial) = name first))
            then [addNote (withArg (diagOver PrimitiveWrongInitial
                                      (range (initialName initial)))
                             (valueText (initialName initial)))
                    NoteDeclarationHere (portLocation first)]
            else []
        end
      else [diagOver PrimitiveInitialInComb (initialRange initial)]
  end.

(** Every port of the list has the logic type. *)
Definition logicPorts (ps : list PrimitivePortSymbol) : Prop :=
  Forall (fun p => type p = LogicType) ps.

(** The bound expression passes the check with the constant [c]. *)
Definition accepts (eval : ASTContext -> Expression -> EvalResult)
    (context : ASTContext) (expr : Expression) (c : ConstantValue) : Prop :=
  isInitLiteral expr = true /\
  exists val, constant (evaluated (eval context expr)) = Some (CVInteger val) /\
              c = CVInteger val /\ isInitValue val = true.

(** *** A binder for literals, and sample primitives *)

Definition unsizedInt (b : logic_t) : SVInt := mkSVInt true (b :: repeat L0 31).

Definition sampleLiteral (text : string) : option (nat * bool * SVInt) :=
  if bool_decide (text = "0") then Some (32, true, unsizedInt L0)
  else if bool_decide (text = "1") then Some (32, true, unsizedInt L1)
  else if bool_decide (text = "1'b0") then Some (1, false, mkSVInt false [L0])
  else if bool_decide (text = "1'b1") then Some (1, false, mkSVInt false [L1])
  else if bool_decide (text = "1'bx") then Some (1, false, mkSVInt false [Lx])
  else if bool_decide (text = "2'b01") then Some (2, false, mkSVInt false [L1; L0])
  else None.

Definition invalidExpression (r : SourceRange) : Expression :=
  mkExpression Invalid true 0 false None None r None.

Definition sampleBind (e : ExpressionSyntax) (context : ASTContext)
    : Expression * list Diagnostic :=
  match e with
  | LiteralExpression t =>
      match sampleLiteral (valueText t) with
      | Some (w, u, v) =>
          (mkExpression IntegerLiteral false w u (Some v) None (range t) None, [])
      | None => (invalidExpression (range t), [])
      end
  | _ => (invalidExpression (range (getFirstToken e)), [])
  end.

Definition sampleEval (context : ASTContext) (e : Expression) : EvalResult :=
  match constant e, literalValue e with
  | Some c, _ => mkEvalResult e (Some c) []
  | None, Some v => mkEvalResult (setConstant (Some (CVInteger v)) e) (Some (CVInteger v)) []
  | None, None => mkEvalResult e None []
  end.

Definition tk (s : string) (loc : SourceLocation) : Token := mkToken s loc.

Definition unitScope : Scope := mkScope CompilationUnit.

(** Seed scenario 5:
    [primitive p(q, a); input a; output reg q; initial q = 1'bx; ... ] *)
Definition output_reg_q : UdpOutputPortDeclSyntax :=
  mkUdpOutputPortDecl (Some (tk "output" 29)) (Some (tk "reg" 36)) (tk "q" 40) None (29, 41).

Definition seed5 : UdpDeclarationSyntax :=
  mkUdpDeclaration (tk "p" 10)
    (NonAnsiUdpPortList [tk "q" 12; tk "a" 15])
    (mkUdpBody
       [UdpInputPortDecl (mkUdpInputPortDecl [tk "a" 26] (20, 27));
        UdpOutputPortDecl output_reg_q]
       (Some (mkUdpInitialStmt (tk "q" 51) (LiteralExpression (tk "1'bx" 55)) (43, 60)))).

(** [primitive p(output reg q); ...]: a single port. *)
Definition single_port : UdpDeclarationSyntax :=
  mkUdpDeclaration (tk "p" 10)
    (AnsiUdpPortList
       [UdpOutputPortDecl
          (mkUdpOutputPortDecl (Some (tk "output" 12)) (Some (tk "reg" 19)) (tk "q" 23)
             None (12, 24))])
    (mkUdpBody [] None).

(** [primitive p(output reg q = <init>, input a); ...] *)
Definition with_inline_init (init : ExpressionSyntax) : UdpDeclarationSyntax :=
  mkUdpDeclaration (tk "p" 10)
    (AnsiUdpPortList
       [UdpOutputPortDecl
          (mkUdpOutputPortDecl (Some (tk "output" 12)) (Some (tk "reg" 19)) (tk "q" 23)
             (Some init) (12, 32));
        UdpInputPortDecl (mkUdpInputPortDecl [tk "a" 40] (34, 41))])
    (mkUdpBody [] None).

(** [primitive p(input a, output q); initial q = 1; ...]: the output is
    not the first port. *)
Definition input_first : UdpDeclarationSyntax :=
  mkUdpDeclaration (tk "p" 10)
    (AnsiUdpPortList
       [UdpInputPortDecl (mkUdpInputPortDecl [tk "a" 18] (12, 19));
        UdpOutputPortDecl
          (mkUdpOutputPortDecl (Some (tk "output" 21)) None (tk "q" 28) None (21, 29))])
    (mkUdpBody [] (Some (mkUdpInitialStmt (tk "q" 40) (LiteralExpression (tk "1" 44)) (32, 46)))).

(** A primitive whose port list is the wildcard form. *)
Definition wildcard_ports : UdpDeclarationSyntax :=
  mkUdpDeclaration (tk "p" 10) WildcardUdpPortList (mkUdpBody [] None).

End Primitives.

(** ** Clocking blocks: [ClockingBlockSymbol::fromSyntax] *)

Module ClockingBlocks.

Record ClockingSkewSyntax := mkClockingSkew {
  skewFirstToken : Token;
  skewRange : SourceRange;
}.

Record ClockingDirectionSyntax := mkClockingDirection {
  inputSkew : option ClockingSkewSyntax;
  outputSkew : option ClockingSkewSyntax;
}.

Inductive GlobalOrDefault := NoKeyword | DefaultKeyword | GlobalKeyword.

Section FromSyntax.

(** The syntax of a clocking item that is not a default-skew item, the
    member list of the block's scope, and [Scope::addMembers] on it. *)
Variable MemberSyntax : Type.
Variable ScopeMembers : Type.
Variable noMembers : ScopeMembers.
Variable addMembers : MemberSyntax -> ScopeMembers -> ScopeMembers.

(** [Compilation::noteDefaultClocking] and [noteGlobalClocking], with the
    diagnostics they issue on the scope. *)
Variable noteDefaultClocking : Scope -> SourceRange -> list Diagnostic.
Variable noteGlobalClocking : Scope -> SourceRange -> list Diagnostic.

Inductive ClockingItemSyntax :=
  | DefaultSkewItem (direction : ClockingDirectionSyntax)
  | ClockingMember (item : MemberSyntax).

Record ClockingDeclarationSyntax := mkClockingDeclaration {
  globalOrDefault : GlobalOrDefault;
  clocking : Token;
  blockName : Token;
  items : list ClockingItemSyntax;
}.

Record ClockingBlockSymbol := mkClockingBlockSymbol {
  name : string;
  blockLocation : SourceLocation;
  members : ScopeMembers;
  inputSkewSyntax : option ClockingSkewSyntax;
  outputSkewSyntax : option ClockingSkewSyntax;
}.

(** State of the item loop: the two skews seen so far, the members of the
    block and the diagnostics added. *)
Record ItemState := mkItemState {
  isInput : option ClockingSkewSyntax;
  isOutput : option ClockingSkewSyntax;
  isMembers : ScopeMembers;
  isDiags : list Diagnostic;
}.

Definition multipleSkew (c : DiagCode) (skew previous : ClockingSkewSyntax) : Diagnostic :=
  addNote (diagOver c (skewRange skew)) NotePreviousDefinition
    (location (skewFirstToken previous)).

Definition itemStep (st : ItemState) (item : ClockingItemSyntax) : ItemState :=
  match item with
  | DefaultSkewItem dir =>
      let '(input, ds1) :=
        match inputSkew dir with
        | Some skew =>
            match isInput st with
            | Some previous => (isInput st, [multipleSkew MultipleDefaultInputSkew skew previous])
            | None => (Some skew, [])
            end
        | None => (isInput st, [])
        end in
      let '(output, ds2) :=
        match outputSkew dir with
        | Some skew =>
            match isOutput st with
            | Some previous => (isOutput st, [multipleSkew MultipleDefaultOutputSkew skew previous])
            | None => (Some skew, [])
            end
        | None => (isOutput st, [])
        end in
      mkItemState input output (isMembers st) (isDiags st ++ ds1 ++ ds2)
  | ClockingMember m =>
      mkItemState (isInput st) (isOutput st) (addMembers m (isMembers st)) (isDiags st)
  end.

(** The registration of a default or global clocking block. *)
Definition noteClocking (scope : Scope) (syntax : ClockingDeclarationSyntax)
    : list Diagnostic :=
  match globalOrDefault syntax with
  | DefaultKeyword => noteDefaultClocking scope (range (clocking syntax))
  | GlobalKeyword =>
      noteGlobalClocking scope (range (clocking syntax)) ++
      match asSymbol scope with
      | GenerateBlock => [diagOver GlobalClockingGenerate (range (clocking syntax))]
      | _ => []
      end
  | NoKeyword => []
  end.

Definition fromSyntax (scope : Scope) (syntax : ClockingDeclarationSyntax)
    : ClockingBlockSymbol * list Diagnostic :=
  let ds0 := noteClocking scope syntax in
  let st := fold_left itemStep (items syntax) (mkItemState None None noMembers ds0) in
  (mkClockingBlockSymbol (valueText (blockName syntax)) (location (blockName syntax))
     (isMembers st) (isInput st) (isOutput st),
   isDiags st).

(** *** The items of a declaration, by what they specify *)

Definition inputSkewsOf (item : ClockingItemSyntax) : option ClockingSkewSyntax :=
  match item with
  | DefaultSkewItem dir => inputSkew dir
  | ClockingMember _ => None
  end.

Definition outputSkewsOf (item : ClockingItemSyntax) : option ClockingSkewSyntax :=
  match item with
  | DefaultSkewItem dir => outputSkew dir
  | ClockingMember _ => None
  end.

Definition memberOf (item : ClockingItemSyntax) : option MemberSyntax :=
  match item with
  | DefaultSkewItem _ => None
  | ClockingMember m => Some m
  end.

(** The default input (output) skews the items specify, in source order. *)
Definition inputSkews (its : list ClockingItemSyntax) : list ClockingSkewSyntax :=
  omap inputSkewsOf its.

Definition outputSkews (its : list ClockingItemSyntax) : list ClockingSkewSyntax :=
  omap outputSkewsOf its.

Definition memberItems (its : list ClockingItemSyntax) : list MemberSyntax :=
  omap memberOf its.

(** The diagnostics for every skew after the first one. *)
Definition laterSkews (c : DiagCode) (skews : list ClockingSkewSyntax) : list Diagnostic :=
  match skews with
  | [] => []
  | first :: later => map (fun skew => multipleSkew c skew first) later
  end.

(** The diagnostics the item loop itself adds. *)
Definition skewDiags (its : list ClockingItemSyntax) : list Diagnostic :=
  isDiags (fold_left itemStep its (mkItemState None None noMembers [])).

End FromSyntax.

(** What is reported for the skews of a list when [previous] is recorded
    already: all of them, or all but the first. *)
Definition reported (c : DiagCode) (previous : option ClockingSkewSyntax)
    (skews : list ClockingSkewSyntax) : list Diagnostic :=
  match previous with
  | Some p => map (fun skew => multipleSkew c skew p) skews
  | None => laterSkews c skews
  end.

Definition keep (previous : option ClockingSkewSyntax)
    (skews : list ClockingSkewSyntax) : option ClockingSkewSyntax :=
  match previous with
  | Some p => Some p
  | None => head skews
  end.

(** What one more specification adds when [previous] is recorded, and
    what is recorded after it. *)
Definition again (c : DiagCode) (previous : option ClockingSkewSyntax)
    (skew : option ClockingSkewSyntax) : list Diagnostic :=
  match skew, previous with
  | Some s, Some p => [multipleSkew c s p]
  | _, _ => []
  end.

Definition keepOne (previous skew : option ClockingSkewSyntax)
    : option ClockingSkewSyntax :=
  match previous with
  | Some p => Some p
  | None => skew
  end.

End ClockingBlocks.

(** ** Anonymous programs: [AnonymousProgramSymbol::fromSyntax] *)

Module AnonymousPrograms.

Import Scopes.

Section FromSyntax.

(** The member syntax of a program and [Scope::addMembers] on the member
    list of the new scope. *)
Variable MemberSyntax : Type.
Variable addMembers : MemberSyntax -> list Symbol -> list Symbol.

Record AnonymousProgramSyntax := mkAnonymousProgramSyntax {
  keyword : Token;
  programMembers : list MemberSyntax;
}.

Record AnonymousProgramSymbol := mkAnonymousProgramSymbol {
  programLocation : SourceLocation;
  getMembers : list Symbol;
}.

Definition fromSyntax (scope : ScopeState) (syntax : AnonymousProgramSyntax)
    : AnonymousProgramSymbol * ScopeState :=
  let result :=
    mkAnonymousProgramSymbol (location (keyword syntax))
      (fold_left (fun ms member => addMembers member ms) (programMembers syntax) []) in
  (* All members also get hoisted into the parent scope. *)
  (result,
   fold_left (fun s member => addMember (TransparentMemberSym member) s)
     (getMembers result) scope).

End FromSyntax.

(** The names a member list declares. *)
Definition declaredNames (ms : list Symbol) : list string := map symbolName ms.

(** *** A sample program: two functions hoisted into a package *)

Definition fn (n : string) (loc : SourceLocation) : Symbol := OtherSym SubroutineKind n loc.

Definition samplePackage : ScopeState :=
  mkScopeState (mkScope Package) (NetSymbols.mkNetType NetSymbols.Wire "wire")
    [OtherSym ParameterKind "width" 10] None.

Definition sampleProgram : AnonymousProgramSyntax Symbol :=
  mkAnonymousProgramSyntax Symbol (mkToken "program" 30) [fn "f" 40; fn "g" 60].

Definition sampleAddMembers (m : Symbol) (ms : list Symbol) : list Symbol := ms ++ [m].

End AnonymousPrograms.

(** ** Sample binders and symbols *)

Module Samples.

Definition moduleBody : Scope := mkScope (InstanceBody ModuleDefinition).

(** A binder that numbers what it binds: the compilation state is the
    count of bindings so far, and the range of the result records it. *)
Definition countingBind (syntax : ExpressionSyntax) (context : ASTContext)
    (flags : list ASTFlags) (n : nat) : Expression * nat :=
  (mkExpression Assignment false 1 false None None (n, n) None, S n).

Definition countingTiming (syntax : TimingControlSyntax) (context : ASTContext)
    (n : nat) : TimingControl * nat :=
  (mkTimingControl Delay (n, n), S n).

Definition countingParams (params : list ExpressionSyntax) (context : ASTContext)
    (n : nat) : TimingControl * nat :=
  (mkTimingControl Delay3 (n, n), S n).

(** The symbol of [assign foo = 1] once it is a member of a module. *)
Definition assignFoo : Scopes.ContinuousAssignSymbol :=
  Scopes.mkContinuousAssignSymbol 27
    (Some (BinaryExpression AssignmentExpression (IdentifierName (mkToken "foo" 27))
             (mkToken "=" 31) (LiteralExpression (mkToken "1" 33))))
    (Some moduleBody) None.

(** The net of [wire #5 w;] once it is a member of a module. *)
Definition delayedWire : NetSymbols.NetSymbol :=
  NetSymbols.setParent moduleBody
    (NetSymbols.setSyntax
       (NetSymbols.mkSyntaxLink (mkToken "w" 20)
          (Some (NetSymbols.NetDeclarationParent
                   (Some (mkTimingControlSyntax (mkToken "#" 16)
                            [LiteralExpression (mkToken "5" 17)])))))
       (NetSymbols.newNetSymbol "w" 20 (NetSymbols.mkNetType NetSymbols.Wire "wire"))).

(** Helpers for elaboration system tasks: every expression is simple and
    boolean convertible, literals are bound and evaluated as for
    primitives, and the message is the count of the format arguments. *)
Definition taskKindOf (t : Token) : ElabSystemTasks.ElabSystemTaskKind :=
  if bool_decide (valueText t = "$fatal") then ElabSystemTasks.Fatal
  else if bool_decide (valueText t = "$error") then ElabSystemTasks.Error
  else if bool_decide (valueText t = "$warning") then ElabSystemTasks.Warning
  else if bool_decide (valueText t = "$info") then ElabSystemTasks.Info
  else ElabSystemTasks.StaticAssertTask.

Definition simpleExpr (context : ASTContext) (e : ExpressionSyntax)
    : option ExpressionSyntax * list Diagnostic := (Some e, []).

Definition accept (context : ASTContext) (e : Expression) : bool * list Diagnostic :=
  (true, []).

Definition acceptAll (context : ASTContext) (es : list Expression)
    : bool * list Diagnostic := (true, []).

Definition formatCount (scope : Scope) (es : list Expression)
    : option string * list Diagnostic :=
  (Some (match es with [] => "" | _ => "failed" end), []).

Definition integerIsTrue (c : ConstantValue) : bool :=
  match c with
  | CVInteger v => negb (hasUnknown v) && negb (toZ v =? 0)%Z
  | CVReal nz => nz
  | CVString _ => false
  end.

Definition showConstant (c : ConstantValue) : string :=
  match c with
  | CVInteger v => if (toZ v =? 0)%Z then "0" else "1"
  | CVReal _ => "real"
  | CVString s => s
  end.

Definition staticAssertOf (args : list ElabSystemTasks.ArgumentSyntax)
    : ElabSystemTasks.ElabSystemTaskSymbol :=
  ElabSystemTasks.fromSyntax taskKindOf
    (ElabSystemTasks.mkElabSystemTaskSyntax (mkToken "$static_assert" 10) (Some args)).

Definition lit (s : string) (loc : SourceLocation) : ElabSystemTasks.ArgumentSyntax :=
  ElabSystemTasks.OrderedArgument (LiteralExpression (mkToken s loc)).

Definition issue (t : ElabSystemTasks.ElabSystemTaskSymbol)
    : option (ElabSystemTasks.ElabSystemTaskSymbol * list Diagnostic) :=
  ElabSystemTasks.issueDiagnostic simpleExpr Primitives.sampleBind accept accept
    Primitives.sampleEval acceptAll formatCount integerIsTrue showConstant moduleBody t.

(** A clocking block with two default input skews and one output skew:
    [default input #1; x; default input #2 output #3; y]. *)
Definition skew (text : string) (loc : SourceLocation) : ClockingBlocks.ClockingSkewSyntax :=
  ClockingBlocks.mkClockingSkew (mkToken text loc) (loc, loc + String.length text).

Definition sampleItems : list (ClockingBlocks.ClockingItemSyntax string) :=
  [ClockingBlocks.DefaultSkewItem string
     (ClockingBlocks.mkClockingDirection (Some (skew "#1" 40)) None);
   ClockingBlocks.ClockingMember string "x";
   ClockingBlocks.DefaultSkewItem string
     (ClockingBlocks.mkClockingDirection (Some (skew "#2" 60)) (Some (skew "#3" 70)));
   ClockingBlocks.ClockingMember string "y"].

Definition sampleClocking : ClockingBlocks.ClockingDeclarationSyntax string :=
  ClockingBlocks.mkClockingDeclaration string ClockingBlocks.NoKeyword
    (mkToken "clocking" 10) (mkToken "cb" 19) sampleItems.

End Samples.

(** ** Notions for the further properties *)

Module Notions.

Import VariableSymbols.

Definition isConstKeyword (m : Modifier) : bool :=
  bool_decide (modKind m = ConstKeyword).

(** The declaration carries the [const] keyword. *)
Definition hasConstKeyword (syntax : DataDeclarationSyntax) : bool :=
  existsb isConstKeyword (modifiers syntax).

(** The lifetime the modifiers and the scope resolve to: that of the last
    lifetime keyword, else the default of the scope. *)
Definition resolvedLifetime (inProc : bool) (syntax : DataDeclarationSyntax)
    (scope : Scope) : VariableLifetime :=
  match last (List.filter isLifetimeKeyword (modifiers syntax)) with
  | Some m => keywordLifetime inProc m
  | None => getDefaultLifetime scope
  end.

(** The position of the first token of the list with the given text. *)
Fixpoint indexOf (n : string) (names : list Token) : option nat :=
  match names with
  | [] => None
  | nm :: rest =>
      if bool_decide (valueText nm = n) then Some 0 else S <$> indexOf n rest
  end.

(** The names the port declarations of a primitive body declare. *)
Definition declaredBy (decl : Primitives.UdpPortDeclSyntax) : list Token :=
  match decl with
  | Primitives.UdpOutputPortDecl d => [Primitives.outName d]
  | Primitives.UdpInputPortDecl d => Primitives.names d
  end.

Definition declaredTokens (body : Primitives.UdpBodySyntax) : list Token :=
  flat_map declaredBy (Primitives.portDecls body).

(** The diagnostic code of an elaboration task other than a static
    assertion. *)
Definition taskCode (k : ElabSystemTasks.ElabSystemTaskKind) : DiagCode :=
  match k with
  | ElabSystemTasks.Fatal => FatalTask
  | ElabSystemTasks.Error => ErrorTask
  | ElabSystemTasks.Warning => WarningTask
  | ElabSystemTasks.Info => InfoTask
  | ElabSystemTasks.StaticAssertTask => StaticAssert
  end.

(** The declaration of the name [t] does not reach the port at position
    [i], and the state of the declaration loop has left that port as [p]. *)
Definition avoids (portMap : gmap string nat) (i : nat) (t : Token) : Prop :=
  portMap !! valueText t <> Some i.

Definition untouched (portMap : gmap string nat) (i : nat)
    (p : Primitives.PrimitivePortSymbol) (st : Primitives.DeclState) : Prop :=
  Primitives.dsPorts st !! i = Some p /\
  forall spec, Primitives.regSpecifier st = Some spec ->
               avoids portMap i (Primitives.outName spec).

(** The arguments the message of a task is formatted from: the bound
    arguments, the first one apart for [$fatal] and [$static_assert]. *)
Definition formatArguments (k : ElabSystemTasks.ElabSystemTaskKind)
    (bound : list Expression) : list Expression :=
  match k with
  | ElabSystemTasks.Fatal | ElabSystemTasks.StaticAssertTask => tail bound
  | _ => bound
  end.

Definition isNamedArgument (a : ElabSystemTasks.ArgumentSyntax) : bool :=
  match a with
  | ElabSystemTasks.NamedArgument _ => true
  | _ => false
  end.

End Notions.

(** ** Genvars: [GenvarSymbol::fromSyntax] *)

Module Genvars.

Record GenvarSymbol := mkGenvarSymbol {
  name : string;
  genvarLocation : SourceLocation;
  getSyntax : option Token;
}.

(** One genvar per identifier of the declaration; an identifier with an
    empty name is passed over. *)
Definition fromSyntax (identifiers : list Token) : list GenvarSymbol :=
  fold_left
    (fun results id =>
       if bool_decide (valueText id = "") then results
       else results ++ [mkGenvarSymbol (valueText id) (location id) (Some id)])
    identifiers [].

End Genvars.

(** ** Default skews of a clocking block: [getDefaultInputSkew] and
    [getDefaultOutputSkew] *)

Module ClockingSkews.

Import ClockingBlocks.

Section Getters.

(** The bound skew, the skew without a value, the compilation state the
    binder works on, and [ClockingSkew::fromSyntax]. *)
Variable ClockingSkew : Type.
Variable emptySkew : ClockingSkew.
Variable Compilation : Type.
Variable skewFromSyntax :
  ClockingSkewSyntax -> ASTContext -> Compilation -> ClockingSkew * Compilation.
Variable ScopeMembers : Type.

(** The two lazily computed fields of a block. *)
Record SkewCache := mkSkewCache {
  defaultInputSkew : option ClockingSkew;
  defaultOutputSkew : option ClockingSkew;
}.

Definition noSkews : SkewCache := mkSkewCache None None.

(** [None] is the failure of the assertion that the block has a parent
    scope, which is reached only when there is a skew to bind. *)
Definition getDefaultInputSkew (block : ClockingBlockSymbol ScopeMembers)
    (parent : option Scope) (cache : SkewCache) (comp : Compilation)
    : option (ClockingSkew * SkewCache * Compilation) :=
  match defaultInputSkew cache with
  | Some skew => Some (skew, cache, comp)
  | None =>
      match inputSkewSyntax _ block with
      | Some syntax =>
          match parent with
          | Some scope =>
              let context := mkASTContext scope (LookupBefore (blockLocation _ block)) [] in
              let '(skew, comp') := skewFromSyntax syntax context comp in
              Some (skew, mkSkewCache (Some skew) (defaultOutputSkew cache), comp')
          | None => None
          end
      | None =>
          Some (emptySkew, mkSkewCache (Some emptySkew) (defaultOutputSkew cache), comp)
      end
  end.

Definition getDefaultOutputSkew (block : ClockingBlockSymbol ScopeMembers)
    (parent : option Scope) (cache : SkewCache) (comp : Compilation)
    : option (ClockingSkew * SkewCache * Compilation) :=
  match defaultOutputSkew cache with
  | Some skew => Some (skew, cache, comp)
  | None =>
      match outputSkewSyntax _ block with
      | Some syntax =>
          match parent with
          | Some scope =>
              let context := mkASTContext scope (LookupBefore (blockLocation _ block)) [] in
              let '(skew, comp') := skewFromSyntax syntax context comp in
              Some (skew, mkSkewCache (defaultInputSkew cache) (Some skew), comp')
          | None => None
          end
      | None =>
          Some (emptySkew, mkSkewCache (defaultInputSkew cache) (Some emptySkew), comp)
      end
  end.

End Getters.

End ClockingSkews.

(** ** Rand-sequence productions: rule variables and case productions *)

Module RandSeq.

Inductive ReturnType := VoidType | ValueType (typeName : string).

(** A production symbol; [address] stands for the identity of the symbol,
    which is what the map of [createRuleVariables] is keyed by. *)
Record Production := mkProduction {
  name : string;
  prodLocation : SourceLocation;
  address : nat;
  returnType : ReturnType;
}.

Definition isVoid (t : ReturnType) : bool :=
  match t with VoidType => true | ValueType _ => false end.

(** What a lookup finds: a production, or a symbol of another kind. *)
Inductive Found :=
  | FoundProduction (prod : Production)
  | FoundOther (foundLocation : SourceLocation).

Record RsProdItemSyntax := mkRsProdItem {
  itemName : Token;
  argList : list ExpressionSyntax;
  itemRange : SourceRange;
}.

Inductive RsCaseItemSyntax :=
  | StandardRsCaseItem (expressions : list ExpressionSyntax) (item : RsProdItemSyntax)
  | DefaultRsCaseItem (item : RsProdItemSyntax).

Inductive RsProdSyntax :=
  | RsProdItem (item : RsProdItemSyntax)
  | RsCodeBlock
  | RsIfElse (condition : ExpressionSyntax) (ifItem : RsProdItemSyntax)
      (elseClause : option RsProdItemSyntax)
  | RsRepeat (expr : ExpressionSyntax) (item : RsProdItemSyntax)
  | RsCase (expr : ExpressionSyntax) (items : list RsCaseItemSyntax).

(** The weight clause of a rule, with or without a code block, and the
    [rand join] of a rule, with or without an expression. *)
Record RsWeightClauseSyntax := mkRsWeightClause {
  weight : ExpressionSyntax;
  weightCodeBlock : bool;
}.

Record RsRuleSyntax := mkRsRule {
  randJoin : option (option ExpressionSyntax);
  prods : list RsProdSyntax;
  weightClause : option RsWeightClauseSyntax;
  ruleFirstToken : Token;
}.

Definition caseItemProd (ci : RsCaseItemSyntax) : RsProdItemSyntax :=
  match ci with
  | StandardRsCaseItem _ it => it
  | DefaultRsCaseItem it => it
  end.

(** *** [createRuleVariables] *)

Inductive RuleVariableType :=
  | OfReturnType (t : ReturnType)
  | FixedSizeUnpackedArray (elementType : ReturnType) (rangeLeft rangeRight : nat).

Record RuleVariable := mkRuleVariable {
  variable : VariableSymbols.VariableSymbol;
  compilerGenerated : bool;
  variableType : RuleVariableType;
}.

Section RuleVariables.

(** [Lookup::unqualified] in the scope of the rule, allowing symbols
    declared after. *)
Variable unqualified : string -> option Found.

(** The map from a production to the number of times it is referenced:
    a production is entered with the count 1, and counted once more when
    it is in the map already. *)
Definition emplaceOrCount (prodMap : gmap nat (Production * nat)) (prod : Production)
    : gmap nat (Production * nat) :=
  match prodMap !! address prod with
  | Some (first, count) => <[address prod := (first, S count)]> prodMap
  | None => <[address prod := (prod, 1)]> prodMap
  end.

Definition countProd (prodMap : gmap nat (Production * nat)) (item : RsProdItemSyntax)
    : gmap nat (Production * nat) :=
  match unqualified (valueText (itemName item)) with
  | Some (FoundProduction prod) =>
      if negb (isVoid (returnType prod)) then emplaceOrCount prodMap prod
      else prodMap
  | _ => prodMap
  end.

Definition countIn (prodMap : gmap nat (Production * nat)) (p : RsProdSyntax)
    : gmap nat (Production * nat) :=
  match p with
  | RsProdItem item => countProd prodMap item
  | RsCodeBlock => prodMap
  | RsIfElse _ ifItem elseClause =>
      let prodMap := countProd prodMap ifItem in
      match elseClause with
      | Some item => countProd prodMap item
      | None => prodMap
      end
  | RsRepeat _ item => countProd prodMap item
  | RsCase _ items =>
      fold_left (fun m ci => countProd m (caseItemProd ci)) items prodMap
  end.

(** The variable for a production that is referenced [count] times. *)
Definition ruleVariable (syntax : RsRuleSyntax) (prod : Production) (count : nat)
    : RuleVariable :=
  let var := VariableSymbols.newVariableSymbol (name prod)
               (location (ruleFirstToken syntax)) Automatic in
  let var := VariableSymbols.mkVariableSymbol (VariableSymbols.varName var)
               (VariableSymbols.varLocation var) (VariableSymbols.lifetime var) true
               (VariableSymbols.declaredTypeSyntax var)
               (VariableSymbols.declaredTypeFlags var)
               (VariableSymbols.fromDeclarator var) in
  mkRuleVariable var true
    (if bool_decide (count = 1) then OfReturnType (returnType prod)
     else FixedSizeUnpackedArray (returnType prod) 1 count).

(** The variables are pushed in the order in which the map is iterated,
    which the map does not fix; here it is the order of [map_to_list]. *)
Definition createRuleVariables (syntax : RsRuleSyntax) : list RuleVariable :=
  let prodMap := fold_left countIn (prods syntax) ∅ in
  map (fun '(_, (prod, count)) => ruleVariable syntax prod count) (map_to_list prodMap).

(** *** The references of a rule *)

(** The production items of a rule, in the order in which they are
    counted. *)
Definition itemsOf (p : RsProdSyntax) : list RsProdItemSyntax :=
  match p with
  | RsProdItem item => [item]
  | RsCodeBlock => []
  | RsIfElse _ ifItem elseClause =>
      ifItem :: match elseClause with Some item => [item] | None => [] end
  | RsRepeat _ item => [item]
  | RsCase _ items => map caseItemProd items
  end.

Definition ruleItems (syntax : RsRuleSyntax) : list RsProdItemSyntax :=
  flat_map itemsOf (prods syntax).

(** The production an item refers to when it has a value to store. *)
Definition referenced (item : RsProdItemSyntax) : option Production :=
  match unqualified (valueText (itemName item)) with
  | Some (FoundProduction prod) =>
      if negb (isVoid (returnType prod)) then Some prod else None
  | _ => None
  end.

Definition references (syntax : RsRuleSyntax) : list Production :=
  omap referenced (ruleItems syntax).

End RuleVariables.

(** The productions of a list without those whose address came before,
    and the number of times an address comes in a list. *)
Definition distinct (refs : list Production) : list Production :=
  fold_left
    (fun acc prod =>
       if bool_decide (address prod ∈ map address acc) then acc else acc ++ [prod])
    refs [].

Definition timesReferenced (refs : list Production) (prod : Production) : nat :=
  count_occ Nat.eq_dec (map address refs) (address prod).

(** *** [findProduction], [createProdItem] and [createCaseProd] *)

Inductive RsDiagCode := NotAProduction | RandJoinNotNumeric.

Record RsDiagnostic := mkRsDiagnostic {
  rsCode : RsDiagCode;
  rsRange : SourceRange;
  rsArgs : list string;
  rsNotes : list (DiagCode * SourceLocation);
}.

Record ProdItem := mkProdItem {
  target : option Production;
  args : list Expression;
}.

Record CaseItem := mkCaseItem {
  caseExpressions : list Expression;
  caseItem : ProdItem;
}.

Record CaseProd := mkCaseProd {
  caseExpr : Expression;
  caseItems : list CaseItem;
  defaultItem : option ProdItem;
}.

Section CaseProds.

(** [Lookup::unqualifiedAt] from the context, allowing symbols declared
    after; [CallExpression::bindArgs]; and
    [Expression::bindMembershipExpressions], which binds the case
    expression followed by the item expressions. *)
Variable unqualifiedAt : string -> SourceRange -> option Found.
Variable bindArgs :
  list ExpressionSyntax -> Production -> SourceRange -> list Expression * list RsDiagnostic.
Variable bindMembershipExpressions :
  ExpressionSyntax -> list ExpressionSyntax -> list Expression * list RsDiagnostic.

Definition findProduction (n : string) (nameRange : SourceRange)
    : option Production * list RsDiagnostic :=
  match unqualifiedAt n nameRange with
  | None => (None, [])
  | Some (FoundOther loc) =>
      (None, [mkRsDiagnostic NotAProduction nameRange [n] [(NoteDeclarationHere, loc)]])
  | Some (FoundProduction prod) => (Some prod, [])
  end.

Definition createProdItem (syntax : RsProdItemSyntax) : ProdItem * list RsDiagnostic :=
  let '(symbol, ds) :=
    findProduction (valueText (itemName syntax)) (range (itemName syntax)) in
  match symbol with
  | None => (mkProdItem None [], ds)
  | Some prod =>
      let '(bound, ds') := bindArgs (argList syntax) prod (itemRange syntax) in
      (mkProdItem (Some prod) bound, ds ++ ds')
  end.

(** The first loop of [createCaseProd]: the expressions of all items, a
    production item for each of these expressions, and the default item. *)
Record Collected := mkCollected {
  collectedExpressions : list ExpressionSyntax;
  collectedProds : list ProdItem;
  defItem : option ProdItem;
  collectedDiags : list RsDiagnostic;
}.

Definition collectStep (st : Collected) (item : RsCaseItemSyntax) : Collected :=
  match item with
  | StandardRsCaseItem exprs it =>
      let '(pi, ds) := createProdItem it in
      mkCollected (collectedExpressions st ++ exprs)
        (collectedProds st ++ repeat pi (length exprs))
        (defItem st) (collectedDiags st ++ ds)
  | DefaultRsCaseItem it =>
      match defItem st with
      | Some _ => st
      | None =>
          let '(pi, ds) := createProdItem it in
          mkCollected (collectedExpressions st) (collectedProds st) (Some pi)
            (collectedDiags st ++ ds)
      end
  end.

(** The second loop: the two iterators and the case items built so far;
    [None] is an iterator read at its end. *)
Record Cursor := mkCursor {
  boundIt : list Expression;
  prodIt : list ProdItem;
  built : list CaseItem;
}.

Definition groupStep (st : option Cursor) (item : RsCaseItemSyntax) : option Cursor :=
  match st with
  | None => None
  | Some c =>
      match item with
      | StandardRsCaseItem exprs _ =>
          if bool_decide (length exprs <= length (boundIt c)) then
            match prodIt c with
            | pi :: rest =>
                Some (mkCursor (skipn (length exprs) (boundIt c)) rest
                        (built c ++ [mkCaseItem (firstn (length exprs) (boundIt c)) pi]))
            | [] => None
            end
          else None
      | DefaultRsCaseItem _ => Some c
      end
  end.

Definition createCaseProd (expr : ExpressionSyntax) (items : list RsCaseItemSyntax)
    : option CaseProd * list RsDiagnostic :=
  let st := fold_left collectStep items (mkCollected [] [] None []) in
  let '(bound, ds) := bindMembershipExpressions expr (collectedExpressions st) in
  (match bound with
   | [] => None
   | first :: rest =>
       match fold_left groupStep items (Some (mkCursor rest (collectedProds st) [])) with
       | Some c => Some (mkCaseProd first (built c) (defItem st))
       | None => None
       end
   end,
   collectedDiags st ++ ds).

(** *** The standard items of a case *)

Definition standardOf (item : RsCaseItemSyntax)
    : option (list ExpressionSyntax * RsProdItemSyntax) :=
  match item with
  | StandardRsCaseItem exprs it => Some (exprs, it)
  | DefaultRsCaseItem _ => None
  end.

Definition standardItems (items : list RsCaseItemSyntax)
    : list (list ExpressionSyntax * RsProdItemSyntax) :=
  omap standardOf items.

(** One production item per case expression, as the first loop lays them
    out. *)
Definition perExpression (items : list RsCaseItemSyntax) : list ProdItem :=
  flat_map (fun '(exprs, it) => repeat (fst (createProdItem it)) (length exprs))
    (standardItems items).

Definition defaultOf (item : RsCaseItemSyntax) : option RsProdItemSyntax :=
  match item with
  | StandardRsCaseItem _ _ => None
  | DefaultRsCaseItem it => Some it
  end.

End CaseProds.

(** *** [createRule] *)

Section Rules.

Variable unqualifiedAt : string -> SourceRange -> option Found.
Variable bindArgs :
  list ExpressionSyntax -> Production -> SourceRange -> list Expression * list RsDiagnostic.
Variable bindMembershipExpressions :
  ExpressionSyntax -> list ExpressionSyntax -> list Expression * list RsDiagnostic.

(** The statement blocks of a rule block; [Expression::bind],
    [ASTContext::requireBooleanConvertible] and [requireIntegral], whether
    the type of an expression is numeric, that type as a diagnostic prints
    it, and [StatementBlockSymbol::getStatement] in a rand sequence. *)
Variable StatementBlockSymbol : Type.
Variable bind : ExpressionSyntax -> Expression * list RsDiagnostic.
Variable requireBooleanConvertible : Expression -> list RsDiagnostic.
Variable requireIntegral : Expression -> list RsDiagnostic.
Variable isNumeric : Expression -> bool.
Variable typeToString : Expression -> string.
Variable getStatement : StatementBlockSymbol -> list RsDiagnostic.

Inductive Prod :=
  | ItemProd (item : ProdItem)
  | CodeBlockProd (block : StatementBlockSymbol)
  | IfElseProd (expr : Expression) (ifItem : ProdItem) (elseItem : option ProdItem)
  | RepeatProd (expr : Expression) (item : ProdItem)
  | CaseProdOf (prod : CaseProd).

Record Rule := mkRule {
  ruleProds : list Prod;
  weightExpr : option Expression;
  randJoinExpr : option Expression;
  codeBlock : option StatementBlockSymbol;
  isRandJoin : bool;
}.

(** The loop over the productions of a rule: the iterator over the
    blocks, the productions built and the diagnostics; [None] is the
    failure of the assertion that a block is left, or of a case
    production. *)
Record RuleState := mkRuleState {
  blockIt : list StatementBlockSymbol;
  builtProds : list Prod;
  ruleDiags : list RsDiagnostic;
}.

Definition prodStep (st : option RuleState) (p : RsProdSyntax) : option RuleState :=
  match st with
  | None => None
  | Some st =>
      match p with
      | RsProdItem item =>
          let '(pi, ds) := createProdItem unqualifiedAt bindArgs item in
          Some (mkRuleState (blockIt st) (builtProds st ++ [ItemProd pi])
                  (ruleDiags st ++ ds))
      | RsCodeBlock =>
          match blockIt st with
          | block :: rest =>
              Some (mkRuleState rest (builtProds st ++ [CodeBlockProd block])
                      (ruleDiags st))
          | [] => None
          end
      | RsIfElse condition ifItem elseClause =>
          let '(expr, ds1) := bind condition in
          let '(ifI, ds2) := createProdItem unqualifiedAt bindArgs ifItem in
          let '(elseI, ds3) :=
            match elseClause with
            | Some item =>
                let '(pi, ds) := createProdItem unqualifiedAt bindArgs item in
                (Some pi, ds)
            | None => (None, [])
            end in
          let ds4 := if negb (bad expr) then requireBooleanConvertible expr else [] in
          Some (mkRuleState (blockIt st) (builtProds st ++ [IfElseProd expr ifI elseI])
                  (ruleDiags st ++ ds1 ++ ds2 ++ ds3 ++ ds4))
      | RsRepeat e item =>
          let '(expr, ds1) := bind e in
          let '(pi, ds2) := createProdItem unqualifiedAt bindArgs item in
          Some (mkRuleState (blockIt st) (builtProds st ++ [RepeatProd expr pi])
                  (ruleDiags st ++ ds1 ++ ds2 ++ requireIntegral expr))
      | RsCase e items =>
          match createCaseProd unqualifiedAt bindArgs bindMembershipExpressions e items with
          | (Some c, ds) =>
              Some (mkRuleState (blockIt st) (builtProds st ++ [CaseProdOf c])
                      (ruleDiags st ++ ds))
          | (None, _) => None
          end
      end
  end.

(** [createRule] for the rule block with the statement blocks [blocks]. *)
Definition createRule (syntax : RsRuleSyntax) (blocks : list StatementBlockSymbol)
    : option (Rule * list RsDiagnostic) :=
  match fold_left prodStep (prods syntax) (Some (mkRuleState blocks [] [])) with
  | None => None
  | Some st =>
      let weighted :=
        match weightClause syntax with
        | Some wc =>
            let '(e, ds) := bind (weight wc) in
            if weightCodeBlock wc then
              match blockIt st with
              | block :: _ => Some (Some e, Some block, ds ++ requireIntegral e)
              | [] => None
              end
            else Some (Some e, None, ds ++ requireIntegral e)
        | None => Some (None, None, [])
        end in
      match weighted with
      | None => None
      | Some (weightExpr, codeBlock, dsw) =>
          let '(randJoinExpr, dsj) :=
            match randJoin syntax with
            | Some (Some es) =>
                let '(e, ds) := bind es in
                (Some e,
                 ds ++ if negb (bad e) && negb (isNumeric e)
                       then [mkRsDiagnostic RandJoinNotNumeric (sourceRange e)
                               [typeToString e] []]
                       else [])
            | _ => (None, [])
            end in
          Some (mkRule (builtProds st) weightExpr randJoinExpr codeBlock
                  (bool_decide (is_Some (randJoin syntax))),
                ruleDiags st ++ dsw ++ dsj ++ flat_map getStatement blocks)
      end
  end.

(** *** The code blocks of a rule *)

Definition isCodeBlock (p : RsProdSyntax) : bool :=
  match p with RsCodeBlock => true | _ => false end.

Definition blockOf (p : Prod) : option StatementBlockSymbol :=
  match p with CodeBlockProd block => Some block | _ => None end.

(** A production and the syntax it is built from are of the same kind. *)
Definition builtFrom (p : RsProdSyntax) (prod : Prod) : Prop :=
  match p, prod with
  | RsProdItem _, ItemProd _ => True
  | RsCodeBlock, CodeBlockProd _ => True
  | RsIfElse _ _ elseClause, IfElseProd _ _ elseItem =>
      is_Some elseClause <-> is_Some elseItem
  | RsRepeat _ _, RepeatProd _ _ => True
  | RsCase _ _, CaseProdOf _ => True
  | _, _ => False
  end.

(** The case productions of a rule can be built. *)
Definition caseBuilds (p : RsProdSyntax) : Prop :=
  match p with
  | RsCase e items =>
      is_Some (fst (createCaseProd unqualifiedAt bindArgs bindMembershipExpressions
                      e items))
  | _ => True
  end.

End Rules.

End RandSeq.

(** ** Ports of sequences, properties and let declarations:
    [AssertionPortSymbol::buildPorts] *)

Module AssertionPorts.

Inductive ArgumentDirection := In | Out | InOut | Ref.

#[global] Instance ArgumentDirection_eq_dec : EqDecision ArgumentDirection.
Proof. solve_decision. Defined.

(** The kind of the symbol the ports belong to. *)
Inductive OwnerKind := Sequence | Property | LetDecl.

#[global] Instance OwnerKind_eq_dec : EqDecision OwnerKind.
Proof. solve_decision. Defined.

Inductive TypeSyntaxKind :=
  | ImplicitTypeKind (signing : bool) (hasDimensions : bool)
  | PropertyType
  | SequenceType
  | Untyped
  | OtherType.

#[global] Instance TypeSyntaxKind_eq_dec : EqDecision TypeSyntaxKind.
Proof. solve_decision. Defined.

Record PortTypeSyntax := mkPortType {
  typeKind : TypeSyntaxKind;
  typeFirstToken : Token;
  typeRange : SourceRange;
}.

(** A direction keyword stands for its direction; [dimensions] is the
    range of the dimensions when there are any. *)
Record AssertionItemPortSyntax := mkAssertionItemPort {
  local : option Token;
  direction : option (ArgumentDirection * SourceRange);
  type : PortTypeSyntax;
  name : Token;
  dimensions : option SourceRange;
  defaultValue : option (ExpressionSyntax * SourceRange);
}.

Inductive PortDeclaredType :=
  | TypeSyntax (t : PortTypeSyntax)
  | UntypedType.

Record AssertionPortSymbol := mkAssertionPort {
  portName : string;
  portLocation : SourceLocation;
  localVarDirection : option ArgumentDirection;
  declaredType : PortDeclaredType;
  requireSequenceType : bool;
  dimensionSyntax : option SourceRange;
  defaultValueSyntax : option ExpressionSyntax;
}.

Inductive PortDiagCode :=
  | AssertionPortPropOutput | InvalidArrayElemType | LocalVarTypeRequired
  | PropertyPortInSeq | PropertyPortInLet | AssertionPortOutputDefault.

#[global] Instance PortDiagCode_eq_dec : EqDecision PortDiagCode.
Proof. solve_decision. Defined.

Record PortDiagnostic := mkPortDiagnostic {
  portCode : PortDiagCode;
  portRange : SourceRange;
  portArgs : list string;
}.

(** The [isEmpty] of [buildPorts]: an implicit type without signing and
    without dimensions. *)
Definition isEmpty (syntax : PortTypeSyntax) : bool :=
  match typeKind syntax with
  | ImplicitTypeKind signing hasDimensions => negb signing && negb hasDimensions
  | _ => false
  end.

Definition isOutput (d : option ArgumentDirection) : bool :=
  match d with
  | Some Out | Some InOut => true
  | _ => false
  end.

Definition directionRange (item : AssertionItemPortSyntax) : SourceRange :=
  match direction item with
  | Some (_, r) => r
  | None => (0, 0)
  end.

Record PortState := mkPortState {
  lastType : option PortTypeSyntax;
  lastLocalDir : option ArgumentDirection;
  results : list AssertionPortSymbol;
  portDiags : list PortDiagnostic;
}.

(** The port built from one item, the state behind it and the
    diagnostics of the item. *)
Definition buildPort (owner : OwnerKind) (lastType : option PortTypeSyntax)
    (lastLocalDir : option ArgumentDirection) (item : AssertionItemPortSyntax)
    : AssertionPortSymbol * option PortTypeSyntax * list PortDiagnostic :=
  (* the local keyword and the direction *)
  let '(dir, lastType, ds1) :=
    match local item with
    | Some _ =>
        let d := match direction item with
                 | Some (d, _) => d
                 | None => In
                 end in
        (Some d, None,
         if bool_decide (owner = Property) && negb (bool_decide (d = In))
         then [mkPortDiagnostic AssertionPortPropOutput (directionRange item) []]
         else [])
    | None =>
        (if isEmpty (type item) then lastLocalDir else None, lastType, [])
    end in
  (* the type *)
  let '(declared, lastType, ds2) :=
    if isEmpty (type item) then
      match lastType with
      | Some t => (TypeSyntax t, lastType, [])
      | None =>
          (UntypedType, lastType,
           match dimensions item with
           | Some r => [mkPortDiagnostic InvalidArrayElemType r ["untyped"]]
           | None => []
           end ++
           match local item with
           | Some l =>
               if negb (bool_decide (owner = LetDecl))
               then [mkPortDiagnostic LocalVarTypeRequired (range l) []]
               else []
           | None => []
           end)
      end
    else
      (TypeSyntax (type item), Some (type item),
       if bool_decide (typeKind (type item) = PropertyType) &&
          bool_decide (owner = Sequence)
       then [mkPortDiagnostic PropertyPortInSeq (typeRange (type item)) []]
       else if (bool_decide (typeKind (type item) = PropertyType) ||
                bool_decide (typeKind (type item) = SequenceType)) &&
               bool_decide (owner = LetDecl)
       then [mkPortDiagnostic PropertyPortInLet (typeRange (type item))
               [valueText (typeFirstToken (type item))]]
       else []) in
  (* the default value *)
  let '(default, ds3) :=
    match defaultValue item with
    | Some (expr, r) =>
        if isOutput dir
        then (None, [mkPortDiagnostic AssertionPortOutputDefault r []])
        else (Some expr, [])
    | None => (None, [])
    end in
  (mkAssertionPort (valueText (name item)) (location (name item)) dir declared
     (bool_decide (is_Some dir)) (dimensions item) default,
   lastType, ds1 ++ ds2 ++ ds3).

Definition portStep (owner : OwnerKind) (st : PortState)
    (item : AssertionItemPortSyntax) : PortState :=
  let '(port, lastType', ds) := buildPort owner (lastType st) (lastLocalDir st) item in
  mkPortState lastType' (localVarDirection port) (results st ++ [port])
    (portDiags st ++ ds).

(** [AssertionPortSymbol::buildPorts]: the ports, which are also the
    members added to the scope, and the diagnostics. *)
Definition buildPorts (owner : OwnerKind) (ports : list AssertionItemPortSyntax)
    : list AssertionPortSymbol * list PortDiagnostic :=
  let st := fold_left (portStep owner) ports (mkPortState None None [] []) in
  (results st, portDiags st).

(** [SequenceSymbol], [PropertySymbol] and [LetDeclSymbol::fromSyntax]:
    the ports of the declaration, none without a port list. *)
Definition portsFromSyntax (owner : OwnerKind)
    (portList : option (list AssertionItemPortSyntax))
    : list AssertionPortSymbol * list PortDiagnostic :=
  match portList with
  | Some ports => buildPorts owner ports
  | None => ([], [])
  end.

(** The diagnostics of one code. *)
Definition withPortCode (c : PortDiagCode) (ds : list PortDiagnostic)
    : list PortDiagnostic :=
  List.filter (fun d => bool_decide (portCode d = c)) ds.

(** An item that gives a name only: no [local] and an empty type. *)
Definition nameOnly (item : AssertionItemPortSyntax) : bool :=
  negb (bool_decide (is_Some (local item))) && isEmpty (type item).

(** What an item fixes of its port whatever came before it. *)
Definition builtFrom (item : AssertionItemPortSyntax) (port : AssertionPortSymbol)
    : Prop :=
  portName port = valueText (name item) /\
  portLocation port = location (name item) /\
  dimensionSyntax port = dimensions item /\
  (isEmpty (type item) = false -> declaredType port = TypeSyntax (type item)) /\
  (is_Some (local item) ->
   localVarDirection port =
     Some (match direction item with Some (d, _) => d | None => In end) /\
   (isEmpty (type item) = true -> declaredType port = UntypedType)) /\
  (local item = None -> isEmpty (type item) = false -> localVarDirection port = None) /\
  defaultValueSyntax port =
    (if isOutput (localVarDirection port) then None else fst <$> defaultValue item).

End AssertionPorts.

(** ** Package imports: [ExplicitImportSymbol::importedSymbol],
    [findPackage] and [WildcardImportSymbol::getPackage] *)

Module Imports.

Inductive ImportDiagCode := UnknownPackage | UnknownPackageMember.

#[global] Instance ImportDiagCode_eq_dec : EqDecision ImportDiagCode.
Proof. solve_decision. Defined.

Record ImportDiagnostic := mkImportDiagnostic {
  importCode : ImportDiagCode;
  importLocation : SourceLocation;
  importArgs : list string;
}.

Record PackageImportItemSyntax := mkPackageImportItem {
  package : Token;
  item : Token;
}.

(** The location of a token of the syntax. *)
Definition locationOf (t : Token) : SourceLocation := location t.

Section Lookup.

(** The package symbols and the symbols they export; the packages of the
    compilation by name ([Compilation::getPackage]), its lint mode, and
    [PackageSymbol::findForImport]. *)
Variable PackageSymbol : Type.
Variable Symbol : Type.
Variable getPackage : string -> option PackageSymbol.
Variable lintMode : bool.
Variable findForImport : PackageSymbol -> string -> option Symbol.

(** A scope with the scopes around it: the symbol of a scope is a package
    or a symbol of another kind, and has a parent scope or none. *)
Inductive ScopeKind :=
  | PackageScope (pkg : PackageSymbol)
  | OtherScope.

Inductive ScopeChain :=
  | Outermost (kind : ScopeKind)
  | Within (kind : ScopeKind) (parent : ScopeChain).

Definition findPackage (packageName : string) (errorLoc : SourceLocation)
    : option PackageSymbol * list ImportDiagnostic :=
  let package := getPackage packageName in
  (package,
   if negb (bool_decide (is_Some package)) && negb (bool_decide (packageName = "")) &&
      negb lintMode
   then [mkImportDiagnostic UnknownPackage errorLoc [packageName]]
   else []).

(** The loop that notes an import on the package around the scope: the
    calls of [PackageSymbol::noteImport] it makes. *)
Fixpoint noteInPackage (scope : ScopeChain) (import : Symbol)
    : list (PackageSymbol * Symbol) :=
  match scope with
  | Outermost (PackageScope pkg) => [(pkg, import)]
  | Outermost OtherScope => []
  | Within (PackageScope pkg) _ => [(pkg, import)]
  | Within OtherScope parent => noteInPackage parent import
  end.

Record ExplicitImportSymbol := mkExplicitImport {
  packageName : string;
  importName : string;
  location : SourceLocation;
  getSyntax : option PackageImportItemSyntax;
  getParentScope : option ScopeChain;
  initialized : bool;
  package_ : option PackageSymbol;
  import : option Symbol;
}.

Record Imported := mkImported {
  result : option Symbol;
  symbol : ExplicitImportSymbol;
  diags : list ImportDiagnostic;
  noted : list (PackageSymbol * Symbol);
}.

(** [ExplicitImportSymbol::importedSymbol]; [None] is the failure of the
    assertion that the symbol has a parent scope. *)
Definition importedSymbol (sym : ExplicitImportSymbol) : option Imported :=
  if negb (initialized sym) then
    match getParentScope sym with
    | None => None
    | Some scope =>
        let loc := match getSyntax sym with
                   | Some syntax => locationOf (package syntax)
                   | None => location sym
                   end in
        let '(pkg, ds) := findPackage (packageName sym) loc in
        match pkg with
        | None =>
            Some (mkImported None
                    (mkExplicitImport (packageName sym) (importName sym) (location sym)
                       (getSyntax sym) (getParentScope sym) true None (import sym))
                    ds [])
        | Some p =>
            let found := findForImport p (importName sym) in
            let sym' := mkExplicitImport (packageName sym) (importName sym) (location sym)
                          (getSyntax sym) (getParentScope sym) true (Some p) found in
            match found with
            | None =>
                Some (mkImported None sym'
                        (ds ++
                         if negb (bool_decide (importName sym = "")) then
                           let loc := match getSyntax sym with
                                      | Some syntax => locationOf (item syntax)
                                      | None => location sym
                                      end in
                           [mkImportDiagnostic UnknownPackageMember loc
                              [importName sym; packageName sym]]
                         else [])
                        [])
            | Some s => Some (mkImported (Some s) sym' ds (noteInPackage scope s))
            end
        end
    end
  else Some (mkImported (import sym) sym [] []).

(** [ExplicitImportSymbol::package]. *)
Definition packageOf (sym : ExplicitImportSymbol)
    : option (option PackageSymbol * Imported) :=
  match importedSymbol sym with
  | Some r => Some (package_ (symbol r), r)
  | None => None
  end.

Record WildcardImportSymbol := mkWildcardImport {
  wildcardPackageName : string;
  wildcardLocation : SourceLocation;
  wildcardSyntax : option PackageImportItemSyntax;
  wildcardParentScope : option ScopeChain;
  wildcardPackage : option (option PackageSymbol);
}.

Definition setPackage (pkg : PackageSymbol) (sym : WildcardImportSymbol)
    : WildcardImportSymbol :=
  mkWildcardImport (wildcardPackageName sym) (wildcardLocation sym) (wildcardSyntax sym)
    (wildcardParentScope sym) (Some (Some pkg)).

(** [WildcardImportSymbol::getPackage]; [None] is the failed assertion. *)
Definition getWildcardPackage (sym : WildcardImportSymbol)
    : option (option PackageSymbol * WildcardImportSymbol * list ImportDiagnostic) :=
  match wildcardPackage sym with
  | Some pkg => Some (pkg, sym, [])
  | None =>
      match wildcardParentScope sym with
      | None => None
      | Some scope =>
          let loc := match wildcardSyntax sym with
                     | Some syntax => locationOf (package syntax)
                     | None => wildcardLocation sym
                     end in
          let '(pkg, ds) := findPackage (wildcardPackageName sym) loc in
          Some (pkg,
                mkWildcardImport (wildcardPackageName sym) (wildcardLocation sym)
                  (wildcardSyntax sym) (wildcardParentScope sym) (Some pkg),
                ds)
      end
  end.

(** The package around a scope, if any. *)
Fixpoint enclosingPackage (scope : ScopeChain) : option PackageSymbol :=
  match scope with
  | Outermost (PackageScope pkg) => Some pkg
  | Outermost OtherScope => None
  | Within (PackageScope pkg) _ => Some pkg
  | Within OtherScope parent => enclosingPackage parent
  end.

End Lookup.

End Imports.

(** ** Formal arguments: [FormalArgumentSymbol::fromSyntax] and
    [mergeVariable] *)

Module FormalArguments.

Import VariableSymbols.

Inductive ArgumentDirection := In | Out | InOut | Ref.

#[global] Instance ArgumentDirection_eq_dec : EqDecision ArgumentDirection.
Proof. solve_decision. Defined.

(** The header of a port declaration; the direction keyword stands for
    its direction. *)
Inductive PortHeaderSyntax :=
  | VariablePortHeader (constKeyword : option Token) (direction : ArgumentDirection)
      (varKeyword : option Token) (dataType : DataTypeSyntax)
  | OtherPortHeader (headerRange : SourceRange).

Record PortDeclarationSyntax := mkPortDeclaration {
  header : PortHeaderSyntax;
  declarators : list DeclaratorSyntax;
}.

(** The parent of the syntax node of an argument. *)
Inductive ParentSyntax :=
  | PortDeclarationParent (decl : PortDeclarationSyntax)
  | OtherParent.

Inductive ArgumentDiagCode := ExpectedFunctionPort.

Record ArgumentDiagnostic := mkArgumentDiagnostic {
  argumentCode : ArgumentDiagCode;
  argumentRange : SourceRange;
}.

Record FormalArgumentSymbol := mkFormalArgument {
  variable : VariableSymbol;
  direction : ArgumentDirection;
  syntaxParent : option (option ParentSyntax);
  formalArgMergeVar : bool;
  mergedVar : option VariableSymbol;
}.

(** [FormalArgumentSymbol::fromSyntax]; [None] is the failure of the
    assertion that a [const] argument is a [ref] argument. *)
Definition fromSyntax (scope : Scope) (syntax : PortDeclarationSyntax)
    : option (list FormalArgumentSymbol * list ArgumentDiagnostic) :=
  match header syntax with
  | OtherPortHeader r => Some ([], [mkArgumentDiagnostic ExpectedFunctionPort r])
  | VariablePortHeader constKeyword direction _ dataType =>
      let lt := getDefaultLifetime scope in
      if bool_decide (is_Some constKeyword) && negb (bool_decide (direction = Ref))
      then None
      else
        let isConst := bool_decide (is_Some constKeyword) in
        Some (map (fun declarator =>
                     let v := newVariableSymbol (valueText (name declarator))
                                (location (name declarator)) lt in
                     let v := mkVariableSymbol (varName v) (varLocation v) (lifetime v)
                                (isConstVar v || isConst) (Some dataType)
                                (declaredTypeFlags v) (Some declarator) in
                     mkFormalArgument v direction
                       (Some (Some (PortDeclarationParent syntax))) false None)
                (declarators syntax),
              [])
  end.

(** [FormalArgumentSymbol::mergeVariable]: whether the variable was
    merged, and the argument after the call; [None] is the failure of an
    assertion, on the syntax of the argument or on the kind of the header
    of its declaration. *)
Definition mergeVariable (v : VariableSymbol) (arg : FormalArgumentSymbol)
    : option (bool * FormalArgumentSymbol) :=
  match mergedVar arg with
  | Some _ => Some (false, arg)
  | None =>
      match syntaxParent arg with
      | Some (Some parent) =>
          match parent with
          | OtherParent => Some (false, arg)
          | PortDeclarationParent portDecl =>
              match header portDecl with
              | OtherPortHeader _ => None
              | VariablePortHeader _ _ varKeyword dataType =>
                  if bool_decide (is_Some varKeyword) ||
                     negb (match dataType with ImplicitType => true | _ => false end)
                  then Some (false, arg)
                  else Some (true,
                             mkFormalArgument (variable arg) (direction arg)
                               (syntaxParent arg) true (Some v))
              end
          end
      | _ => None
      end
  end.

(** The header leaves the type of the argument to a variable: it has
    neither the [var] keyword nor a type. *)
Definition leavesTypeOpen (syntax : PortDeclarationSyntax) : bool :=
  match header syntax with
  | VariablePortHeader _ _ None ImplicitType => true
  | _ => false
  end.

End FormalArguments.

(** ** Signals of a clocking block: [ClockVarSymbol::fromSyntax] *)

Module ClockVars.

Inductive ArgumentDirection := In | Out | InOut | Ref.

#[global] Instance ArgumentDirection_eq_dec : EqDecision ArgumentDirection.
Proof. solve_decision. Defined.

(** The keyword in the place of the input keyword of a direction. *)
Inductive InputToken := InputKeyword | InOutKeyword.

#[global] Instance InputToken_eq_dec : EqDecision InputToken.
Proof. solve_decision. Defined.

Record ClockingDirectionSyntax := mkClockingDirection {
  input : option InputToken;
  inputSkew : option ClockingBlocks.ClockingSkewSyntax;
  output : option Token;
  outputSkew : option ClockingBlocks.ClockingSkewSyntax;
}.

Record EqualsValueClauseSyntax := mkEqualsValueClause {
  equals : Token;
  expr : ExpressionSyntax;
}.

Record AttributeSpecSyntax := mkAttributeSpec {
  name : Token;
  value : option EqualsValueClauseSyntax;
}.

Record ClockingItemSyntax := mkClockingItem {
  direction : ClockingDirectionSyntax;
  decls : list AttributeSpecSyntax;
}.

(** What a lookup finds, as far as [fromSyntax] looks at it. *)
Inductive FoundKind := NetKind | VariableKind | OtherKind.

#[global] Instance FoundKind_eq_dec : EqDecision FoundKind.
Proof. solve_decision. Defined.

Record FoundSymbol := mkFoundSymbol {
  foundName : string;
  foundKind : FoundKind;
  foundLocation : SourceLocation;
}.

(** The type of a clocking signal: that of its initializer, a link to
    the declared type of the signal in the parent scope, or the error
    type. *)
Inductive SignalType :=
  | TypeOf (initializer : Expression)
  | LinkedTo (source : FoundSymbol)
  | ErrorType.

Section FromSyntax.

(** The skews and [ClockingSkew::fromSyntax]; the diagnostics of the
    functions that are called; [Expression::bind],
    [Expression::requireLValue] with the flags of a clocking signal,
    [Lookup::unqualifiedAt] and [ValueExpressionBase::fromSymbol]. *)
Variable ClockingSkew : Type.
Variable emptySkew : ClockingSkew.
Variable Issued : Type.
Variable skewFromSyntax :
  ClockingBlocks.ClockingSkewSyntax -> ASTContext -> ClockingSkew * list Issued.
Variable bind : ExpressionSyntax -> ASTContext -> Expression * list Issued.
Variable requireLValue : Expression -> ASTContext -> SourceLocation -> list Issued.
Variable unqualifiedAt :
  Scope -> string -> LookupLocation -> SourceRange -> option FoundSymbol.
Variable fromSymbol : ASTContext -> FoundSymbol -> SourceRange -> Expression * list Issued.

Inductive ClockVarDiagnostic :=
  | InvalidClockingSignal (signalRange : SourceRange) (signalName : string)
      (noteDeclarationHere : SourceLocation)
  | FromCallee (d : Issued).

Record ClockVarSymbol := mkClockVar {
  varName : string;
  varLocation : SourceLocation;
  lifetime : VariableLifetime;
  varDirection : ArgumentDirection;
  varInputSkew : ClockingSkew;
  varOutputSkew : ClockingSkew;
  getSyntax : AttributeSpecSyntax;
  signalType : SignalType;
  getInitializer : option Expression;
}.

(** The direction and the two skews of an item, with the diagnostics of
    binding the skews. *)
Definition directionOf (context : ASTContext) (dir : ClockingDirectionSyntax)
    : ArgumentDirection * ClockingSkew * ClockingSkew * list Issued :=
  if bool_decide (input dir = Some InOutKeyword) then
    (InOut, emptySkew, emptySkew, [])
  else
    let '(inSkew, ds1) :=
      match input dir, inputSkew dir with
      | Some _, Some skew => skewFromSyntax skew context
      | _, _ => (emptySkew, [])
      end in
    let '(d, outSkew, ds2) :=
      match output dir with
      | Some _ =>
          let d := if bool_decide (is_Some (input dir)) then InOut else Out in
          match outputSkew dir with
          | Some skew => let '(s, ds) := skewFromSyntax skew context in (d, s, ds)
          | None => (d, emptySkew, [])
          end
      | None => (In, emptySkew, [])
      end in
    (d, inSkew, outSkew, ds1 ++ ds2).

(** One declaration of the item: the signal, the diagnostics and the
    drivers added. *)
Definition declare (parent : Scope) (ll : LookupLocation) (context : ASTContext)
    (dir : ArgumentDirection) (inSkew outSkew : ClockingSkew)
    (decl : AttributeSpecSyntax)
    : ClockVarSymbol * list ClockVarDiagnostic * list (FoundSymbol * Expression) :=
  let n := name decl in
  let arg t init :=
    mkClockVar (valueText n) (location n) Static dir inSkew outSkew decl t init in
  match value decl with
  | Some v =>
      let '(e, ds) := bind (expr v) context in
      (arg (TypeOf e) (Some e),
       map FromCallee
         (ds ++ if negb (bool_decide (dir = In))
                then requireLValue e context (location (equals v))
                else []),
       [])
  | None =>
      let sym := unqualifiedAt parent (valueText n) ll (range n) in
      let '(sym, ds1) :=
        match sym with
        | Some s =>
            if negb (bool_decide (foundKind s = NetKind)) &&
               negb (bool_decide (foundKind s = VariableKind))
            then (None, [InvalidClockingSignal (range n) (valueText n) (foundLocation s)])
            else (Some s, [])
        | None => (None, [])
        end in
      match sym with
      | Some s =>
          let '(valExpr, ds2) :=
            fromSymbol context s
              (location n, location n + String.length (valueText n)) in
          (arg (LinkedTo s) None, ds1 ++ map FromCallee ds2,
           if negb (bool_decide (dir = In)) then [(s, valExpr)] else [])
      | None => (arg ErrorType None, ds1, [])
      end
  end.

Record Signals := mkSignals {
  results : list ClockVarSymbol;
  diags : list ClockVarDiagnostic;
  drivers : list (FoundSymbol * Expression);
}.

(** [ClockVarSymbol::fromSyntax], for a clocking block at [blockLocation]
    with the parent scope [parent]; [None] is the failure of the assertion
    that the block has a parent scope. *)
Definition fromSyntax (parent : option Scope) (blockLocation : SourceLocation)
    (syntax : ClockingItemSyntax) : option Signals :=
  match parent with
  | None => None
  | Some parent =>
      let ll := LookupBefore blockLocation in
      let context := mkASTContext parent ll [NonProcedural] in
      let '(dir, inSkew, outSkew, ds) := directionOf context (direction syntax) in
      let context :=
        if bool_decide (dir = Out) || bool_decide (dir = InOut)
        then mkASTContext (contextScope context) (lookupLocation context) [LValue]
        else context in
      Some (fold_left
              (fun st decl =>
                 let '(arg, ds, drv) := declare parent ll context dir inSkew outSkew decl in
                 mkSignals (results st ++ [arg]) (diags st ++ ds) (drivers st ++ drv))
              (decls syntax) (mkSignals [] (map FromCallee ds) []))
  end.

(** The declarations of an item that name a signal of the parent scope,
    and what the lookup of such a name finds. *)
Definition namesSignal (decl : AttributeSpecSyntax) : bool :=
  negb (bool_decide (is_Some (value decl))).

Definition signalOf (parent : Scope) (blockLocation : SourceLocation)
    (decl : AttributeSpecSyntax) : option FoundSymbol :=
  unqualifiedAt parent (valueText (name decl)) (LookupBefore blockLocation)
    (range (name decl)).

Definition isSignal (s : FoundSymbol) : bool :=
  bool_decide (foundKind s = NetKind) || bool_decide (foundKind s = VariableKind).

Definition isInvalidSignal (d : ClockVarDiagnostic) : bool :=
  match d with
  | InvalidClockingSignal _ _ _ => true
  | FromCallee _ => false
  end.

(** The signal a declaration stands for, and the report on a declaration
    that names something else. *)
Definition resolved (parent : Scope) (blockLocation : SourceLocation)
    (decl : AttributeSpecSyntax) : option FoundSymbol :=
  if namesSignal decl then
    match signalOf parent blockLocation decl with
    | Some s => if isSignal s then Some s else None
    | None => None
    end
  else None.

Definition rejected (parent : Scope) (blockLocation : SourceLocation)
    (decl : AttributeSpecSyntax) : option ClockVarDiagnostic :=
  if namesSignal decl then
    match signalOf parent blockLocation decl with
    | Some s =>
        if isSignal s then None
        else Some (InvalidClockingSignal (range (name decl)) (valueText (name decl))
                     (foundLocation s))
    | None => None
    end
  else None.

End FromSyntax.

End ClockVars.

(** ** Modports: [ModportPortSymbol::fromSyntax],
    [ModportClockingSymbol::fromSyntax] and [ModportSymbol::fromSyntax] *)

Module Modports.

Inductive ArgumentDirection := In | Out | InOut | Ref.

#[global] Instance ArgumentDirection_eq_dec : EqDecision ArgumentDirection.
Proof. solve_decision. Defined.

Inductive AssignFlags := NotADriver | InOutPort.

Record ModportNamedPortSyntax := mkModportNamedPort {
  namedPortName : Token;
}.

Record ModportExplicitPortSyntax := mkModportExplicitPort {
  explicitPortName : Token;
  explicitPortExpr : option ExpressionSyntax;
}.

Record ModportClockingPortSyntax := mkModportClockingPort {
  clockingPortName : Token;
}.

Section FromSyntax.

(** The kinds of symbols, with the three questions asked of them (the
    last is [SemanticFacts::isAllowedInModport]); what a lookup finds, with
    whether [getDeclaredType] of the symbol is not null;
    [Lookup::unqualifiedAt] without the parent scopes;
    [ValueExpressionBase::fromSymbol], [Expression::bind],
    [Expression::requireLValue] and [Expression::canConnectToRefArg] for a
    reference that is not constant, with the diagnostics of the callees. *)
Variable SymbolKind : Type.
Variable isSubroutine : SymbolKind -> bool.
Variable isClockingBlock : SymbolKind -> bool.
Variable isAllowedInModport : SymbolKind -> bool.
Variable Issued : Type.

Record FoundSymbol := mkFoundSymbol {
  foundKind : SymbolKind;
  foundLocation : SourceLocation;
  hasDeclaredType : bool;
}.

Variable unqualifiedAt :
  Scope -> string -> LookupLocation -> SourceRange -> option FoundSymbol.
Variable fromSymbol : ASTContext -> FoundSymbol -> SourceRange -> Expression * list Issued.
Variable bind : ExpressionSyntax -> ASTContext -> list ASTFlags -> Expression * list Issued.
Variable requireLValue :
  Expression -> ASTContext -> SourceLocation -> list AssignFlags -> list Issued.
Variable canConnectToRefArg : Expression -> bool.

Inductive ModportDiagnostic :=
  | ExpectedImportExport (r : SourceRange) (n : string) (noteDeclarationHere : SourceLocation)
  | NotAllowedInModport (r : SourceRange) (n : string) (noteDeclarationHere : SourceLocation)
  | NotAClockingBlock (r : SourceRange) (n : string) (noteDeclarationHere : SourceLocation)
  | InvalidRefArg (loc : SourceLocation) (r : SourceRange)
  | FromCallee (d : Issued).

Inductive PortType :=
  | ErrorType
  | VoidType
  | LinkedTo (source : FoundSymbol)
  | TypeOf (connection : Expression).

Record ModportPortSymbol := mkModportPort {
  portName : string;
  portLocation : SourceLocation;
  direction : ArgumentDirection;
  internalSymbol : option FoundSymbol;
  explicitConnection : option Expression;
  portType : PortType;
}.

(** The check of a connection against the direction of the port. *)
Definition checkDirection (direction : ArgumentDirection) (e : Expression)
    (context : ASTContext) (loc : SourceLocation) : list ModportDiagnostic :=
  match direction with
  | In => []
  | Out => map FromCallee (requireLValue e context loc [NotADriver])
  | InOut => map FromCallee (requireLValue e context loc [NotADriver; InOutPort])
  | Ref => if negb (canConnectToRefArg e) then [InvalidRefArg loc (sourceRange e)] else []
  end.

(** [ModportPortSymbol::fromSyntax] for a named port; [None] is the failed
    assertion that the symbol of the connection has a declared type. *)
Definition fromNamedPort (context : ASTContext) (direction : ArgumentDirection)
    (syntax : ModportNamedPortSyntax)
    : option (ModportPortSymbol * list ModportDiagnostic) :=
  let n := namedPortName syntax in
  let found := unqualifiedAt (contextScope context) (valueText n)
                 (lookupLocation context) (range n) in
  let '(internal, ds) :=
    match found with
    | Some s =>
        if isSubroutine (foundKind s) then
          (None, [ExpectedImportExport (range n) (valueText n) (foundLocation s)])
        else if negb (isAllowedInModport (foundKind s)) then
          (None, [NotAllowedInModport (range n) (valueText n) (foundLocation s)])
        else (Some s, [])
    | None => (None, [])
    end in
  match internal with
  | None =>
      Some (mkModportPort (valueText n) (location n) direction None None ErrorType, ds)
  | Some s =>
      if negb (hasDeclaredType s) then None
      else
        let checkCtx :=
          mkASTContext (contextScope context) (lookupLocation context)
            (NonProcedural ::
             if negb (bool_decide (direction = In)) then [LValue] else []) in
        let loc := location n in
        let '(e, ds') :=
          fromSymbol checkCtx s (loc, loc + String.length (valueText n)) in
        Some (mkModportPort (valueText n) loc direction (Some s) None (LinkedTo s),
              ds ++ map FromCallee ds' ++ checkDirection direction e checkCtx loc)
  end.

(** [ModportPortSymbol::fromSyntax] for an explicit port. *)
Definition fromExplicitPort (parentContext : ASTContext) (direction : ArgumentDirection)
    (syntax : ModportExplicitPortSyntax) : ModportPortSymbol * list ModportDiagnostic :=
  let context :=
    mkASTContext (contextScope parentContext) (lookupLocation parentContext)
      [NonProcedural] in
  let n := explicitPortName syntax in
  match explicitPortExpr syntax with
  | None => (mkModportPort (valueText n) (location n) direction None None VoidType, [])
  | Some es =>
      let extraFlags :=
        if bool_decide (direction = Out) || bool_decide (direction = InOut)
        then [LValue] else [] in
      let '(e, ds) := bind es context extraFlags in
      if bad e then
        (mkModportPort (valueText n) (location n) direction None (Some e) ErrorType,
         map FromCallee ds)
      else
        (mkModportPort (valueText n) (location n) direction None (Some e) (TypeOf e),
         map FromCallee ds ++ checkDirection direction e context (location n))
  end.

Record ModportClockingSymbol := mkModportClocking {
  clockingName : string;
  clockingLocation : SourceLocation;
  target : option FoundSymbol;
}.

(** [ModportClockingSymbol::fromSyntax]. *)
Definition fromClockingPort (context : ASTContext) (syntax : ModportClockingPortSyntax)
    : ModportClockingSymbol * list ModportDiagnostic :=
  let n := clockingPortName syntax in
  let found := unqualifiedAt (contextScope context) (valueText n)
                 (lookupLocation context) (range n) in
  match found with
  | Some s =>
      if negb (isClockingBlock (foundKind s)) then
        (mkModportClocking (valueText n) (location n) None,
         [NotAClockingBlock (range n) (valueText n) (foundLocation s)])
      else (mkModportClocking (valueText n) (location n) (Some s), [])
  | None => (mkModportClocking (valueText n) (location n) None, [])
  end.

(** *** [ModportSymbol::fromSyntax] *)

(** The syntax of a subroutine port, the method prototypes, and the two
    forms of [MethodPrototypeSymbol::fromSyntax], which are told whether
    the port is an export. *)
Variable ModportSubroutinePortSyntax : Type.
Variable MethodPrototypeSymbol : Type.
Variable prototypeOfName :
  ASTContext -> ModportNamedPortSyntax -> bool -> MethodPrototypeSymbol * list Issued.
Variable prototypeOfPort :
  Scope -> ModportSubroutinePortSyntax -> bool -> MethodPrototypeSymbol * list Issued.

Inductive ModportSimplePortSyntax :=
  | NamedPort (syntax : ModportNamedPortSyntax)
  | ExplicitPort (syntax : ModportExplicitPortSyntax).

Inductive ModportSubroutineSyntax :=
  | NamedSubroutine (syntax : ModportNamedPortSyntax)
  | SubroutinePort (syntax : ModportSubroutinePortSyntax).

Inductive ImportExportKeyword := ImportKeyword | ExportKeyword.

Inductive ModportPortListSyntax :=
  | ModportSimplePortList (direction : ArgumentDirection)
      (ports : list ModportSimplePortSyntax)
  | ModportSubroutinePortList (importExport : ImportExportKeyword)
      (ports : list ModportSubroutineSyntax)
  | ModportClockingPort (syntax : ModportClockingPortSyntax).

Record ModportItemSyntax := mkModportItem {
  itemName : Token;
  itemPorts : list ModportPortListSyntax;
}.

Inductive Member :=
  | PortMember (port : ModportPortSymbol)
  | MethodMember (method : MethodPrototypeSymbol)
  | ClockingMember (clocking : ModportClockingSymbol).

Record ModportSymbol := mkModport {
  modportName : string;
  modportLocation : SourceLocation;
  hasExports : bool;
  members : list Member;
}.

Definition isExport (k : ImportExportKeyword) : bool :=
  match k with ExportKeyword => true | ImportKeyword => false end.

(** One simple port on the modport built so far; [None] once the assertion
    of a named port has failed. *)
Definition addSimplePort (context : ASTContext) (direction : ArgumentDirection)
    (st : option (ModportSymbol * list ModportDiagnostic))
    (simplePort : ModportSimplePortSyntax)
    : option (ModportSymbol * list ModportDiagnostic) :=
  match st with
  | None => None
  | Some (modport, diags) =>
      let built :=
        match simplePort with
        | NamedPort syntax => fromNamedPort context direction syntax
        | ExplicitPort syntax => Some (fromExplicitPort context direction syntax)
        end in
      match built with
      | Some (mpp, ds) =>
          Some (mkModport (modportName modport) (modportLocation modport)
                  (hasExports modport) (members modport ++ [PortMember mpp]),
                diags ++ ds)
      | None => None
      end
  end.

(** One subroutine port on the modport built so far. *)
Definition addSubroutinePort (context : ASTContext) (isExport : bool)
    (st : ModportSymbol * list ModportDiagnostic) (subPort : ModportSubroutineSyntax)
    : ModportSymbol * list ModportDiagnostic :=
  let '(modport, diags) := st in
  let '(mps, ds) :=
    match subPort with
    | NamedSubroutine syntax => prototypeOfName context syntax isExport
    | SubroutinePort syntax => prototypeOfPort (contextScope context) syntax isExport
    end in
  (mkModport (modportName modport) (modportLocation modport)
     (hasExports modport) (members modport ++ [MethodMember mps]),
   diags ++ map FromCallee ds).

(** One entry of the port list of an item, on the modport built so far. *)
Definition addPorts (context : ASTContext)
    (st : option (ModportSymbol * list ModportDiagnostic))
    (port : ModportPortListSyntax) : option (ModportSymbol * list ModportDiagnostic) :=
  match st with
  | None => None
  | Some (modport, diags) =>
      match port with
      | ModportSimplePortList direction ports =>
          fold_left (addSimplePort context direction) ports (Some (modport, diags))
      | ModportSubroutinePortList importExport ports =>
          let modport :=
            if isExport importExport
            then mkModport (modportName modport) (modportLocation modport) true
                   (members modport)
            else modport in
          Some (fold_left (addSubroutinePort context (isExport importExport))
                  ports (modport, diags))
      | ModportClockingPort syntax =>
          let '(mcs, ds) := fromClockingPort context syntax in
          Some (mkModport (modportName modport) (modportLocation modport)
                  (hasExports modport) (members modport ++ [ClockingMember mcs]),
                diags ++ ds)
      end
  end.

(** One item of the declaration on the modports built so far. *)
Definition addItem (context : ASTContext)
    (st : option (list ModportSymbol * list ModportDiagnostic))
    (item : ModportItemSyntax) : option (list ModportSymbol * list ModportDiagnostic) :=
  match st with
  | None => None
  | Some (results, diags) =>
      let modport :=
        mkModport (valueText (itemName item)) (location (itemName item)) false [] in
      match fold_left (addPorts context) (itemPorts item) (Some (modport, diags)) with
      | Some (modport, diags) => Some (results ++ [modport], diags)
      | None => None
      end
  end.

(** [ModportSymbol::fromSyntax]: the modports of a declaration and the
    diagnostics; [None] when the assertion of a named port fails. *)
Definition fromSyntax (context : ASTContext) (items : list ModportItemSyntax)
    : option (list ModportSymbol * list ModportDiagnostic) :=
  fold_left (addItem context) items (Some ([], [])).

(** *** The ports of an item, by kind *)

Inductive MemberKind := PortKind | MethodKind | ClockingKind.

Definition kindOfMember (m : Member) : MemberKind :=
  match m with
  | PortMember _ => PortKind
  | MethodMember _ => MethodKind
  | ClockingMember _ => ClockingKind
  end.

Definition kindsOf (port : ModportPortListSyntax) : list MemberKind :=
  match port with
  | ModportSimplePortList _ ports => map (fun _ => PortKind) ports
  | ModportSubroutinePortList _ ports => map (fun _ => MethodKind) ports
  | ModportClockingPort _ => [ClockingKind]
  end.

Definition exports (port : ModportPortListSyntax) : bool :=
  match port with
  | ModportSubroutinePortList k _ => isExport k
  | _ => false
  end.

Definition isRejection (d : ModportDiagnostic) : bool :=
  match d with
  | ExpectedImportExport _ _ _ | NotAllowedInModport _ _ _ => true
  | _ => false
  end.

End FromSyntax.

Arguments foundKind {SymbolKind}.
Arguments foundLocation {SymbolKind}.
Arguments hasDeclaredType {SymbolKind}.
Arguments ExpectedImportExport {Issued}.
Arguments NotAllowedInModport {Issued}.
Arguments NotAClockingBlock {Issued}.
Arguments InvalidRefArg {Issued}.
Arguments FromCallee {Issued}.
Arguments isRejection {Issued}.
Arguments ErrorType {SymbolKind}.
Arguments VoidType {SymbolKind}.
Arguments LinkedTo {SymbolKind}.
Arguments TypeOf {SymbolKind}.
Arguments portName {SymbolKind}.
Arguments portLocation {SymbolKind}.
Arguments direction {SymbolKind}.
Arguments internalSymbol {SymbolKind}.
Arguments explicitConnection {SymbolKind}.
Arguments portType {SymbolKind}.
Arguments modportName {SymbolKind MethodPrototypeSymbol}.
Arguments modportLocation {SymbolKind MethodPrototypeSymbol}.
Arguments hasExports {SymbolKind MethodPrototypeSymbol}.
Arguments members {SymbolKind MethodPrototypeSymbol}.
Arguments kindOfMember {SymbolKind MethodPrototypeSymbol}.
Arguments kindsOf {ModportSubroutinePortSyntax}.
Arguments exports {ModportSubroutinePortSyntax}.
Arguments itemName {ModportSubroutinePortSyntax}.
Arguments itemPorts {ModportSubroutinePortSyntax}.

End Modports.

(** ** Samples for the further properties *)

Module MoreSamples.

Import Primitives.

(** [$error(...)] at location 10. *)
Definition errorOf (args : list ElabSystemTasks.ArgumentSyntax)
    : ElabSystemTasks.ElabSystemTaskSymbol :=
  ElabSystemTasks.fromSyntax Samples.taskKindOf
    (ElabSystemTasks.mkElabSystemTaskSyntax (mkToken "$error" 10) (Some args)).

Definition message (t : ElabSystemTasks.ElabSystemTaskSymbol)
    : string * ElabSystemTasks.ElabSystemTaskSymbol * list Diagnostic :=
  ElabSystemTasks.getMessage Samples.simpleExpr Primitives.sampleBind Samples.accept
    Samples.accept Primitives.sampleEval Samples.acceptAll Samples.formatCount
    Samples.moduleBody t.

Definition unboundName : ElabSystemTasks.ArgumentSyntax :=
  ElabSystemTasks.OrderedArgument (IdentifierName (mkToken "nope" 28)).

(** An evaluation that finds no constant value. *)
Definition notConstant (context : ASTContext) (e : Expression) : EvalResult :=
  mkEvalResult e None [].

(** [primitive p(output q, input a); initial q = 2'b01; ...]: an initial
    statement in a primitive that is not sequential. *)
Definition initial_in_comb : UdpDeclarationSyntax :=
  mkUdpDeclaration (tk "p" 10)
    (AnsiUdpPortList
       [UdpOutputPortDecl
          (mkUdpOutputPortDecl (Some (tk "output" 12)) None (tk "q" 19) None (12, 20));
        UdpInputPortDecl (mkUdpInputPortDecl [tk "a" 28] (22, 29))])
    (mkUdpBody []
       (Some (mkUdpInitialStmt (tk "q" 40) (LiteralExpression (tk "2'b01" 44)) (32, 50)))).

(** [primitive p(output reg q = 1'b0, input a); initial q = 2'b01; ...]:
    an initial statement beside an inline initializer. *)
Definition inline_and_initial : UdpDeclarationSyntax :=
  mkUdpDeclaration (tk "p" 10)
    (AnsiUdpPortList
       [UdpOutputPortDecl
          (mkUdpOutputPortDecl (Some (tk "output" 12)) (Some (tk "reg" 19)) (tk "q" 23)
             (Some (LiteralExpression (tk "1'b0" 27))) (12, 31));
        UdpInputPortDecl (mkUdpInputPortDecl [tk "a" 40] (34, 41))])
    (mkUdpBody []
       (Some (mkUdpInitialStmt (tk "q" 52) (LiteralExpression (tk "2'b01" 56)) (44, 62)))).

(** The port list [(q, a, q)]. *)
Definition repeatedName : list Token := [tk "q" 12; tk "a" 15; tk "q" 18].

(** [primitive p(q, a); input b; output reg q; ...]: [b] is not a port
    and [a] has no declaration. *)
Definition strayInput : UdpBodySyntax :=
  mkUdpBody
    [UdpInputPortDecl (mkUdpInputPortDecl [tk "b" 26] (20, 27));
     UdpOutputPortDecl output_reg_q]
    None.

(** A skew binder that counts its calls: the skew is the text of its
    first token. *)
Definition countingSkew (syntax : ClockingBlocks.ClockingSkewSyntax) (context : ASTContext)
    (n : nat) : string * nat :=
  (valueText (ClockingBlocks.skewFirstToken syntax), S n).

Definition sampleBlock : ClockingBlocks.ClockingBlockSymbol (list string) :=
  fst (ClockingBlocks.fromSyntax string (list string) [] (fun x ms => ms ++ [x])
         (fun _ _ => []) (fun _ _ => []) Samples.moduleBody Samples.sampleClocking).

(** Two productions with a value and one without, and the rule
    [a b a v]. *)
Definition prodA : RandSeq.Production :=
  RandSeq.mkProduction "a" 100 1 (RandSeq.ValueType "int").
Definition prodB : RandSeq.Production :=
  RandSeq.mkProduction "b" 120 2 (RandSeq.ValueType "string").
Definition prodV : RandSeq.Production :=
  RandSeq.mkProduction "v" 140 3 RandSeq.VoidType.

Definition findSample (n : string) : option RandSeq.Found :=
  if bool_decide (n = "a") then Some (RandSeq.FoundProduction prodA)
  else if bool_decide (n = "b") then Some (RandSeq.FoundProduction prodB)
  else if bool_decide (n = "v") then Some (RandSeq.FoundProduction prodV)
  else if bool_decide (n = "w") then Some (RandSeq.FoundOther 160)
  else None.

Definition item (n : string) (loc : SourceLocation) : RandSeq.RsProdItemSyntax :=
  RandSeq.mkRsProdItem (mkToken n loc) [] (loc, loc + String.length n).

Definition rule_abav : RandSeq.RsRuleSyntax :=
  RandSeq.mkRsRule None
    [RandSeq.RsProdItem (item "a" 200); RandSeq.RsProdItem (item "b" 202);
     RandSeq.RsProdItem (item "a" 204); RandSeq.RsProdItem (item "v" 206)]
    None (mkToken "a" 200).

(** Binders for a case production: an argument list binds to nothing, and
    a membership expression to a literal for each syntax. *)
Definition noArgs (argList : list ExpressionSyntax) (prod : RandSeq.Production)
    (r : SourceRange) : list Expression * list RandSeq.RsDiagnostic := ([], []).

Definition literalOf (e : ExpressionSyntax) : Expression :=
  fst (Primitives.sampleBind e (mkASTContext Samples.moduleBody (LookupBefore 0) [])).

Definition bindAll (expr : ExpressionSyntax) (exprs : list ExpressionSyntax)
    : list Expression * list RandSeq.RsDiagnostic :=
  (map literalOf (expr :: exprs), []).

(** [case (1) 0, 1: a; 2: b; default: v; endcase] *)
Definition caseItems : list RandSeq.RsCaseItemSyntax :=
  [RandSeq.StandardRsCaseItem
     [LiteralExpression (mkToken "0" 310); LiteralExpression (mkToken "1" 313)]
     (item "a" 316);
   RandSeq.StandardRsCaseItem [LiteralExpression (mkToken "2" 320)] (item "b" 323);
   RandSeq.DefaultRsCaseItem (item "v" 335)].

(** [sequence s(local input int x, y, untyped z = 1, local output bit o);] *)
Definition intType : AssertionPorts.PortTypeSyntax :=
  AssertionPorts.mkPortType AssertionPorts.OtherType (mkToken "int" 24) (24, 27).
Definition noType (loc : SourceLocation) : AssertionPorts.PortTypeSyntax :=
  AssertionPorts.mkPortType (AssertionPorts.ImplicitTypeKind false false)
    (mkToken "" loc) (loc, loc).

Definition port_x : AssertionPorts.AssertionItemPortSyntax :=
  AssertionPorts.mkAssertionItemPort (Some (mkToken "local" 12))
    (Some (AssertionPorts.In, (18, 23))) intType (mkToken "x" 28) None None.
Definition port_y : AssertionPorts.AssertionItemPortSyntax :=
  AssertionPorts.mkAssertionItemPort None None (noType 31) (mkToken "y" 31) None None.
Definition port_z : AssertionPorts.AssertionItemPortSyntax :=
  AssertionPorts.mkAssertionItemPort None None
    (AssertionPorts.mkPortType AssertionPorts.Untyped (mkToken "untyped" 34) (34, 41))
    (mkToken "z" 42) None (Some (LiteralExpression (mkToken "1" 46), (46, 47))).

(** The rule [{ ... } a := 2 { ... }] in a rule block with the statement
    blocks [b0] and [b1]. *)
Definition rule_block_a : RandSeq.RsRuleSyntax :=
  RandSeq.mkRsRule None
    [RandSeq.RsCodeBlock; RandSeq.RsProdItem (item "a" 410)]
    (Some (RandSeq.mkRsWeightClause (LiteralExpression (mkToken "2" 415)) true))
    (mkToken "{" 400).

Definition ruleOf (syntax : RandSeq.RsRuleSyntax) (blocks : list string)
    : option (RandSeq.Rule string * list RandSeq.RsDiagnostic) :=
  RandSeq.createRule (fun n _ => findSample n) noArgs bindAll string
    (fun e => (literalOf e, [])) (fun _ => []) (fun _ => []) (fun _ => true)
    (fun _ => "int") (fun _ => []) syntax blocks.

(** Packages: the compilation has the package [p], which has the member
    [T]; the import [import p::T;] stands in a block inside the package
    [outer]. *)
Definition packageNamed (n : string) : option string :=
  if bool_decide (n = "p") then Some "p" else None.

Definition memberOf (pkg n : string) : option string :=
  if bool_decide (n = "T") then Some (String.append pkg "::T") else None.

Definition insideOuter : Imports.ScopeChain string :=
  Imports.Within string (Imports.OtherScope string)
    (Imports.Outermost string (Imports.PackageScope string "outer")).

Definition import_p_T : Imports.ExplicitImportSymbol string string :=
  Imports.mkExplicitImport string string "p" "T" 30
    (Some (Imports.mkPackageImportItem (mkToken "p" 37) (mkToken "T" 40)))
    (Some insideOuter) false None None.

Definition import_q_all : Imports.WildcardImportSymbol string :=
  Imports.mkWildcardImport string "q" 50
    (Some (Imports.mkPackageImportItem (mkToken "q" 57) (mkToken "*" 60)))
    (Some insideOuter) None.

(** [input x, y;] in a function. *)
Definition input_x_y : FormalArguments.PortDeclarationSyntax :=
  FormalArguments.mkPortDeclaration
    (FormalArguments.VariablePortHeader None FormalArguments.In None ImplicitType)
    [VariableSymbols.mkDeclarator (mkToken "x" 70) None;
     VariableSymbols.mkDeclarator (mkToken "y" 73) None].

Definition functionScope : Scope := mkScope (Subroutine Automatic).

(** [inout #1 clk, f;] in a clocking block at 90 whose parent declares the
    net [clk] and the function [f]. *)
Definition textSkew (syntax : ClockingBlocks.ClockingSkewSyntax) (context : ASTContext)
    : string * list Diagnostic :=
  (valueText (ClockingBlocks.skewFirstToken syntax), []).

Definition signalNamed (scope : Scope) (n : string) (ll : LookupLocation)
    (r : SourceRange) : option ClockVars.FoundSymbol :=
  if bool_decide (n = "clk") then Some (ClockVars.mkFoundSymbol "clk" ClockVars.NetKind 5)
  else if bool_decide (n = "f") then Some (ClockVars.mkFoundSymbol "f" ClockVars.OtherKind 7)
  else None.

Definition valueOf (context : ASTContext) (s : ClockVars.FoundSymbol) (r : SourceRange)
    : Expression * list Diagnostic :=
  (mkExpression IntegerLiteral false 1 false None None r None, []).

Definition inout_clk_f : ClockVars.ClockingItemSyntax :=
  ClockVars.mkClockingItem
    (ClockVars.mkClockingDirection (Some ClockVars.InOutKeyword)
       (Some (Samples.skew "#1" 101)) None None)
    [ClockVars.mkAttributeSpec (mkToken "clk" 104) None;
     ClockVars.mkAttributeSpec (mkToken "f" 109) None].

Definition clockSignals : option (ClockVars.Signals string Diagnostic) :=
  ClockVars.fromSyntax string "" Diagnostic textSkew Primitives.sampleBind
    (fun _ _ _ => []) signalNamed valueOf (Some Samples.moduleBody) 90 inout_clk_f.

(** A modport port [input f] in an interface where [f] is a function,
    [clk] a net, and [g] a symbol of the kind of a net for which
    [getDeclaredType] is null. *)
Inductive SampleKind := SubroutineSymbol | NetSymbol | ClockingBlockSymbol | ModuleSymbol.

Definition modportLookup (scope : Scope) (n : string) (ll : LookupLocation)
    (r : SourceRange) : option (Modports.FoundSymbol SampleKind) :=
  if bool_decide (n = "f")
  then Some (Modports.mkFoundSymbol SampleKind SubroutineSymbol 7 false)
  else if bool_decide (n = "clk")
  then Some (Modports.mkFoundSymbol SampleKind NetSymbol 5 true)
  else if bool_decide (n = "g")
  then Some (Modports.mkFoundSymbol SampleKind NetSymbol 9 false)
  else None.

Definition namedPort (n : string) (loc : SourceLocation)
    : option (Modports.ModportPortSymbol SampleKind *
              list (Modports.ModportDiagnostic Diagnostic)) :=
  Modports.fromNamedPort SampleKind
    (fun k => match k with SubroutineSymbol => true | _ => false end)
    (fun k => match k with NetSymbol => true | _ => false end)
    Diagnostic modportLookup
    (fun context s r => (mkExpression IntegerLiteral false 1 false None None r None, []))
    (fun _ _ _ _ => []) (fun _ => true)
    (mkASTContext Samples.moduleBody LookupMax []) Modports.In
    (Modports.mkModportNamedPort (mkToken n loc)).

End MoreSamples.

(** * Properties *)

Lemma withCode_app c ds1 ds2 :
  withCode c (ds1 ++ ds2) = withCode c ds1 ++ withCode c ds2.
Proof. apply List.filter_app. Qed.

Lemma withCode_nil c : withCode c [] = [].
Proof. reflexivity. Qed.

Lemma withCode_other c c' (f : SourceRange -> Diagnostic) (rs : list SourceRange) :
  (forall r, code (f r) = c') -> c' <> c -> withCode c (map f rs) = [].
Proof.
  intros Hf Hne. induction rs as [|r rs IH]; [reflexivity|].
  cbn. unfold hasCode. rewrite Hf.
  rewrite bool_decide_eq_false_2 by exact Hne. exact IH.
Qed.

Lemma withCode_same c (f : SourceRange -> Diagnostic) (rs : list SourceRange) :
  (forall r, code (f r) = c) -> withCode c (map f rs) = map f rs.
Proof.
  intros Hf. induction rs as [|r rs IH]; [reflexivity|].
  cbn. unfold hasCode. rewrite Hf.
  rewrite bool_decide_eq_true_2 by reflexivity. f_equal. exact IH.
Qed.

(** ** Lifetimes of declared variables *)

Section VariableFacts.

Import VariableSymbols.

Variable isProceduralContext : Scope -> bool.

(** The modifier loop: the last lifetime keyword decides, and every
    [automatic] outside a procedural context is diagnosed. *)
Lemma modifier_loop inProc ms st :
  let r := fold_left (modifierStep inProc) ms st in
  msLifetime r =
    match last (List.filter isLifetimeKeyword ms) with
    | Some m => Some (keywordLifetime inProc m)
    | None => msLifetime st
    end /\
  msDiags r = msDiags st ++ (if inProc then [] else automaticNotAllowed ms).
Proof.
  induction ms as [|m ms IH] using rev_ind; cbn.
  - split; [reflexivity|]. destruct inProc; cbn; now rewrite app_nil_r.
  - rewrite fold_left_app. cbn [fold_left]. destruct IH as [IHl IHd].
    set (r0 := fold_left (modifierStep inProc) ms st) in *.
    unfold automaticNotAllowed in *.
    rewrite !List.filter_app. cbn [List.filter].
    unfold modifierStep, isLifetimeKeyword, isAutomaticKeyword, keywordLifetime.
    unfold isAutomaticKeyword.
    destruct (modKind m) eqn:Hk; cbn.
    + rewrite !app_nil_r. split; assumption.
    + rewrite !app_nil_r. split; assumption.
    + rewrite last_snoc. rewrite Hk. cbn. rewrite app_nil_r. split; [reflexivity|assumption].
    + rewrite last_snoc. rewrite Hk. cbn.
      destruct inProc; cbn.
      * split; [reflexivity|assumption].
      * split; [reflexivity|]. rewrite IHd. rewrite map_app. cbn.
        now rewrite app_assoc.
Qed.

Lemma explicit_lifetime_iff inProc ms :
  is_Some (msLifetime (fold_left (modifierStep inProc) ms (mkModState false None [])))
  <-> existsb isLifetimeKeyword ms = true.
Proof.
  destruct (modifier_loop inProc ms (mkModState false None [])) as [Hl _].
  cbn in Hl. rewrite Hl. clear Hl.
  destruct (last (List.filter isLifetimeKeyword ms)) as [m|] eqn:Hlast.
  - split; [intros _|intros _; eexists; reflexivity].
    apply existsb_exists. exists m.
    apply last_Some in Hlast as [l' Hl'].
    assert (Hin : List.In m (List.filter isLifetimeKeyword ms)).
    { rewrite Hl'. apply in_or_app. right. now left. }
    apply List.filter_In in Hin. exact Hin.
  - split; [intros [? [=]]|].
    intros Hex. apply existsb_exists in Hex as [m [Hin Hm]].
    apply last_None in Hlast.
    assert (Hin' : List.In m (List.filter isLifetimeKeyword ms))
      by (apply List.filter_In; split; assumption).
    rewrite Hlast in Hin'. destruct Hin'.
Qed.

Lemma modifier_diags_code inProc ms c :
  c <> AutomaticNotAllowed ->
  withCode c (msDiags (fold_left (modifierStep inProc) ms (mkModState false None []))) = [].
Proof.
  intros Hc.
  destruct (modifier_loop inProc ms (mkModState false None [])) as [_ Hd].
  cbn in Hd. rewrite Hd. destruct inProc; [reflexivity|].
  unfold automaticNotAllowed.
  generalize (List.filter isAutomaticKeyword ms). intros l.
  induction l as [|m l IH]; [reflexivity|].
  cbn. unfold hasCode. cbn.
  rewrite bool_decide_eq_false_2 by congruence. exact IH.
Qed.

(** The declarator loop with respect to one diagnostic code. *)
Lemma declarator_diags_static scope syntax isConst explicit lt ds :
  withCode StaticInitializerMustBeExplicit
    (concat (map snd (map (declaratorStep isProceduralContext scope syntax isConst explicit lt) ds))) =
  if bool_decide (lt = Static) && negb explicit && isProceduralContext scope
  then map (fun d => diagOver StaticInitializerMustBeExplicit (range (name d)))
         (List.filter hasInitializer ds)
  else [].
Proof.
  induction ds as [|d ds IH]; cbn [map concat List.filter].
  - now destruct (_ && _).
  - rewrite withCode_app, IH. unfold declaratorStep. cbn [snd].
    destruct (bool_decide (lt = Static)), explicit, (hasInitializer d),
      (isProceduralContext scope), isConst; cbn; reflexivity.
Qed.

Lemma declarator_diags_automatic scope syntax isConst explicit lt ds :
  withCode AutomaticNotAllowed
    (concat (map snd (map (declaratorStep isProceduralContext scope syntax isConst explicit lt) ds))) = [].
Proof.
  induction ds as [|d ds IH]; cbn [map concat]; [reflexivity|].
  rewrite withCode_app, IH. unfold declaratorStep. cbn [snd].
  destruct (bool_decide (lt = Static)), explicit, (hasInitializer d),
    (isProceduralContext scope), isConst; cbn; reflexivity.
Qed.

Lemma results_lifetime syntax scope :
  Forall (fun v => Some (lifetime v) =
            match msLifetime (fold_left (modifierStep (isProceduralContext scope))
                                (modifiers syntax) (mkModState false None [])) with
            | Some l => Some l
            | None => Some (getDefaultLifetime scope)
            end)
    (results (fromSyntax isProceduralContext syntax scope)).
Proof.
  unfold fromSyntax. cbn.
  set (st := fold_left _ _ _).
  apply Forall_forall. intros v Hin.
  rewrite list_elem_of_In in Hin.
  rewrite map_map in Hin. apply in_map_iff in Hin as [d [<- _]].
  cbn. now destruct (msLifetime st).
Qed.

(** C4.  The [StaticInitializerMustBeExplicit] diagnostics of a data
    declaration are exactly one for every declarator that has an
    initializer, on the range of its name, when the scope is procedural, the
    declaration carries no lifetime keyword and the default lifetime of the
    scope is static; in every other case (a lifetime keyword is present,
    also an [automatic] that was demoted, or the declarator has no
    initializer) there is none. *)
Theorem static_initializer_must_be_explicit syntax scope :
  withCode StaticInitializerMustBeExplicit
    (diags (fromSyntax isProceduralContext syntax scope)) =
  if isProceduralContext scope && negb (hasLifetimeKeyword syntax) &&
     bool_decide (getDefaultLifetime scope = Static)
  then map (fun d => diagOver StaticInitializerMustBeExplicit (range (name d)))
         (List.filter hasInitializer (declarators syntax))
  else [].
Proof.
  unfold fromSyntax. cbn [diags].
  rewrite withCode_app, modifier_diags_code by discriminate. cbn [app].
  rewrite declarator_diags_static.
  pose proof (explicit_lifetime_iff (isProceduralContext scope) (modifiers syntax)) as Hex.
  unfold hasLifetimeKeyword.
  destruct (msLifetime _) as [l|] eqn:Hl.
  - rewrite (bool_decide_eq_true_2 (is_Some (Some l))) by (eexists; reflexivity).
    assert (existsb isLifetimeKeyword (modifiers syntax) = true) as ->
      by (apply Hex; eexists; reflexivity).
    cbn [negb]. rewrite andb_false_r. cbn [andb]. now rewrite andb_false_r.
  - rewrite (bool_decide_eq_false_2 (is_Some None)) by (intros [? [=]]).
    destruct (existsb isLifetimeKeyword (modifiers syntax)) eqn:He.
    { destruct Hex as [_ Hex]. destruct (Hex eq_refl) as [? [=]]. }
    cbn [negb]. rewrite !andb_true_r.
    destruct (bool_decide (getDefaultLifetime scope = Static)),
      (isProceduralContext scope); reflexivity.
Qed.

(** C5, as amended.  For a data declaration that carries [automatic]:
    outside a procedural context every [automatic] keyword is diagnosed
    with [AutomaticNotAllowed] (so there is at least one) and every variable
    created is static; in a procedural context there is no such diagnostic,
    and the variables are automatic when [automatic] is the last lifetime
    keyword of the declaration. *)
Theorem automatic_modifier_lifetime syntax scope :
  carriesAutomatic syntax = true ->
  (isProceduralContext scope = false ->
     withCode AutomaticNotAllowed (diags (fromSyntax isProceduralContext syntax scope)) =
       automaticNotAllowed (modifiers syntax) /\
     automaticNotAllowed (modifiers syntax) <> [] /\
     Forall (fun v => lifetime v = Static)
       (results (fromSyntax isProceduralContext syntax scope))) /\
  (isProceduralContext scope = true ->
     withCode AutomaticNotAllowed (diags (fromSyntax isProceduralContext syntax scope)) = [] /\
     (lastLifetimeKeyword syntax = Some AutomaticKeyword ->
      Forall (fun v => lifetime v = Automatic)
        (results (fromSyntax isProceduralContext syntax scope)))).
Proof.
  intros Hauto.
  pose proof (results_lifetime syntax scope) as Hres.
  destruct (modifier_loop (isProceduralContext scope) (modifiers syntax)
              (mkModState false None [])) as [Hl Hd].
  cbn in Hl, Hd.
  assert (Hdiags : withCode AutomaticNotAllowed
            (diags (fromSyntax isProceduralContext syntax scope)) =
          if isProceduralContext scope then [] else automaticNotAllowed (modifiers syntax)).
  { unfold fromSyntax. cbn [diags].
    rewrite withCode_app, declarator_diags_automatic, app_nil_r.
    rewrite Hd. destruct (isProceduralContext scope); [reflexivity|].
    unfold automaticNotAllowed. cbn [app].
    pose proof (withCode_same AutomaticNotAllowed
                  (fun r => diagOver AutomaticNotAllowed r)
                  (map modRange (List.filter isAutomaticKeyword (modifiers syntax)))
                  (fun _ => eq_refl)) as H.
    rewrite !map_map in H. exact H. }
  unfold carriesAutomatic in Hauto. apply existsb_exists in Hauto as [m [Hin Hm]].
  split; intros Hproc; rewrite Hproc in *.
  - split; [exact Hdiags|]. split.
    + unfold automaticNotAllowed.
      assert (Hin' : List.In m (List.filter isAutomaticKeyword (modifiers syntax)))
        by (apply List.filter_In; split; assumption).
      destruct (List.filter isAutomaticKeyword (modifiers syntax)); [destruct Hin'|discriminate].
    + rewrite Hl in Hres.
      destruct (last (List.filter isLifetimeKeyword (modifiers syntax))) as [k|] eqn:Hlast.
      * eapply Forall_impl; [exact Hres|]. cbn. intros v Hv.
        unfold keywordLifetime in Hv. rewrite andb_false_r in Hv. congruence.
      * apply last_None in Hlast.
        assert (Hin' : List.In m (List.filter isLifetimeKeyword (modifiers syntax))).
        { apply List.filter_In; split; [assumption|].
          unfold isAutomaticKeyword in Hm. apply bool_decide_eq_true_1 in Hm.
          unfold isLifetimeKeyword. now rewrite Hm. }
        rewrite Hlast in Hin'. destruct Hin'.
  - split; [exact Hdiags|]. intros Hlast.
    unfold lastLifetimeKeyword in Hlast. rewrite Hl in Hres.
    destruct (last (List.filter isLifetimeKeyword (modifiers syntax))) as [k|]; [|discriminate].
    cbn in Hlast. injection Hlast as Hk.
    eapply Forall_impl; [exact Hres|]. cbn. intros v Hv.
    unfold keywordLifetime, isAutomaticKeyword in Hv.
    rewrite bool_decide_eq_true_2 in Hv by exact Hk. cbn in Hv. congruence.
Qed.

End VariableFacts.

Lemma automatic_modifier_lifetime_witness :
  (withCode AutomaticNotAllowed
     (VariableSymbols.diags
        (VariableSymbols.fromSyntax proceduralKinds VariableSymbols.decl_automatic_int_x
           VariableSymbols.moduleScope)) =
     [diagOver AutomaticNotAllowed (0, 9)] /\
   Forall (fun v => VariableSymbols.lifetime v = Static)
     (VariableSymbols.results
        (VariableSymbols.fromSyntax proceduralKinds VariableSymbols.decl_automatic_int_x
           VariableSymbols.moduleScope))) /\
  (withCode AutomaticNotAllowed
     (VariableSymbols.diags
        (VariableSymbols.fromSyntax proceduralKinds VariableSymbols.decl_automatic_int_x
           VariableSymbols.blockScope)) = [] /\
   Forall (fun v => VariableSymbols.lifetime v = Automatic)
     (VariableSymbols.results
        (VariableSymbols.fromSyntax proceduralKinds VariableSymbols.decl_automatic_int_x
           VariableSymbols.blockScope))).
Proof.
  split.
  - destruct (proj1 (automatic_modifier_lifetime proceduralKinds
                       VariableSymbols.decl_automatic_int_x VariableSymbols.moduleScope
                       eq_refl) eq_refl) as [H1 [_ H3]].
    split; [exact H1 | exact H3].
  - destruct (proj2 (automatic_modifier_lifetime proceduralKinds
                       VariableSymbols.decl_automatic_int_x VariableSymbols.blockScope
                       eq_refl) eq_refl) as [H1 H2].
    split; [exact H1 | exact (H2 eq_refl)].
Defined.

(** In a procedural block, [automatic static int x;] carries the
    [automatic] modifier and yet declares a static variable: the later
    keyword overwrites the lifetime. *)
Lemma automatic_then_static_is_static :
  VariableSymbols.carriesAutomatic VariableSymbols.decl_automatic_static_int_x = true /\
  proceduralKinds VariableSymbols.automaticBlockScope = true /\
  ~ Forall (fun v => VariableSymbols.lifetime v = Automatic)
      (VariableSymbols.results
         (VariableSymbols.fromSyntax proceduralKinds
            VariableSymbols.decl_automatic_static_int_x
            VariableSymbols.automaticBlockScope)).
Proof.
  split; [reflexivity|]. split; [reflexivity|].
  intros H. apply Forall_inv in H. discriminate H.
Qed.

(** The declaration [int x = 1;] in a block whose default lifetime is
    static is diagnosed on the name [x]. *)
Example static_initializer_in_block :
  withCode StaticInitializerMustBeExplicit
    (VariableSymbols.diags
       (VariableSymbols.fromSyntax proceduralKinds VariableSymbols.decl_int_x_init
          VariableSymbols.blockScope)) =
  [diagOver StaticInitializerMustBeExplicit (4, 5)].
Proof. reflexivity. Qed.

(** ** Implicit nets of continuous assignments *)

Section ContinuousAssignFacts.

Import Scopes ContinuousAssign.

Lemma fromSyntax_loop (f : ExpressionSyntax -> ElabContext -> list Token)
    context nt exprs results nets :
  fold_left
    (fun '(results, implicitNets) expr =>
       (results ++ [newFromSyntax expr],
        implicitNets ++ implicitNetsOf f context nt expr))
    exprs (results, nets) =
  (results ++ map newFromSyntax exprs,
   nets ++ flat_map (implicitNetsOf f context nt) exprs).
Proof.
  revert results nets.
  induction exprs as [|e exprs IH]; intros results nets; cbn [fold_left map flat_map].
  - now rewrite !app_nil_r.
  - rewrite IH. now rewrite <- !app_assoc.
Qed.

Lemma fromSyntax_unfold (f : ExpressionSyntax -> ElabContext -> list Token)
    syntax context :
  fromSyntax f syntax context =
  (map newFromSyntax (assignments syntax),
   flat_map (implicitNetsOf f (resetFlags context NonProcedural)
               (getDefaultNetType (scope context)))
     (assignments syntax)).
Proof. unfold fromSyntax. now rewrite fromSyntax_loop. Qed.

Lemma addMember_fold {A} (f : A -> Symbol) (l : list A) (s : ScopeState) :
  members (fold_left (fun s x => addMember (f x) s) l s) =
    members s ++ map (fun x => setParent (thisScope s) (f x)) l /\
  thisScope (fold_left (fun s x => addMember (f x) s) l s) = thisScope s.
Proof.
  revert s. induction l as [|x l IH]; intros s; cbn [fold_left map].
  - now rewrite app_nil_r.
  - destruct (IH (addMember (f x) s)) as [Hm Ht]. rewrite Hm, Ht.
    destruct s as [t nt ms p]. cbn. now rewrite <- app_assoc.
Qed.

(** C1.  When the default net type of the scope is not [none], the implicit
    nets of a continuous assignment are, in source order, exactly one net
    for every bare identifier on a left-hand side that does not resolve in
    the scope and none for one that resolves; each of them is an implicit
    net of the default net type with type logic, named and located by its
    identifier; there is one assignment symbol per item; and the nets,
    followed by the assignment symbols, become members of the enclosing
    scope.  Seed scenario 1 elaborates with no diagnostics into a scope
    with the one declared net [foo] and two continuous-assign symbols. *)
Theorem implicit_nets_of_continuous_assign syntax (s : ScopeState) ds :
  NetSymbols.isError (getDefaultNetType s) = false ->
  let context := mkElabContext s [] in
  let nt := getDefaultNetType s in
  let results := fst (fromSyntax findPotentiallyImplicitNets syntax context) in
  let implicitNets := snd (fromSyntax findPotentiallyImplicitNets syntax context) in
  let unresolved := flat_map (unresolvedOnLeft context) (assignments syntax) in
  implicitNets = map (fun t => NetSymbols.createImplicit t nt) unresolved /\
  Forall (fun t => resolves context t = false) unresolved /\
  Forall (fun net => NetSymbols.declaredType net = NetSymbols.Resolved NetSymbols.LogicType /\
                     NetSymbols.isImplicit net = true /\
                     NetSymbols.netType net = nt) implicitNets /\
  results = map newFromSyntax (assignments syntax) /\
  members (fst (addMembers (ContinuousAssignMember syntax) (s, ds))) =
    members s ++
    map (fun net => setParent (thisScope s) (NetSym net)) implicitNets ++
    map (fun a => setParent (thisScope s) (ContinuousAssignSym a)) results /\
  (let m := elaborate seed1 (emptyModule wireType) in
   snd m = [] /\
   map symbolName (List.filter isNet (members (fst m))) = ["foo"] /\
   Forall (fun sym => match sym with
                      | NetSym net => NetSymbols.isImplicit net = false
                      | _ => True
                      end) (members (fst m)) /\
   length (List.filter isContinuousAssign (members (fst m))) = 2).
Proof.
  intros Hnt context nt results implicitNets unresolved.
  assert (Hnets : implicitNets = map (fun t => NetSymbols.createImplicit t nt) unresolved).
  { subst implicitNets unresolved. rewrite fromSyntax_unfold. cbn [snd].
    generalize (assignments syntax). intros exprs.
    induction exprs as [|e exprs IH]; [reflexivity|].
    cbn [flat_map]. rewrite map_app, IH. f_equal.
    unfold implicitNetsOf, unresolvedOnLeft. subst nt context.
    cbn [scope resetFlags]. rewrite Hnt. cbn [negb].
    destruct (assignmentLeft e); reflexivity. }
  split; [exact Hnets|].
  split.
  { subst unresolved. apply Forall_forall. intros t Hin.
    rewrite list_elem_of_In in Hin. apply in_flat_map in Hin as [e [_ Hin]].
    unfold unresolvedOnLeft in Hin. destruct (assignmentLeft e); [|destruct Hin].
    apply List.filter_In in Hin as [_ Hin]. now apply negb_true_iff in Hin. }
  split.
  { rewrite Hnets. apply Forall_forall. intros net Hin.
    rewrite list_elem_of_In in Hin. apply in_map_iff in Hin as [t [<- _]].
    repeat split. }
  split.
  { subst results. now rewrite fromSyntax_unfold. }
  split.
  { unfold addMembers.
    destruct (fromSyntax findPotentiallyImplicitNets syntax (mkElabContext s []))
      as [rs ns] eqn:Hfs.
    subst results implicitNets context. rewrite Hfs. cbn [fst snd].
    destruct (addMember_fold NetSym ns s) as [Hm1 Ht1].
    destruct (addMember_fold ContinuousAssignSym rs
                (fold_left (fun s net => addMember (NetSym net) s) ns s)) as [Hm2 _].
    rewrite Hm2, Hm1, Ht1. now rewrite <- app_assoc. }
  vm_compute. repeat split; repeat constructor.
Qed.

End ContinuousAssignFacts.

(** In a module that declares [foo] only, [assign {bar, foo} = 2'b0]
    creates the one implicit net [bar]. *)
Lemma implicit_nets_of_continuous_assign_witness :
  let s := fst (ContinuousAssign.elaborate
                  [ContinuousAssign.NetDeclarationMember ContinuousAssign.wire_foo]
                  (ContinuousAssign.emptyModule ContinuousAssign.wireType)) in
  NetSymbols.isError (Scopes.getDefaultNetType s) = false /\
  snd (ContinuousAssign.fromSyntax Scopes.findPotentiallyImplicitNets
         ContinuousAssign.assign_bar_foo (Scopes.mkElabContext s [])) =
    [NetSymbols.createImplicit (mkToken "bar" 28) ContinuousAssign.wireType].
Proof.
  cbv zeta. split; [reflexivity|].
  exact (proj1 (implicit_nets_of_continuous_assign ContinuousAssign.assign_bar_foo
                  (fst (ContinuousAssign.elaborate
                          [ContinuousAssign.NetDeclarationMember ContinuousAssign.wire_foo]
                          (ContinuousAssign.emptyModule ContinuousAssign.wireType)))
                  [] eq_refl)).
Defined.

(** ** Lazily computed fields *)

Section MemoFacts.

Variable Compilation : Type.
Variable bind :
  ExpressionSyntax -> ASTContext -> list ASTFlags -> Compilation -> Expression * Compilation.
Variable bindTimingControl :
  TimingControlSyntax -> ASTContext -> Compilation -> TimingControl * Compilation.
Variable fromParams :
  list ExpressionSyntax -> ASTContext -> Compilation -> TimingControl * Compilation.

Local Abbreviation getAssignment := (ContinuousAssign.getAssignment Compilation bind).
Local Abbreviation getDelay := (NetSymbols.getDelay Compilation bindTimingControl fromParams).

(** A call of [getAssignment] that returns leaves the result in the cache. *)
Lemma getAssignment_caches sym comp e sym' comp' :
  getAssignment sym comp = Some (e, sym', comp') -> Scopes.assign sym' = Some e.
Proof.
  unfold ContinuousAssign.getAssignment. intros H.
  destruct (Scopes.assign sym) as [e0|] eqn:Ha.
  - injection H as <- <- <-. exact Ha.
  - destruct (Scopes.getParentScope sym); [|discriminate].
    destruct (Scopes.getSyntax sym); [|discriminate].
    destruct (bind _ _ _ _). injection H as <- <- <-. reflexivity.
Qed.

(** With the cache filled the binder is not consulted. *)
Lemma getAssignment_cached sym e comp :
  Scopes.assign sym = Some e -> getAssignment sym comp = Some (e, sym, comp).
Proof. unfold ContinuousAssign.getAssignment. now intros ->. Qed.

Lemma getDelay_caches net comp :
  NetSymbols.delay (snd (fst (getDelay net comp))) = Some (fst (fst (getDelay net comp))).
Proof.
  unfold NetSymbols.getDelay.
  destruct (NetSymbols.delay net) as [d|] eqn:Hd; [exact Hd|].
  destruct (NetSymbols.getParentScope net); [|reflexivity].
  destruct (NetSymbols.getSyntax net) as [[nm [parentNode|]]|]; try reflexivity.
  destruct parentNode as [[delaySyntax|]|ty|]; try reflexivity.
  - destruct (bindTimingControl _ _ _). reflexivity.
  - destruct ty as [| |[|id params]]; try reflexivity.
    destruct (fromParams _ _ _). reflexivity.
Qed.

Lemma getDelay_cached net d comp :
  NetSymbols.delay net = Some d -> getDelay net comp = (d, net, comp).
Proof. unfold NetSymbols.getDelay. now intros ->. Qed.

(** C8.  [getAssignment] of a symbol that has a parent scope and a syntax
    (or is bound already) returns; on a symbol not yet bound the first call
    returns what the binder gives for the syntax of the symbol; and once a
    call has returned an expression, every later call, in whatever state
    the compilation is, returns that same expression and changes nothing.
    Likewise the value of the first [getDelay] of a net is what every later
    call returns, with no further binding. *)
Theorem lazy_fields_are_memoized :
  (forall sym comp scope syntax,
     Scopes.getParentScope sym = Some scope ->
     Scopes.getSyntax sym = Some syntax ->
     exists e sym' comp',
       getAssignment sym comp = Some (e, sym', comp') /\
       (Scopes.assign sym = None ->
        (e, comp') =
          bind syntax (mkASTContext scope (LookupAfter (Scopes.assignLocation sym))
                         [NonProcedural]) [AssignmentAllowed] comp)) /\
  (forall sym comp e sym' comp',
     getAssignment sym comp = Some (e, sym', comp') ->
     forall later, getAssignment sym' later = Some (e, sym', later)) /\
  (forall net comp later,
     getDelay (snd (fst (getDelay net comp))) later =
       (fst (fst (getDelay net comp)), snd (fst (getDelay net comp)), later)).
Proof.
  split; [|split].
  - intros sym comp scope syntax Hs Hx.
    unfold ContinuousAssign.getAssignment. rewrite Hs, Hx.
    destruct (Scopes.assign sym) as [e0|].
    + exists e0, sym, comp. split; [reflexivity|discriminate].
    + destruct (bind syntax _ _ comp) as [e comp'] eqn:Hb.
      eexists e, _, comp'. split; [reflexivity|]. intros _. reflexivity.
  - intros sym comp e sym' comp' H later.
    apply getAssignment_cached. eapply getAssignment_caches; exact H.
  - intros net comp later. apply getDelay_cached, getDelay_caches.
Qed.

End MemoFacts.

(** With a binder that numbers its results, the second call still returns
    the first expression although the compilation has moved on. *)
Lemma lazy_fields_are_memoized_witness :
  (exists e sym' comp',
     ContinuousAssign.getAssignment nat Samples.countingBind Samples.assignFoo 0 =
       Some (e, sym', comp') /\
     (Scopes.assign Samples.assignFoo = None ->
      (e, comp') =
        Samples.countingBind
          (BinaryExpression AssignmentExpression (IdentifierName (mkToken "foo" 27))
             (mkToken "=" 31) (LiteralExpression (mkToken "1" 33)))
          (mkASTContext Samples.moduleBody (LookupAfter 27) [NonProcedural])
          [AssignmentAllowed] 0)) /\
  (forall later,
     ContinuousAssign.getAssignment nat Samples.countingBind
       (Scopes.mkContinuousAssignSymbol 27 (Scopes.getSyntax Samples.assignFoo)
          (Some Samples.moduleBody)
          (Some (mkExpression Assignment false 1 false None None (0, 0) None)))
       later =
     Some (mkExpression Assignment false 1 false None None (0, 0) None,
           Scopes.mkContinuousAssignSymbol 27 (Scopes.getSyntax Samples.assignFoo)
             (Some Samples.moduleBody)
             (Some (mkExpression Assignment false 1 false None None (0, 0) None)),
           later)).
Proof.
  pose proof (lazy_fields_are_memoized nat Samples.countingBind Samples.countingTiming
                Samples.countingParams) as [Hfirst [Hlater _]].
  split.
  - exact (Hfirst Samples.assignFoo 0 Samples.moduleBody _ eq_refl eq_refl).
  - exact (Hlater Samples.assignFoo 0 _ _ _ eq_refl).
Defined.

(** The delay of [wire #5 w] is bound once: the second call returns the
    control numbered 0 and leaves the compilation where it was. *)
Example getDelay_twice :
  let first := NetSymbols.getDelay nat Samples.countingTiming Samples.countingParams
                 Samples.delayedWire 0 in
  fst (fst first) = Some (mkTimingControl Delay (0, 0)) /\
  snd first = 1 /\
  NetSymbols.getDelay nat Samples.countingTiming Samples.countingParams
    (snd (fst first)) 7 =
  (Some (mkTimingControl Delay (0, 0)), snd (fst first), 7).
Proof. repeat split. Qed.

(** ** Elaboration-time static assertions *)

Section StaticAssertFacts.

Import ElabSystemTasks.

Variable requireSimpleExpr :
  ASTContext -> ExpressionSyntax -> option ExpressionSyntax * list Diagnostic.
Variable bind : ExpressionSyntax -> ASTContext -> Expression * list Diagnostic.
Variable checkFinishNum : ASTContext -> Expression -> bool * list Diagnostic.
Variable requireBooleanConvertible : ASTContext -> Expression -> bool * list Diagnostic.
Variable eval : ASTContext -> Expression -> EvalResult.
Variable checkDisplayArgs : ASTContext -> list Expression -> bool * list Diagnostic.
Variable formatDisplay : Scope -> list Expression -> option string * list Diagnostic.
Variable isTrue : ConstantValue -> bool.
Variable constantToString : ConstantValue -> string.

Local Abbreviation bindArguments := (ElabSystemTasks.bindArguments requireSimpleExpr bind).
Local Abbreviation createMessage :=
  (ElabSystemTasks.createMessage checkDisplayArgs formatDisplay).
Local Abbreviation getMessage :=
  (ElabSystemTasks.getMessage requireSimpleExpr bind checkFinishNum
     requireBooleanConvertible eval checkDisplayArgs formatDisplay).
Local Abbreviation issueDiagnostic :=
  (ElabSystemTasks.issueDiagnostic requireSimpleExpr bind checkFinishNum
     requireBooleanConvertible eval checkDisplayArgs formatDisplay isTrue
     constantToString).
Local Abbreviation staticAssertDiagnostic :=
  (ElabSystemTasks.staticAssertDiagnostic constantToString).

(** [getMessage] fills the caches and leaves kind and location alone. *)
Lemma getMessage_preserves scope t :
  taskKind (snd (fst (getMessage scope t))) = taskKind t /\
  taskLocation (snd (fst (getMessage scope t))) = taskLocation t.
Proof.
  unfold ElabSystemTasks.getMessage.
  repeat match goal with
         | |- context [match ?x with _ => _ end] => destruct x eqn:?
         end; cbn [fst snd taskKind taskLocation setMessage setAssertCondition];
    split; congruence.
Qed.

(** A diagnostic of a failed assertion has the code [StaticAssert], the
    location it is given and the message as its one argument. *)
Lemma staticAssertDiagnostic_shape loc msg condition d :
  staticAssertDiagnostic loc msg condition = Some d ->
  code d = StaticAssert /\ diagLocation d = loc /\ args d = [msg].
Proof.
  unfold ElabSystemTasks.staticAssertDiagnostic, reduceComparison.
  repeat match goal with
         | |- context [match ?x with _ => _ end] => destruct x
         end; intros [= <-]; repeat split.
Qed.

(** The assertions of [reduceComparison] fail on a comparison that has no
    syntax or an operand without a constant, and only there. *)
Lemma staticAssertDiagnostic_fails loc msg c :
  staticAssertDiagnostic loc msg (Some c) = None <->
  exists info,
    exprKind c = BinaryOp /\ binaryInfo c = Some info /\
    isComparison (op info) = true /\
    (binaryOperatorToken info = None \/ leftConstant info = None \/
     rightConstant info = None).
Proof.
  unfold ElabSystemTasks.staticAssertDiagnostic, reduceComparison. split.
  - destruct (exprKind c) eqn:Hk; try discriminate.
    destruct (binaryInfo c) as [info|] eqn:Hi; [|discriminate].
    destruct (isComparison (op info)) eqn:Hc; [|discriminate].
    intros H. exists info. repeat split; try assumption.
    destruct (binaryOperatorToken info); [|now left].
    destruct (leftConstant info); [|right; now left].
    destruct (rightConstant info); [discriminate|right; now right].
  - intros (info & -> & -> & -> & [-> | [H | H]]); [reflexivity| |].
    + destruct (binaryOperatorToken info); [|reflexivity]. now rewrite H.
    + destruct (binaryOperatorToken info); [|reflexivity]. rewrite H.
      now destruct (leftConstant info).
Qed.

(** The message [createMessage] builds from the arguments to format. *)
Lemma createMessage_message context args :
  fst (createMessage context args) =
  if fst (checkDisplayArgs context args) then
    match fst (formatDisplay (contextScope context) args) with
    | Some s => if bool_decide (s = "") then "" else String.append ": " s
    | None => ""
    end
  else "".
Proof.
  unfold ElabSystemTasks.createMessage.
  destruct (checkDisplayArgs context args) as [[|] ds1]; cbn [negb fst]; [|reflexivity].
  destruct (formatDisplay _ args) as [[s|] ds2]; cbn [fst]; [|reflexivity].
  now destruct (bool_decide (s = "")).
Qed.

(** [getMessage] on a [$static_assert] whose message is not computed yet,
    path by path. *)
Lemma getMessage_static_assert scope t :
  taskKind t = StaticAssertTask ->
  message t = None ->
  let astCtx := mkASTContext scope (LookupBefore (taskLocation t)) [] in
  getMessage scope t =
  match arguments (ElabSystemTasks.getSyntax t) with
  | None => ("", setMessage "" t, [])
  | Some params =>
      let b := bindArguments astCtx params [] in
      match fst b with
      | None => ("", setMessage "" t, snd b)
      | Some [] =>
          let m := createMessage astCtx [] in
          (fst m, setMessage (fst m) t, snd b ++ snd m)
      | Some (arg0 :: rest) =>
          let conv := requireBooleanConvertible astCtx arg0 in
          let r := eval astCtx arg0 in
          if fst conv then
            match value r with
            | None => ("", setMessage "" t, snd b ++ snd conv ++ evalDiags r)
            | Some _ =>
                let m := createMessage astCtx rest in
                (fst m, setMessage (fst m) (setAssertCondition (evaluated r) t),
                 (snd b ++ snd conv ++ evalDiags r) ++ snd m)
            end
          else ("", setMessage "" t, snd b ++ snd conv)
      end
  end.
Proof.
  intros Hk Hm astCtx. unfold ElabSystemTasks.getMessage. rewrite Hm.
  destruct (arguments (ElabSystemTasks.getSyntax t)) as [params|]; [|reflexivity].
  fold astCtx. cbn zeta.
  destruct (bindArguments astCtx params []) as [[[|arg0 rest]|] ds0]; cbn [fst snd];
    [| |reflexivity].
  - now destruct (createMessage astCtx []).
  - rewrite Hk. destruct (requireBooleanConvertible astCtx arg0) as [[|] ds1];
      cbn [negb fst snd]; [|reflexivity].
    destruct (value (eval astCtx arg0)); [|reflexivity].
    now destruct (createMessage astCtx rest).
Qed.

(** On a [$static_assert], [issueDiagnostic] is [getMessage] followed by
    [reportStaticAssert]. *)
Lemma issueDiagnostic_static_assert scope t :
  taskKind t = StaticAssertTask ->
  issueDiagnostic scope t =
  match reportStaticAssert isTrue constantToString (taskLocation t)
          (fst (fst (getMessage scope t)))
          (assertCondition (snd (fst (getMessage scope t)))) with
  | Some report =>
      Some (snd (fst (getMessage scope t)), snd (getMessage scope t) ++ report)
  | None => None
  end.
Proof.
  intros Hk. destruct (getMessage_preserves scope t) as [Hkind Hloc].
  unfold ElabSystemTasks.issueDiagnostic.
  destruct (getMessage scope t) as [[m u] d]. cbn [fst snd] in *.
  rewrite Hkind, Hk, Hloc. reflexivity.
Qed.


End StaticAssertFacts.

(** A task is created without message and without condition. *)
Lemma fromSyntax_not_computed getElabSystemTaskKind syntax :
  ElabSystemTasks.message (ElabSystemTasks.fromSyntax getElabSystemTaskKind syntax) = None /\
  ElabSystemTasks.assertCondition
    (ElabSystemTasks.fromSyntax getElabSystemTaskKind syntax) = None.
Proof. split; reflexivity. Qed.



(** When an argument after the condition fails to bind, [getMessage]
    returns early with the empty message and records no condition, and the
    task is reported. *)
Example static_assert_unbound_argument :
  (fun r => (ElabSystemTasks.assertCondition (fst r), snd r)) <$>
    Samples.issue (Samples.staticAssertOf [Samples.lit "1" 25; MoreSamples.unboundName]) =
  Some (None, [withArg (diagAt StaticAssert 10) ""]).
Proof. reflexivity. Qed.

(** A comparison that is false is reported with a note that gives both
    operand values; without the constants of the operands the assertion
    of [reduceComparison] fails. *)
Example static_assert_comparison_note :
  let condition info :=
    mkExpression BinaryOp false 1 false None
      (Some (CVInteger (Primitives.unsizedInt L0))) (25, 31) (Some info) in
  let one := CVInteger (Primitives.unsizedInt L1) in
  let zero := CVInteger (Primitives.unsizedInt L0) in
  ElabSystemTasks.reportStaticAssert Samples.integerIsTrue Samples.showConstant 10 ""
    (Some (condition (mkBinaryInfo Equality (Some one) (Some zero)
                        (Some (mkToken "==" 27))))) =
  Some [mkDiagnostic StaticAssert 10 [] [""]
          [mkNote NoteComparisonReduces 27 [(25, 31)] ["1"; "=="; "0"]]] /\
  ElabSystemTasks.reportStaticAssert Samples.integerIsTrue Samples.showConstant 10 ""
    (Some (condition (mkBinaryInfo Equality (Some one) None
                        (Some (mkToken "==" 27))))) = None /\
  ElabSystemTasks.reportStaticAssert Samples.integerIsTrue Samples.showConstant 10 ""
    (Some (condition (mkBinaryInfo Equality (Some one) (Some zero) None))) = None.
Proof. repeat split. Qed.

(** ** Default skews of clocking blocks *)

Section ClockingFacts.

Import ClockingBlocks.

Variable MemberSyntax : Type.
Variable ScopeMembers : Type.
Variable noMembers : ScopeMembers.
Variable addMembers : MemberSyntax -> ScopeMembers -> ScopeMembers.
Variable noteDefaultClocking : Scope -> SourceRange -> list Diagnostic.
Variable noteGlobalClocking : Scope -> SourceRange -> list Diagnostic.

Local Abbreviation step := (itemStep MemberSyntax ScopeMembers addMembers).
Local Abbreviation state := (mkItemState ScopeMembers).
Local Abbreviation Item := (ClockingItemSyntax MemberSyntax).

Lemma reported_cons c previous skew skews :
  reported c previous (skew :: skews) =
  match previous with
  | Some p => [multipleSkew c skew p]
  | None => []
  end ++ reported c (keep previous [skew]) skews.
Proof. destruct previous; reflexivity. Qed.

Lemma keep_cons previous skew skews :
  keep previous (skew :: skews) = keep (keep previous [skew]) skews.
Proof. destruct previous; reflexivity. Qed.

Lemma itemStep_default i o m d dir :
  step (state i o m d) (DefaultSkewItem _ dir) =
  state (keepOne i (inputSkew dir)) (keepOne o (outputSkew dir)) m
    (d ++ again MultipleDefaultInputSkew i (inputSkew dir) ++
          again MultipleDefaultOutputSkew o (outputSkew dir)).
Proof.
  unfold itemStep. cbn [isInput isOutput isMembers isDiags].
  destruct (inputSkew dir), (outputSkew dir), i, o; reflexivity.
Qed.

Lemma withCode_again c c' previous skew :
  withCode c (again c' previous skew) =
  if bool_decide (c' = c) then again c' previous skew else [].
Proof.
  unfold again. destruct skew, previous; cbn; try now destruct (bool_decide _).
  unfold hasCode. cbn. now destruct (bool_decide (c' = c)).
Qed.

Lemma inputSkews_cons (item : Item) its :
  inputSkews _ (item :: its) =
  match inputSkewsOf _ item with
  | Some s => s :: inputSkews _ its
  | None => inputSkews _ its
  end.
Proof. reflexivity. Qed.

Lemma outputSkews_cons (item : Item) its :
  outputSkews _ (item :: its) =
  match outputSkewsOf _ item with
  | Some s => s :: outputSkews _ its
  | None => outputSkews _ its
  end.
Proof. reflexivity. Qed.

Lemma memberItems_cons (item : Item) its :
  memberItems _ (item :: its) =
  match memberOf _ item with
  | Some x => x :: memberItems _ its
  | None => memberItems _ its
  end.
Proof. reflexivity. Qed.

(** The item loop, from any state. *)
Lemma item_loop (its : list Item) i o m d :
  let r := fold_left step its (state i o m d) in
  isInput _ r = keep i (inputSkews _ its) /\
  isOutput _ r = keep o (outputSkews _ its) /\
  isMembers _ r = fold_left (fun ms x => addMembers x ms) (memberItems _ its) m /\
  withCode MultipleDefaultInputSkew (isDiags _ r) =
    withCode MultipleDefaultInputSkew d ++
    reported MultipleDefaultInputSkew i (inputSkews _ its) /\
  withCode MultipleDefaultOutputSkew (isDiags _ r) =
    withCode MultipleDefaultOutputSkew d ++
    reported MultipleDefaultOutputSkew o (outputSkews _ its) /\
  (forall c, c <> MultipleDefaultInputSkew -> c <> MultipleDefaultOutputSkew ->
             withCode c (isDiags _ r) = withCode c d).
Proof.
  revert i o m d.
  induction its as [|item its IH]; intros i o m d; cbn zeta.
  - cbn. repeat split.
    + now destruct i.
    + now destruct o.
    + destruct i; cbn; now rewrite app_nil_r.
    + destruct o; cbn; now rewrite app_nil_r.
  - cbn [fold_left]. destruct item as [dir|x].
    + rewrite itemStep_default.
      match goal with
      | |- context [fold_left _ its (state ?i' ?o' ?m' ?d')] =>
          destruct (IH i' o' m' d') as (H1 & H2 & H3 & H4 & H5 & H6)
      end.
      rewrite H1, H2, H3, H4, H5.
      rewrite inputSkews_cons, outputSkews_cons, memberItems_cons.
      cbn [inputSkewsOf outputSkewsOf memberOf].
      rewrite !withCode_app, !withCode_again.
      rewrite !bool_decide_eq_true_2 by reflexivity.
      rewrite !bool_decide_eq_false_2 by discriminate.
      repeat split.
      * destruct (inputSkew dir), i; reflexivity.
      * destruct (outputSkew dir), o; reflexivity.
      * destruct (inputSkew dir), i; cbn; rewrite ?app_nil_r, <- ?app_assoc; reflexivity.
      * destruct (outputSkew dir), o; cbn; rewrite ?app_nil_r, <- ?app_assoc; reflexivity.
      * intros c Hc1 Hc2. rewrite (H6 c Hc1 Hc2).
        rewrite !withCode_app, !withCode_again.
        rewrite !bool_decide_eq_false_2 by congruence. now rewrite !app_nil_r.
    + rewrite inputSkews_cons, outputSkews_cons, memberItems_cons.
      cbn [inputSkewsOf outputSkewsOf memberOf fold_left]. apply IH.
Qed.

(** The diagnostics in front of the loop stay in front. *)
Lemma item_loop_diags (its : list Item) i o m d :
  isDiags _ (fold_left step its (state i o m d)) =
  d ++ isDiags _ (fold_left step its (state i o m [])).
Proof.
  revert i o m d. induction its as [|item its IH]; intros i o m d.
  - cbn. now rewrite app_nil_r.
  - cbn [fold_left]. destruct item as [dir|x].
    + rewrite !itemStep_default. rewrite IH. symmetry. rewrite IH.
      cbn [app]. now rewrite app_assoc.
    + apply IH.
Qed.

(** C7.  The recorded default input (output) skew of a clocking block is
    the first one the default-skew items specify, if any; the
    [MultipleDefaultInputSkew] ([MultipleDefaultOutputSkew]) diagnostics of
    the item loop are one for each later specification, on its range and
    with a note at the recorded one, which they do not replace; the loop
    issues no other diagnostic; and the members of the block are the items
    that are not default-skew items, added in source order. *)
Theorem default_skews_recorded_once scope
    (syntax : ClockingDeclarationSyntax MemberSyntax) :
  let r := fromSyntax MemberSyntax ScopeMembers noMembers addMembers
             noteDefaultClocking noteGlobalClocking scope syntax in
  let its := items _ syntax in
  let loop := skewDiags MemberSyntax ScopeMembers noMembers addMembers its in
  inputSkewSyntax _ (fst r) = head (inputSkews _ its) /\
  outputSkewSyntax _ (fst r) = head (outputSkews _ its) /\
  snd r = noteClocking _ noteDefaultClocking noteGlobalClocking scope syntax ++ loop /\
  withCode MultipleDefaultInputSkew loop =
    laterSkews MultipleDefaultInputSkew (inputSkews _ its) /\
  withCode MultipleDefaultOutputSkew loop =
    laterSkews MultipleDefaultOutputSkew (outputSkews _ its) /\
  (forall c, c <> MultipleDefaultInputSkew -> c <> MultipleDefaultOutputSkew ->
             withCode c loop = []) /\
  members _ (fst r) =
    fold_left (fun ms x => addMembers x ms) (memberItems _ its) noMembers.
Proof.
  intros r its loop. subst r loop. unfold fromSyntax, skewDiags. cbn [fst snd].
  cbn [inputSkewSyntax outputSkewSyntax members].
  set (ds0 := noteClocking _ _ _ _ _).
  destruct (item_loop its None None noMembers ds0) as (H1 & H2 & H3 & _).
  destruct (item_loop its None None noMembers []) as (_ & _ & _ & H4 & H5 & H6).
  repeat split.
  - exact H1.
  - exact H2.
  - apply item_loop_diags.
  - exact H4.
  - exact H5.
  - exact H6.
  - exact H3.
Qed.

End ClockingFacts.

(** [default input #1; x; default input #2 output #3; y]: the input skew
    [#1] and the output skew [#3] are recorded, the second input skew is
    reported, and the members are [x] and [y]. *)
Example sample_clocking_block :
  let r := ClockingBlocks.fromSyntax string (list string) []
             (fun x ms => ms ++ [x]) (fun _ _ => []) (fun _ _ => [])
             Samples.moduleBody Samples.sampleClocking in
  ClockingBlocks.inputSkewSyntax _ (fst r) = Some (Samples.skew "#1" 40) /\
  ClockingBlocks.outputSkewSyntax _ (fst r) = Some (Samples.skew "#3" 70) /\
  ClockingBlocks.members _ (fst r) = ["x"; "y"] /\
  snd r = [addNote (diagOver MultipleDefaultInputSkew (60, 62)) NotePreviousDefinition 40].
Proof. repeat split. Qed.

Lemma default_skews_recorded_once_witness :
  let r := ClockingBlocks.fromSyntax string (list string) []
             (fun x ms => ms ++ [x]) (fun _ _ => []) (fun _ _ => [])
             Samples.moduleBody Samples.sampleClocking in
  ClockingBlocks.inputSkewSyntax _ (fst r) = Some (Samples.skew "#1" 40) /\
  withCode PrimitiveTwoPorts
    (ClockingBlocks.skewDiags string (list string) [] (fun x ms => ms ++ [x])
       Samples.sampleItems) = [].
Proof.
  pose proof (default_skews_recorded_once string (list string) []
                (fun x ms => ms ++ [x]) (fun _ _ => []) (fun _ _ => [])
                Samples.moduleBody Samples.sampleClocking)
    as (H1 & _ & _ & _ & _ & H6 & _).
  split.
  - exact H1.
  - apply H6; discriminate.
Defined.

(** ** User-defined primitives *)

Section PrimitiveFacts.

Import NetSymbols Primitives.

Variable bind : ExpressionSyntax -> ASTContext -> Expression * list Diagnostic.
Variable eval : ASTContext -> Expression -> EvalResult.

Local Abbreviation fromSyntax := (Primitives.fromSyntax bind eval).

Lemma logicPorts_update ps idx port f :
  logicPorts ps -> ps !! idx = Some port -> type (f port) = type port ->
  logicPorts (<[idx := f port]> ps).
Proof.
  intros Hps Hl Hf. apply Forall_insert; [exact Hps|].
  rewrite Hf. exact (Forall_lookup_1 _ _ _ _ Hps Hl).
Qed.

Lemma outputDeclStep_logic portMap st d :
  logicPorts (dsPorts st) -> logicPorts (dsPorts (outputDeclStep portMap st d)).
Proof.
  intros H. unfold outputDeclStep.
  destruct (portMap !! _) as [idx|]; [|exact H].
  destruct (_ && _); [exact H|].
  destruct (dsPorts st !! idx) as [port|] eqn:Hl; [|exact H].
  cbn [dsPorts].
  apply (logicPorts_update _ _ port
           (fun p => setSyntax (OutputDeclNode d)
                       (setLocation (location (outName d))
                          (setDirection (if bool_decide (is_Some (reg d))
                                         then OutReg else Out) p))));
    [exact H|exact Hl|reflexivity].
Qed.

Lemma inputNameStep_logic portMap st nm :
  logicPorts (dsPorts st) -> logicPorts (dsPorts (inputNameStep portMap st nm)).
Proof.
  intros H. unfold inputNameStep.
  destruct (portMap !! _) as [idx|]; [|exact H].
  destruct (dsPorts st !! idx) as [port|] eqn:Hl; [|exact H].
  cbn [dsPorts].
  apply (logicPorts_update _ _ port
           (fun p => setSyntax (IdentifierNode nm) (setLocation (location nm) p)));
    [exact H|exact Hl|reflexivity].
Qed.

Lemma declStep_logic portMap st decl :
  logicPorts (dsPorts st) -> logicPorts (dsPorts (declStep portMap st decl)).
Proof.
  destruct decl as [d|d]; cbn [declStep].
  - apply outputDeclStep_logic.
  - revert st. induction (names d) as [|nm nms IH]; intros st H; [exact H|].
    cbn [fold_left]. apply IH, inputNameStep_logic, H.
Qed.

Lemma applyRegSpecifier_logic portMap st :
  logicPorts (dsPorts st) -> logicPorts (dsPorts (applyRegSpecifier portMap st)).
Proof.
  intros H. unfold applyRegSpecifier.
  destruct (regSpecifier st) as [spec|]; [|exact H].
  destruct (portMap !! _) as [idx|]; [|exact H].
  destruct (dsPorts st !! idx) as [port|] eqn:Hl; [|exact H].
  destruct (getSyntax port); [|exact H].
  destruct (direction port); try exact H.
  cbn [dsPorts].
  apply (logicPorts_update _ _ port (setDirection OutReg)); [exact H|exact Hl|reflexivity].
Qed.

Lemma buildPorts_logic syntax : logicPorts (fst (buildPorts syntax)).
Proof.
  unfold buildPorts. destruct (portList syntax) as [decls|nms|].
  - cbn [ansiPortList fst]. apply Forall_forall. intros p Hin.
    rewrite list_elem_of_In in Hin. apply in_flat_map in Hin as [decl [_ Hin]].
    destruct decl as [d|d]; cbn [ansiPortsOf] in Hin.
    + destruct Hin as [<-|[]]. reflexivity.
    + apply in_map_iff in Hin as [nm [<- _]]. reflexivity.
  - unfold nonAnsiPortList. cbn [fst].
    apply applyRegSpecifier_logic.
    assert (H0 : logicPorts
              (dsPorts (mkDeclState
                 (map (fun nm => newPrimitivePortSymbol (valueText nm) (location nm) In)
                    nms) None []))).
    { cbn [dsPorts]. apply Forall_forall. intros p Hin.
      rewrite list_elem_of_In in Hin. apply in_map_iff in Hin as [nm [<- _]]. reflexivity. }
    revert H0. generalize (mkDeclState
                 (map (fun nm => newPrimitivePortSymbol (valueText nm) (location nm) In)
                    nms) None []).
    induction (portDecls (body syntax)) as [|decl decls IH]; intros st H; [exact H|].
    cbn [fold_left]. apply IH, declStep_logic, H.
  - constructor.
Qed.

Lemma fromSyntax_ports scope syntax :
  ports (fst (fromSyntax scope syntax)) = fst (buildPorts syntax).
Proof.
  unfold Primitives.fromSyntax.
  destruct (buildPorts syntax) as [ps ds]. cbn [fst].
  destruct ps as [|first [|second rest]]; try reflexivity.
  destruct (bool_decide (direction first = In)); [reflexivity|].
  destruct (checkInitial _ _ _ _) as [ie dsI].
  destruct (bindInitVal _ _ _ _) as [iv dsV]. reflexivity.
Qed.

(** C9.  A primitive port gets the single-bit logic type from its
    constructor, whatever its direction, and every port of a primitive built
    from syntax, from an ANSI or a non-ANSI port list, has that type. *)
Theorem primitive_ports_are_single_bit_logic :
  (forall n loc dir,
     type (newPrimitivePortSymbol n loc dir) = LogicType /\
     typeBitWidthOf (type (newPrimitivePortSymbol n loc dir)) = 1) /\
  (forall scope syntax,
     Forall (fun p => type p = LogicType /\ typeBitWidthOf (type p) = 1)
       (ports (fst (fromSyntax scope syntax)))).
Proof.
  split.
  - intros n loc dir. split; reflexivity.
  - intros scope syntax. rewrite fromSyntax_ports.
    eapply Forall_impl; [apply buildPorts_logic|].
    cbn. intros p ->. split; reflexivity.
Qed.

(** C3, as amended.  For a primitive whose port list is the wildcard form
    no port is created: the primitive has no ports, is not sequential, has
    no initial value, and the only diagnostic is [PrimitiveTwoPorts] at the
    name of the primitive. *)
Theorem wildcard_port_list_creates_no_ports scope syntax :
  portList syntax = WildcardUdpPortList ->
  fromSyntax scope syntax =
    (mkPrimitiveSymbol (valueText (udpName syntax)) (location (udpName syntax))
       [] false None,
     [diagAt PrimitiveTwoPorts (location (udpName syntax))]).
Proof.
  intros H. unfold Primitives.fromSyntax, buildPorts. rewrite H. reflexivity.
Qed.

End PrimitiveFacts.

Lemma wildcard_port_list_creates_no_ports_witness :
  Primitives.fromSyntax Primitives.sampleBind Primitives.sampleEval Primitives.unitScope
    Primitives.wildcard_ports =
  (Primitives.mkPrimitiveSymbol "p" 10 [] false None, [diagAt PrimitiveTwoPorts 10]).
Proof.
  exact (wildcard_port_list_creates_no_ports Primitives.sampleBind Primitives.sampleEval
           Primitives.unitScope Primitives.wildcard_ports eq_refl).
Defined.

(** A primitive with a wildcard port list is elaborated without any
    [UnsupportedUdpPortList] diagnostic. *)
Lemma wildcard_port_list_not_rejected :
  Primitives.portList Primitives.wildcard_ports = Primitives.WildcardUdpPortList /\
  ~ List.In UnsupportedUdpPortList
      (map code
         (snd (Primitives.fromSyntax Primitives.sampleBind Primitives.sampleEval
                 Primitives.unitScope Primitives.wildcard_ports))).
Proof.
  split; [reflexivity|]. cbn. intros [H|[]]. discriminate H.
Qed.

Section InitialValueFacts.

Import Primitives.

Variable bind : ExpressionSyntax -> ASTContext -> Expression * list Diagnostic.
Variable eval : ASTContext -> Expression -> EvalResult.

Local Abbreviation fromSyntax := (Primitives.fromSyntax bind eval).
Local Abbreviation accepts := (Primitives.accepts eval).

Lemma acceptedInitVal_iff context expr c :
  fst (acceptedInitVal eval context expr) = Some c <-> accepts context expr c.
Proof.
  unfold acceptedInitVal, Primitives.accepts, isInitLiteral.
  destruct (_ && _); cbn [fst].
  - destruct (constant (evaluated (eval context expr))) as [[val| |]|]; cbn.
    + destruct (isInitValue val) eqn:Hv; split.
      * intros [= <-]. split; [reflexivity|]. exists val. repeat split. exact Hv.
      * intros [_ [val' [[= <-] [-> _]]]]. reflexivity.
      * discriminate.
      * intros [_ [val' [[= <-] [_ Hv']]]]. congruence.
    + split; [discriminate|]. intros [_ [val' [[=] _]]].
    + split; [discriminate|]. intros [_ [val' [[=] _]]].
    + split; [discriminate|]. intros [_ [val' [[=] _]]].
  - split; [discriminate|]. intros [[=] _].
Qed.

(** The check of the initial statement gives the expression and the
    report that are worded above. *)
Lemma checkInitial_worded syntax first :
  checkInitial (bool_decide (direction first = OutReg)) first
    (if bool_decide (direction first = OutReg) then inlineInitializer first else None)
    (initialStmt (body syntax)) =
  (usedInitialValue syntax first, initialStatementReport syntax first).
Proof.
  unfold checkInitial, usedInitialValue, initialStatementReport.
  destruct (initialStmt (body syntax)) as [initial|],
    (bool_decide (direction first = OutReg)); cbn [negb];
    destruct (inlineInitializer first); reflexivity.
Qed.


End InitialValueFacts.



(** An initial statement whose value is not examined: in a primitive
    that is not sequential it is reported with [PrimitiveInitialInComb]
    only, and beside the inline initializer [1'b0] with
    [PrimitiveDupInitial] only, the inline initializer being stored; the
    value [2'b01] of the statement gets no [PrimitiveInitVal]. *)
Example initial_statement_not_examined :
  (let r := Primitives.fromSyntax Primitives.sampleBind Primitives.sampleEval
              Primitives.unitScope MoreSamples.initial_in_comb in
   Primitives.isSequential (fst r) = false /\
   Primitives.initVal (fst r) = None /\
   snd r = [diagOver PrimitiveInitialInComb (32, 50)]) /\
  (let r := Primitives.fromSyntax Primitives.sampleBind Primitives.sampleEval
              Primitives.unitScope MoreSamples.inline_and_initial in
   Primitives.isSequential (fst r) = true /\
   Primitives.initVal (fst r) = Some (CVInteger (mkSVInt false [L0])) /\
   snd r = [addNote (diagOver PrimitiveDupInitial (44, 62)) NotePreviousDefinition 27]).
Proof. repeat split. Qed.

(** ** Members of anonymous programs *)

Section AnonymousProgramFacts.

Import Scopes AnonymousPrograms.

Variable MemberSyntax : Type.
Variable addMembers : MemberSyntax -> list Symbol -> list Symbol.

Lemma symbolName_unwrap s : symbolName (unwrap s) = symbolName s.
Proof. induction s; cbn; auto. Qed.

Lemma find_app_none {A} (f : A -> bool) l1 l2 :
  List.find f l1 = None -> List.find f (l1 ++ l2) = List.find f l2.
Proof.
  induction l1 as [|x l1 IH]; cbn; [reflexivity|].
  destruct (f x); [discriminate|exact IH].
Qed.

Lemma lookupMember_app_none n ms1 ms2 :
  lookupMember n ms1 = None -> lookupMember n (ms1 ++ ms2) = lookupMember n ms2.
Proof.
  unfold lookupMember. destruct (bool_decide (n = "")); [reflexivity|].
  intros H. rewrite find_app_none; [reflexivity|].
  destruct (List.find _ ms1); [discriminate|reflexivity].
Qed.

(** Among members with pairwise distinct names the lookup of the name of
    a member finds that member, through its transparent wrapper. *)
Lemma lookupMember_hoisted ms m :
  NoDup (declaredNames ms) -> List.In m ms -> symbolName m <> "" ->
  lookupMember (symbolName m) (map TransparentMemberSym ms) = Some (unwrap m).
Proof.
  intros Hnd Hin Hne. unfold lookupMember.
  rewrite bool_decide_eq_false_2 by exact Hne.
  induction ms as [|x ms IH]; [destruct Hin|].
  cbn [map List.find symbolName]. cbn [declaredNames map] in Hnd.
  apply NoDup_cons in Hnd as [Hx Hnd].
  destruct (bool_decide (symbolName x = symbolName m)) eqn:Hb.
  - apply bool_decide_eq_true_1 in Hb. destruct Hin as [->|Hin]; [reflexivity|].
    exfalso. apply Hx. rewrite Hb. apply list_elem_of_In, in_map, Hin.
  - apply bool_decide_eq_false_1 in Hb. destruct Hin as [->|Hin]; [congruence|].
    apply IH; assumption.
Qed.

(** C10.  The members of an anonymous program are what [addMembers] makes
    of its member syntax, and each of them is added, wrapped in a
    transparent member and in order, at the end of the members of the
    enclosing scope.  A member with a name that the enclosing scope has not
    declared before, the names in the program being distinct, is what a
    lookup of its name in the enclosing scope finds. *)
Theorem anonymous_program_members_hoisted (scope : ScopeState)
    (syntax : AnonymousProgramSyntax MemberSyntax) :
  let r := fromSyntax MemberSyntax addMembers scope syntax in
  let ms := getMembers (fst r) in
  ms = fold_left (fun ms member => addMembers member ms) (programMembers _ syntax) [] /\
  members (snd r) = members scope ++ map TransparentMemberSym ms /\
  (forall m, List.In m ms -> List.In (TransparentMemberSym m) (members (snd r))) /\
  (forall m, List.In m ms -> symbolName m <> "" ->
     lookupMember (symbolName m) (members scope) = None ->
     NoDup (declaredNames ms) ->
     lookupMember (symbolName m) (members (snd r)) = Some (unwrap m) /\
     unqualified (symbolName m) (snd r) = Some (unwrap m)).
Proof.
  intros r ms. subst r ms. unfold fromSyntax. cbn [fst snd getMembers].
  set (ms := fold_left _ (programMembers _ syntax) []).
  destruct (addMember_fold TransparentMemberSym ms scope) as [Hm _].
  cbn [setParent] in Hm.
  split; [reflexivity|]. split; [exact Hm|]. split.
  - intros m Hin. rewrite Hm. apply in_or_app. right. now apply in_map.
  - intros m Hin Hne Hnone Hnd.
    assert (Hl : lookupMember (symbolName m)
                   (members (fold_left (fun s member => addMember (TransparentMemberSym member) s)
                               ms scope)) = Some (unwrap m)).
    { rewrite Hm, lookupMember_app_none by exact Hnone.
      apply lookupMember_hoisted; assumption. }
    split; [exact Hl|].
    destruct (fold_left _ ms scope) as [t nt mems p]. cbn [members] in Hl.
    cbn [unqualified]. now rewrite Hl.
Qed.

End AnonymousProgramFacts.

(** The functions [f] and [g] of an anonymous program in a package are
    members of the package, and a lookup of [g] in the package finds it. *)
Lemma anonymous_program_members_hoisted_witness :
  let r := AnonymousPrograms.fromSyntax Scopes.Symbol AnonymousPrograms.sampleAddMembers
             AnonymousPrograms.samplePackage AnonymousPrograms.sampleProgram in
  List.In (Scopes.TransparentMemberSym (AnonymousPrograms.fn "g" 60))
    (Scopes.members (snd r)) /\
  Scopes.unqualified "g" (snd r) = Some (AnonymousPrograms.fn "g" 60).
Proof.
  pose proof (anonymous_program_members_hoisted Scopes.Symbol
                AnonymousPrograms.sampleAddMembers AnonymousPrograms.samplePackage
                AnonymousPrograms.sampleProgram) as (_ & _ & Hin & Hlook).
  assert (Hg : List.In (AnonymousPrograms.fn "g" 60)
                 (AnonymousPrograms.getMembers
                    (fst (AnonymousPrograms.fromSyntax Scopes.Symbol
                            AnonymousPrograms.sampleAddMembers
                            AnonymousPrograms.samplePackage
                            AnonymousPrograms.sampleProgram))))
    by (right; left; reflexivity).
  split.
  - exact (Hin _ Hg).
  - refine (proj2 (Hlook _ Hg _ eq_refl _)).
    + discriminate.
    + repeat constructor; cbn; rewrite ?list_elem_of_In; cbn; intuition discriminate.
Defined.

(** * Further properties of the embedded code *)

(** ** Data declarations *)

Section DataDeclarationFacts.

Import VariableSymbols Notions.

Variable isProceduralContext : Scope -> bool.

Lemma modifier_loop_const inProc ms st :
  msConst (fold_left (modifierStep inProc) ms st) =
  msConst st || existsb isConstKeyword ms.
Proof.
  revert st. induction ms as [|m ms IH]; intros st; cbn [fold_left existsb].
  - now rewrite orb_false_r.
  - rewrite IH. unfold modifierStep, isConstKeyword.
    destruct (modKind m); cbn [msConst]; try destruct inProc; cbn [msConst];
      rewrite ?bool_decide_eq_true_2 by reflexivity;
      rewrite ?bool_decide_eq_false_2 by discriminate;
      cbn [orb]; rewrite ?orb_true_r; reflexivity.
Qed.

Lemma declarator_diags_const scope syntax isConst explicit lt ds :
  withCode ConstVarNoInitializer
    (concat (map snd (map (declaratorStep isProceduralContext scope syntax isConst explicit lt) ds))) =
  if isConst
  then map (fun d => diagOver ConstVarNoInitializer (range (name d)))
         (List.filter (fun d => negb (hasInitializer d)) ds)
  else [].
Proof.
  induction ds as [|d ds IH]; cbn [map concat List.filter].
  - now destruct isConst.
  - rewrite withCode_app, IH. unfold declaratorStep. cbn [snd].
    destruct (bool_decide (lt = Static)), explicit, (hasInitializer d),
      (isProceduralContext scope), isConst; cbn; reflexivity.
Qed.

(** X1.  The [ConstVarNoInitializer] diagnostics of a data declaration are
    one for every declarator without an initializer, on the range of its
    name and in source order, when the declaration carries [const], and
    none when it does not. *)
Theorem const_variables_require_initializer syntax scope :
  withCode ConstVarNoInitializer (diags (fromSyntax isProceduralContext syntax scope)) =
  if hasConstKeyword syntax
  then map (fun d => diagOver ConstVarNoInitializer (range (name d)))
         (List.filter (fun d => negb (hasInitializer d)) (declarators syntax))
  else [].
Proof.
  unfold fromSyntax. cbn [diags].
  rewrite withCode_app, modifier_diags_code by discriminate. cbn [app].
  rewrite declarator_diags_const, modifier_loop_const. reflexivity.
Qed.

(** X2.  A data declaration gives one variable per declarator, in source
    order, named and located by the declarator; all of them have the
    lifetime the modifiers resolve to (the last lifetime keyword, an
    [automatic] outside a procedural context counting as static, else the
    default of the scope), are const exactly when the declaration carries
    [const], have the automatic-initializer flag exactly when they are
    automatic, and the interface-variable flag exactly in an interface. *)
Theorem data_declaration_variables syntax scope :
  let vars := results (fromSyntax isProceduralContext syntax scope) in
  map varName vars = map (fun d => valueText (name d)) (declarators syntax) /\
  map varLocation vars = map (fun d => location (name d)) (declarators syntax) /\
  map fromDeclarator vars = map Some (declarators syntax) /\
  Forall (fun v =>
            lifetime v = resolvedLifetime (isProceduralContext scope) syntax scope /\
            isConstVar v = hasConstKeyword syntax /\
            (List.In AutomaticInitializer (declaredTypeFlags v) <-> lifetime v = Automatic) /\
            (List.In InterfaceVariable (declaredTypeFlags v) <-> isInIface scope = true))
    vars.
Proof.
  cbn zeta. unfold fromSyntax. cbn [results].
  destruct (modifier_loop (isProceduralContext scope) (modifiers syntax)
              (mkModState false None [])) as [Hl _].
  cbn [msLifetime] in Hl.
  pose proof (modifier_loop_const (isProceduralContext scope) (modifiers syntax)
                (mkModState false None [])) as Hc.
  cbn [msConst orb] in Hc.
  set (st := fold_left _ (modifiers syntax) _) in *.
  rewrite !map_map. cbn [fst declaratorStep]. repeat split.
  apply Forall_forall. intros v Hin. rewrite list_elem_of_In in Hin.
  apply in_map_iff in Hin as [d [<- _]].
  cbn [lifetime isConstVar declaredTypeFlags newVariableSymbol].
  unfold resolvedLifetime, hasConstKeyword. rewrite Hc, Hl.
  assert (Hlt : match
                  match last (List.filter isLifetimeKeyword (modifiers syntax)) with
                  | Some m => Some (keywordLifetime (isProceduralContext scope) m)
                  | None => None
                  end
                with
                | Some l => l
                | None => getDefaultLifetime scope
                end =
                match last (List.filter isLifetimeKeyword (modifiers syntax)) with
                | Some m => keywordLifetime (isProceduralContext scope) m
                | None => getDefaultLifetime scope
                end) by (destruct (last _); reflexivity).
  rewrite Hlt. clear Hlt.
  set (lt := match last _ with Some m => _ | None => _ end).
  repeat split.
  - intros Hin. destruct (decide (lt = Automatic)) as [e|ne]; [exact e|].
    destruct (isInIface scope); cbn in Hin; intuition discriminate.
  - intros ->. rewrite decide_True by reflexivity. now left.
  - destruct (isInIface scope); [reflexivity|].
    intros Hin. rewrite app_nil_r in Hin.
    destruct (decide (lt = Automatic)); cbn in Hin; intuition discriminate.
  - intros ->. apply in_or_app. right. now left.
Qed.

End DataDeclarationFacts.

(** ** Messages of elaboration system tasks *)

Section TaskMessageFacts.

Import ElabSystemTasks Notions.

Variable requireSimpleExpr :
  ASTContext -> ExpressionSyntax -> option ExpressionSyntax * list Diagnostic.
Variable bind : ExpressionSyntax -> ASTContext -> Expression * list Diagnostic.
Variable checkFinishNum : ASTContext -> Expression -> bool * list Diagnostic.
Variable requireBooleanConvertible : ASTContext -> Expression -> bool * list Diagnostic.
Variable eval : ASTContext -> Expression -> EvalResult.
Variable checkDisplayArgs : ASTContext -> list Expression -> bool * list Diagnostic.
Variable formatDisplay : Scope -> list Expression -> option string * list Diagnostic.
Variable isTrue : ConstantValue -> bool.
Variable constantToString : ConstantValue -> string.

Local Abbreviation bindArguments := (ElabSystemTasks.bindArguments requireSimpleExpr bind).
Local Abbreviation createMessage :=
  (ElabSystemTasks.createMessage checkDisplayArgs formatDisplay).
Local Abbreviation getMessage :=
  (ElabSystemTasks.getMessage requireSimpleExpr bind checkFinishNum
     requireBooleanConvertible eval checkDisplayArgs formatDisplay).
Local Abbreviation issueDiagnostic :=
  (ElabSystemTasks.issueDiagnostic requireSimpleExpr bind checkFinishNum
     requireBooleanConvertible eval checkDisplayArgs formatDisplay isTrue
     constantToString).

(** Every path of [getMessage] leaves the message it returns in the cache. *)
Lemma getMessage_caches scope t :
  message (snd (fst (getMessage scope t))) = Some (fst (fst (getMessage scope t))).
Proof.
  unfold ElabSystemTasks.getMessage.
  repeat match goal with
         | |- context [match ?x with _ => _ end] => destruct x eqn:?
         end; cbn [fst snd message setMessage setAssertCondition];
    congruence.
Qed.

Lemma getMessage_cached scope t m :
  message t = Some m -> getMessage scope t = (m, t, []).
Proof. unfold ElabSystemTasks.getMessage. now intros ->. Qed.

Lemma getMessage_kind scope t :
  taskKind (snd (fst (getMessage scope t))) = taskKind t /\
  taskLocation (snd (fst (getMessage scope t))) = taskLocation t.
Proof.
  unfold ElabSystemTasks.getMessage.
  repeat match goal with
         | |- context [match ?x with _ => _ end] => destruct x eqn:?
         end; cbn [fst snd taskKind taskLocation setMessage setAssertCondition];
    split; congruence.
Qed.

Lemma issueDiagnostic_split scope t :
  issueDiagnostic scope t =
  match taskKind t with
  | StaticAssertTask =>
      match reportStaticAssert isTrue constantToString (taskLocation t)
              (fst (fst (getMessage scope t)))
              (assertCondition (snd (fst (getMessage scope t)))) with
      | Some report =>
          Some (snd (fst (getMessage scope t)), snd (getMessage scope t) ++ report)
      | None => None
      end
  | k =>
      Some (snd (fst (getMessage scope t)),
            snd (getMessage scope t) ++
            [withArg (diagAt (taskCode k) (taskLocation t))
               (fst (fst (getMessage scope t)))])
  end.
Proof.
  destruct (getMessage_kind scope t) as [Hk Hl].
  unfold ElabSystemTasks.issueDiagnostic.
  destruct (getMessage scope t) as [[m u] d]. cbn [fst snd] in *.
  rewrite Hk, Hl. destruct (taskKind t); reflexivity.
Qed.

(** X3.  The message of a task is computed once: after [getMessage] has
    run, a later call, from whatever scope, returns the same message,
    leaves the symbol as it is and issues no diagnostic; and a first
    [issueDiagnostic] issues the diagnostics of the message computation
    followed by exactly what any later [issueDiagnostic] issues, failing
    an assertion exactly when the later one does. *)
Theorem task_message_is_computed_once scope t later :
  let m := fst (fst (getMessage scope t)) in
  let t' := snd (fst (getMessage scope t)) in
  getMessage later t' = (m, t', []) /\
  (forall r, issueDiagnostic later t' = Some r -> fst r = t') /\
  issueDiagnostic scope t =
    match issueDiagnostic later t' with
    | Some r => Some (t', snd (getMessage scope t) ++ snd r)
    | None => None
    end.
Proof.
  cbn zeta.
  pose proof (getMessage_caches scope t) as Hc.
  pose proof (getMessage_kind scope t) as [Hk Hl].
  pose proof (getMessage_cached later _ _ Hc) as Hlater.
  split; [exact Hlater|].
  rewrite (issueDiagnostic_split later), Hlater. cbn [fst snd app].
  rewrite issueDiagnostic_split, Hk, Hl. split.
  - intros r. destruct (taskKind t); try (intros [= <-]; reflexivity).
    destruct (reportStaticAssert _ _ _ _ _); intros [= <-]; reflexivity.
  - destruct (taskKind t); try reflexivity.
    now destruct (reportStaticAssert _ _ _ _ _).
Qed.

(** X4.  A task other than a static assertion is always reported, with
    exactly one diagnostic of the code of its kind, at the task and
    carrying the message, after the diagnostics of the message
    computation; this is so also when the arguments fail to bind, the
    message being empty then. *)
Theorem elaboration_task_is_always_reported scope t :
  taskKind t <> StaticAssertTask ->
  issueDiagnostic scope t =
    Some (snd (fst (getMessage scope t)),
          snd (getMessage scope t) ++
          [withArg (diagAt (taskCode (taskKind t)) (taskLocation t))
             (fst (fst (getMessage scope t)))]) /\
  (forall params,
     message t = None ->
     arguments (ElabSystemTasks.getSyntax t) = Some params ->
     fst (bindArguments (mkASTContext scope (LookupBefore (taskLocation t)) [])
            params []) = None ->
     fst (fst (getMessage scope t)) = "").
Proof.
  intros Hk. split.
  - rewrite issueDiagnostic_split. destruct (taskKind t); congruence.
  - intros params Hm Hp Hb. unfold ElabSystemTasks.getMessage. rewrite Hm, Hp.
    destruct (bindArguments _ params []) as [bound ds]. cbn [fst] in Hb.
    now subst bound.
Qed.

Lemma createMessage_formatted context args :
  fst (createMessage context args) =
  if fst (checkDisplayArgs context args) then
    match fst (formatDisplay (contextScope context) args) with
    | Some s => if bool_decide (s = "") then "" else String.append ": " s
    | None => ""
    end
  else "".
Proof.
  unfold ElabSystemTasks.createMessage.
  destruct (checkDisplayArgs context args) as [[|] ds1]; cbn [negb fst]; [|reflexivity].
  destruct (formatDisplay _ args) as [[s|] ds2]; cbn [fst]; [|reflexivity].
  now destruct (bool_decide (s = "")).
Qed.

Lemma getMessage_of_bound scope t params bound :
  let astCtx := mkASTContext scope (LookupBefore (taskLocation t)) [] in
  message t = None ->
  arguments (ElabSystemTasks.getSyntax t) = Some params ->
  fst (bindArguments astCtx params []) = Some bound ->
  fst (fst (getMessage scope t)) =
    if match bound, taskKind t with
       | arg0 :: _, Fatal => fst (checkFinishNum astCtx arg0)
       | arg0 :: _, StaticAssertTask =>
           fst (requireBooleanConvertible astCtx arg0) &&
           bool_decide (is_Some (value (eval astCtx arg0)))
       | _, _ => true
       end
    then fst (createMessage astCtx (formatArguments (taskKind t) bound))
    else "".
Proof.
  intros astCtx Hm Hp Hb. unfold ElabSystemTasks.getMessage. rewrite Hm, Hp.
  fold astCtx. destruct (bindArguments astCtx params []) as [b ds]. cbn [fst] in Hb.
  subst b. unfold formatArguments.
  destruct bound as [|arg0 rest], (taskKind t); cbn [tail];
    try (destruct (createMessage astCtx _) as [m ds']; reflexivity).
  - destruct (checkFinishNum astCtx arg0) as [[|] ds1]; cbn [negb fst]; [|reflexivity].
    destruct (createMessage astCtx rest) as [m ds']; reflexivity.
  - destruct (requireBooleanConvertible astCtx arg0) as [[|] ds1];
      cbn [negb fst andb]; [|reflexivity].
    destruct (value (eval astCtx arg0)) as [v|].
    + rewrite bool_decide_eq_true_2 by (eexists; reflexivity).
      destruct (createMessage astCtx rest) as [m ds']; reflexivity.
    + rewrite bool_decide_eq_false_2 by (intros [x Hx]; discriminate). reflexivity.
Qed.

(** X5.  The message computed for a task is the text the formatter gives
    for the arguments behind a colon and a space.  When the arguments bind
    and the first argument of a [$fatal] or a [$static_assert] passes its
    check, the message is formatted from the bound arguments, the first one
    apart for these two kinds: it is the colon, the space and the text of
    [formatDisplay] when the display arguments pass their check and the
    text is not empty, and empty otherwise.  In every other case, without
    arguments in the syntax or with arguments that do not bind, it is
    empty.  So the message is either empty or a non-empty formatted text
    behind a colon and a space. *)
Theorem task_message_is_empty_or_prefixed scope t :
  message t = None ->
  let astCtx := mkASTContext scope (LookupBefore (taskLocation t)) [] in
  let m := fst (fst (getMessage scope t)) in
  let formatted args :=
    if fst (checkDisplayArgs astCtx args) then
      match fst (formatDisplay scope args) with
      | Some s => if bool_decide (s = "") then "" else String.append ": " s
      | None => ""
      end
    else "" in
  (m = "" \/
   exists params bound s,
     arguments (ElabSystemTasks.getSyntax t) = Some params /\
     fst (bindArguments astCtx params []) = Some bound /\
     fst (checkDisplayArgs astCtx (formatArguments (taskKind t) bound)) = true /\
     fst (formatDisplay scope (formatArguments (taskKind t) bound)) = Some s /\
     s <> "" /\ m = String.append ": " s) /\
  (forall params bound,
     arguments (ElabSystemTasks.getSyntax t) = Some params ->
     fst (bindArguments astCtx params []) = Some bound ->
     m = if match bound, taskKind t with
            | arg0 :: _, Fatal => fst (checkFinishNum astCtx arg0)
            | arg0 :: _, StaticAssertTask =>
                fst (requireBooleanConvertible astCtx arg0) &&
                bool_decide (is_Some (value (eval astCtx arg0)))
            | _, _ => true
            end
         then formatted (formatArguments (taskKind t) bound)
         else "") /\
  (arguments (ElabSystemTasks.getSyntax t) = None -> m = "") /\
  (forall params,
     arguments (ElabSystemTasks.getSyntax t) = Some params ->
     fst (bindArguments astCtx params []) = None -> m = "").
Proof.
  intros Hm astCtx m formatted.
  assert (Hbound : forall params bound,
             arguments (ElabSystemTasks.getSyntax t) = Some params ->
             fst (bindArguments astCtx params []) = Some bound ->
             m = if match bound, taskKind t with
                    | arg0 :: _, Fatal => fst (checkFinishNum astCtx arg0)
                    | arg0 :: _, StaticAssertTask =>
                        fst (requireBooleanConvertible astCtx arg0) &&
                        bool_decide (is_Some (value (eval astCtx arg0)))
                    | _, _ => true
                    end
                 then formatted (formatArguments (taskKind t) bound)
                 else "").
  { intros params bound Hp Hb. subst m formatted. cbn beta.
    rewrite (getMessage_of_bound scope t params bound Hm Hp Hb).
    fold astCtx. now rewrite createMessage_formatted. }
  assert (Hnone : arguments (ElabSystemTasks.getSyntax t) = None -> m = "").
  { intros Hp. subst m. unfold ElabSystemTasks.getMessage. now rewrite Hm, Hp. }
  assert (Hunbound : forall params,
             arguments (ElabSystemTasks.getSyntax t) = Some params ->
             fst (bindArguments astCtx params []) = None -> m = "").
  { intros params Hp Hb. subst m. unfold ElabSystemTasks.getMessage. rewrite Hm, Hp.
    fold astCtx. destruct (bindArguments astCtx params []) as [b ds]. cbn [fst] in Hb.
    now subst b. }
  split; [|split; [exact Hbound|split; [exact Hnone|exact Hunbound]]].
  destruct (arguments (ElabSystemTasks.getSyntax t)) as [params|] eqn:Hp;
    [|left; now apply Hnone].
  destruct (fst (bindArguments astCtx params [])) as [bound|] eqn:Hb;
    [|left; now apply (Hunbound params eq_refl)].
  rewrite (Hbound params bound eq_refl Hb).
  match goal with |- context [if ?c then _ else ""] => destruct c end; [|now left].
  subst formatted. cbn beta.
  destruct (fst (checkDisplayArgs astCtx _)) eqn:Hc; [|now left].
  destruct (fst (formatDisplay scope _)) as [s|] eqn:Hf; [|now left].
  destruct (bool_decide (s = "")) eqn:Hs; [now left|].
  right. exists params, bound, s. apply bool_decide_eq_false_1 in Hs.
  repeat split; assumption.
Qed.

(** X6.  When the arguments of a task bind, there is one bound expression
    per argument, in order behind those bound before, none of them is bad,
    and no argument is a named one. *)
Theorem bound_arguments_are_good astCtx params args bound ds :
  bindArguments astCtx params args = (Some bound, ds) ->
  exists new,
    bound = args ++ new /\
    length new = length params /\
    Forall (fun e => bad e = false) new /\
    Forall (fun a => isNamedArgument a = false) params.
Proof.
  revert args bound ds.
  induction params as [|arg params IH]; intros args bound ds H; cbn in H.
  - injection H as <- <-. exists []. rewrite app_nil_r. repeat split; constructor.
  - destruct arg as [e|r|r].
    + destruct (requireSimpleExpr astCtx e) as [[ex|] ds1]; [|discriminate].
      destruct (bind ex astCtx) as [b ds2].
      destruct (bad b) eqn:Hb; [discriminate|].
      destruct (ElabSystemTasks.bindArguments _ _ astCtx params (args ++ [b]))
        as [res ds'] eqn:Hrec.
      injection H as -> <-.
      destruct (IH _ _ _ Hrec) as (new & -> & Hlen & Hgood & Hnamed).
      exists (b :: new). rewrite <- app_assoc. repeat split.
      * cbn. now rewrite Hlen.
      * constructor; assumption.
      * constructor; [reflexivity|assumption].
    + discriminate.
    + cbn [bad emptyArgumentExpression] in H.
      destruct (ElabSystemTasks.bindArguments _ _ astCtx params
                  (args ++ [emptyArgumentExpression r])) as [res ds'] eqn:Hrec.
      injection H as -> <-.
      destruct (IH _ _ _ Hrec) as (new & -> & Hlen & Hgood & Hnamed).
      exists (emptyArgumentExpression r :: new). rewrite <- app_assoc. repeat split.
      * cbn. now rewrite Hlen.
      * constructor; [reflexivity|assumption].
      * constructor; [reflexivity|assumption].
Qed.

End TaskMessageFacts.

(** [$error(1)] is reported with the formatted message, and [$error(nope)],
    whose argument does not bind, with the empty one. *)
Lemma elaboration_task_is_always_reported_witness :
  snd <$> Samples.issue (MoreSamples.errorOf [Samples.lit "1" 25]) =
    Some [withArg (diagAt ErrorTask 10) ": failed"] /\
  snd <$> Samples.issue (MoreSamples.errorOf [MoreSamples.unboundName]) =
    Some [withArg (diagAt ErrorTask 10) ""].
Proof.
  split.
  - exact (f_equal (fmap (M:=option) snd)
             (proj1 (elaboration_task_is_always_reported Samples.simpleExpr
                       Primitives.sampleBind Samples.accept Samples.accept
                       Primitives.sampleEval Samples.acceptAll Samples.formatCount
                       Samples.integerIsTrue Samples.showConstant Samples.moduleBody
                       (MoreSamples.errorOf [Samples.lit "1" 25])
                       ltac:(discriminate)))).
  - exact (f_equal (fmap (M:=option) snd)
             (proj1 (elaboration_task_is_always_reported Samples.simpleExpr
                       Primitives.sampleBind Samples.accept Samples.accept
                       Primitives.sampleEval Samples.acceptAll Samples.formatCount
                       Samples.integerIsTrue Samples.showConstant Samples.moduleBody
                       (MoreSamples.errorOf [MoreSamples.unboundName])
                       ltac:(discriminate)))).
Defined.

(** The message of [$error(1)] is the text of the formatter behind the
    colon and the space. *)
Lemma task_message_is_empty_or_prefixed_witness :
  fst (fst (MoreSamples.message (MoreSamples.errorOf [Samples.lit "1" 25]))) = ": failed".
Proof.
  exact (proj1 (proj2 (task_message_is_empty_or_prefixed Samples.simpleExpr
                         Primitives.sampleBind Samples.accept Samples.accept
                         Primitives.sampleEval Samples.acceptAll Samples.formatCount
                         Samples.moduleBody (MoreSamples.errorOf [Samples.lit "1" 25])
                         eq_refl))
           [Samples.lit "1" 25] _ eq_refl eq_refl).
Defined.

(** The two literals of [$error(1, 0)] bind to two good expressions. *)
Lemma bound_arguments_are_good_witness :
  exists new,
    fst (ElabSystemTasks.bindArguments Samples.simpleExpr Primitives.sampleBind
           (mkASTContext Samples.moduleBody (LookupBefore 10) [])
           [Samples.lit "1" 25; Samples.lit "0" 28] []) = Some new /\
    length new = 2 /\ Forall (fun e => bad e = false) new.
Proof.
  destruct (bound_arguments_are_good Samples.simpleExpr Primitives.sampleBind
              (mkASTContext Samples.moduleBody (LookupBefore 10) [])
              [Samples.lit "1" 25; Samples.lit "0" 28] [] _ _ eq_refl)
    as (new & Hb & Hlen & Hgood & _).
  exists new. split; [|split; [exact Hlen|exact Hgood]].
  cbn [app] in Hb. rewrite <- Hb. reflexivity.
Defined.

(** ** Port lists of primitives *)

Section PortListFacts.

Import NetSymbols Primitives Notions.

Lemma buildPortMap_snoc names x :
  buildPortMap (names ++ [x]) =
  if bool_decide (valueText x = "") then buildPortMap names
  else emplace (valueText x) (length names) (buildPortMap names).
Proof.
  unfold buildPortMap. rewrite imap_app, fold_left_app. cbn.
  now rewrite Nat.add_0_r.
Qed.

Lemma indexOf_snoc n names x :
  indexOf n (names ++ [x]) =
  match indexOf n names with
  | Some i => Some i
  | None => if bool_decide (valueText x = n) then Some (length names) else None
  end.
Proof.
  induction names as [|nm names IH]; cbn.
  - now destruct (bool_decide _).
  - destruct (bool_decide (valueText nm = n)); [reflexivity|].
    rewrite IH. destruct (indexOf n names); cbn; [reflexivity|].
    now destruct (bool_decide _).
Qed.

(** The map built from the port list sends a name to the position of its
    first port, and has no entry for the empty name. *)
Lemma buildPortMap_lookup names n :
  buildPortMap names !! n = if bool_decide (n = "") then None else indexOf n names.
Proof.
  revert n. induction names as [|x names IH] using rev_ind; intros n.
  - cbn. unfold buildPortMap. cbn. rewrite lookup_empty. now destruct (bool_decide _).
  - rewrite buildPortMap_snoc, indexOf_snoc.
    destruct (bool_decide (valueText x = "")) eqn:Hx.
    + apply bool_decide_eq_true_1 in Hx. rewrite IH.
      destruct (bool_decide (n = "")) eqn:Hn; [reflexivity|].
      apply bool_decide_eq_false_1 in Hn.
      destruct (indexOf n names); [reflexivity|].
      rewrite bool_decide_eq_false_2 by congruence. reflexivity.
    + apply bool_decide_eq_false_1 in Hx. unfold emplace.
      destruct (buildPortMap names !! valueText x) as [j|] eqn:Hj.
      * rewrite IH. destruct (bool_decide (n = "")) eqn:Hn; [reflexivity|].
        destruct (indexOf n names) eqn:Hi; [reflexivity|].
        destruct (bool_decide (valueText x = n)) eqn:Hxn; [|reflexivity].
        apply bool_decide_eq_true_1 in Hxn. subst n.
        rewrite IH, Hn, Hi in Hj. discriminate.
      * destruct (decide (valueText x = n)) as [<-|Hne].
        -- rewrite lookup_insert_eq. rewrite IH in Hj.
           rewrite bool_decide_eq_false_2 in * by exact Hx.
           rewrite Hj. now rewrite bool_decide_eq_true_2.
        -- rewrite lookup_insert_ne by exact Hne. rewrite IH.
           destruct (bool_decide (n = "")); [reflexivity|].
           destruct (indexOf n names); [reflexivity|].
           now rewrite bool_decide_eq_false_2.
Qed.

Lemma indexOf_Some n names i :
  indexOf n names = Some i ->
  exists nm, names !! i = Some nm /\ valueText nm = n /\
    forall j other, j < i -> names !! j = Some other -> valueText other <> n.
Proof.
  revert i. induction names as [|x names IH]; intros i H; cbn in H; [discriminate|].
  destruct (bool_decide (valueText x = n)) eqn:Hx.
  - injection H as <-. exists x. apply bool_decide_eq_true_1 in Hx.
    repeat split; [exact Hx|]. intros j other Hj. lia.
  - apply bool_decide_eq_false_1 in Hx.
    destruct (indexOf n names) as [k|]; [|discriminate]. injection H as <-.
    destruct (IH k eq_refl) as (nm & Hl & Hn & Hfirst).
    exists nm. repeat split; [exact Hl|exact Hn|].
    intros [|j] other Hj Hother; cbn in Hother.
    + injection Hother as <-. exact Hx.
    + apply (Hfirst j other); [lia|exact Hother].
Qed.

Lemma indexOf_None n names :
  indexOf n names = None <-> ~ List.In n (map valueText names).
Proof.
  induction names as [|x names IH]; cbn; [tauto|].
  destruct (bool_decide (valueText x = n)) eqn:Hx.
  - apply bool_decide_eq_true_1 in Hx. split; [discriminate|]. tauto.
  - apply bool_decide_eq_false_1 in Hx.
    destruct (indexOf n names); cbn.
    + split; [discriminate|]. intros H. exfalso.
      assert (Hnone : Some n0 = None) by (apply IH; tauto). discriminate.
    + split; [|reflexivity]. intros _ [H|H]; [exact (Hx H)|].
      destruct IH as [IH _]. exact (IH eq_refl H).
Qed.

(** X7.  In the non-ANSI form the map from names to ports keeps, for a
    name listed more than once, its first port; the empty name and a name
    that is not listed have no entry, and every listed non-empty name has
    one. *)
Theorem port_map_keeps_first_port names :
  buildPortMap names !! "" = None /\
  (forall n i, buildPortMap names !! n = Some i ->
     exists nm, names !! i = Some nm /\ valueText nm = n /\
       forall j other, j < i -> names !! j = Some other -> valueText other <> n) /\
  (forall n, n <> "" -> List.In n (map valueText names) ->
     is_Some (buildPortMap names !! n)) /\
  (forall n, ~ List.In n (map valueText names) -> buildPortMap names !! n = None).
Proof.
  split; [|split; [|split]].
  - rewrite buildPortMap_lookup. reflexivity.
  - intros n i H. rewrite buildPortMap_lookup in H.
    destruct (bool_decide (n = "")); [discriminate|]. now apply indexOf_Some.
  - intros n Hn Hin. rewrite buildPortMap_lookup.
    rewrite bool_decide_eq_false_2 by exact Hn.
    destruct (indexOf n names) eqn:Hi; [eexists; reflexivity|].
    apply indexOf_None in Hi. contradiction.
  - intros n Hn. rewrite buildPortMap_lookup.
    destruct (bool_decide (n = "")); [reflexivity|]. now apply indexOf_None.
Qed.

(** *** The declaration loop keeps names and positions *)

Lemma names_update (ps : list PrimitivePortSymbol) idx port f :
  ps !! idx = Some port -> name (f port) = name port ->
  map name (<[idx := f port]> ps) = map name ps.
Proof.
  intros Hl Hf.
  change (name <$> <[idx := f port]> ps = name <$> ps).
  rewrite list_fmap_insert, Hf. apply list_insert_id.
  rewrite list_lookup_fmap, Hl. reflexivity.
Qed.

Lemma outputDeclStep_names portMap st d :
  map name (dsPorts (outputDeclStep portMap st d)) = map name (dsPorts st).
Proof.
  unfold outputDeclStep.
  destruct (portMap !! _) as [idx|]; [|reflexivity].
  destruct (_ && _); [reflexivity|].
  destruct (dsPorts st !! idx) as [port|] eqn:Hl; [|reflexivity].
  cbn [dsPorts].
  apply (names_update _ _ port
           (fun p => setSyntax (OutputDeclNode d)
                       (setLocation (location (outName d))
                          (setDirection (if bool_decide (is_Some (reg d))
                                         then OutReg else Out) p))));
    [exact Hl|reflexivity].
Qed.

Lemma inputNameStep_names portMap st nm :
  map name (dsPorts (inputNameStep portMap st nm)) = map name (dsPorts st).
Proof.
  unfold inputNameStep.
  destruct (portMap !! _) as [idx|]; [|reflexivity].
  destruct (dsPorts st !! idx) as [port|] eqn:Hl; [|reflexivity].
  cbn [dsPorts].
  apply (names_update _ _ port
           (fun p => setSyntax (IdentifierNode nm) (setLocation (location nm) p)));
    [exact Hl|reflexivity].
Qed.

Lemma declStep_names portMap st decl :
  map name (dsPorts (declStep portMap st decl)) = map name (dsPorts st).
Proof.
  destruct decl as [d|d]; cbn [declStep].
  - apply outputDeclStep_names.
  - revert st. induction (names d) as [|nm nms IH]; intros st; [reflexivity|].
    cbn [fold_left]. rewrite IH. apply inputNameStep_names.
Qed.

Lemma applyRegSpecifier_names portMap st :
  map name (dsPorts (applyRegSpecifier portMap st)) = map name (dsPorts st).
Proof.
  unfold applyRegSpecifier.
  destruct (regSpecifier st) as [spec|]; [|reflexivity].
  destruct (portMap !! _) as [idx|]; [|reflexivity].
  destruct (dsPorts st !! idx) as [port|] eqn:Hl; [|reflexivity].
  destruct (getSyntax port); [|reflexivity].
  destruct (direction port); try reflexivity.
  cbn [dsPorts].
  apply (names_update _ _ port (setDirection OutReg)); [exact Hl|reflexivity].
Qed.

(** X8.  In the non-ANSI form the port list alone fixes the ports: there
    is one port per listed name, in the order of the list and with the
    listed name, whatever the body declares. *)
Theorem non_ansi_ports_follow_port_list names body :
  map name (fst (nonAnsiPortList names body)) = map valueText names /\
  length (fst (nonAnsiPortList names body)) = length names.
Proof.
  assert (H : map name (fst (nonAnsiPortList names body)) = map valueText names).
  { unfold nonAnsiPortList. cbn [fst]. rewrite applyRegSpecifier_names.
    set (st0 := mkDeclState _ None []).
    assert (H0 : map name (dsPorts st0) = map valueText names)
      by (subst st0; cbn [dsPorts]; now rewrite map_map).
    revert H0. generalize st0.
    induction (portDecls body) as [|decl decls IH]; intros st H0; [exact H0|].
    cbn [fold_left]. apply IH. now rewrite declStep_names. }
  split; [exact H|].
  rewrite <- (length_map name), H. apply length_map.
Qed.

End PortListFacts.

(** In [(q, a, q)] the name [q] stands for the first port. *)
Lemma port_map_keeps_first_port_witness :
  Primitives.buildPortMap MoreSamples.repeatedName !! "q" = Some 0 /\
  exists nm, MoreSamples.repeatedName !! 0 = Some nm /\ valueText nm = "q" /\
    forall j other, j < 0 -> MoreSamples.repeatedName !! j = Some other ->
                    valueText other <> "q".
Proof.
  assert (H : Primitives.buildPortMap MoreSamples.repeatedName !! "q" = Some 0)
    by (vm_compute; reflexivity).
  split; [exact H|].
  exact (proj1 (proj2 (port_map_keeps_first_port MoreSamples.repeatedName)) "q" 0 H).
Defined.

(** ** Port declarations in the body of a primitive *)

Section PortDeclarationFacts.

Import NetSymbols Primitives Notions.

(** A loop reaches a state with a property when one of its steps
    establishes it and every step keeps it. *)
Lemma fold_left_reaches {A S} (f : S -> A -> S) (P : S -> Prop) l x :
  List.In x l ->
  (forall st, P (f st x)) ->
  (forall st y, P st -> P (f st y)) ->
  forall st, P (fold_left f l st).
Proof.
  intros Hin Hx Hkeep. induction l as [|y l IH]; [destruct Hin|].
  intros st. cbn [fold_left]. destruct Hin as [->|Hin].
  - generalize (f st x) (Hx st). clear IH.
    induction l as [|z l IH]; intros s Hs; [exact Hs|].
    cbn [fold_left]. apply IH, Hkeep, Hs.
  - apply IH, Hin.
Qed.

Lemma fold_left_keeps {A S} (f : S -> A -> S) (P : S -> Prop) (Q : A -> Prop) l :
  (forall st y, Q y -> P st -> P (f st y)) ->
  Forall Q l -> forall st, P st -> P (fold_left f l st).
Proof.
  intros Hkeep HQ. induction HQ as [|y l Hy _ IH]; intros st Hst; [exact Hst|].
  cbn [fold_left]. apply IH, Hkeep; assumption.
Qed.

Lemma outputDeclStep_diag portMap st d diag :
  List.In diag (dsDiags st) -> List.In diag (dsDiags (outputDeclStep portMap st d)).
Proof.
  intros H. unfold outputDeclStep.
  destruct (portMap !! _) as [idx|].
  - destruct (_ && _); cbn [dsDiags].
    + apply in_or_app. now left.
    + destruct (dsPorts st !! idx); cbn [dsDiags]; [|exact H].
      apply in_or_app. now left.
  - cbn [dsDiags]. apply in_or_app. now left.
Qed.

Lemma inputNameStep_diag portMap st nm diag :
  List.In diag (dsDiags st) -> List.In diag (dsDiags (inputNameStep portMap st nm)).
Proof.
  intros H. unfold inputNameStep.
  destruct (portMap !! _) as [idx|].
  - destruct (dsPorts st !! idx); cbn [dsDiags]; [|exact H].
    apply in_or_app. now left.
  - cbn [dsDiags]. apply in_or_app. now left.
Qed.

Lemma declStep_diag portMap st decl diag :
  List.In diag (dsDiags st) -> List.In diag (dsDiags (declStep portMap st decl)).
Proof.
  destruct decl as [d|d]; cbn [declStep].
  - apply outputDeclStep_diag.
  - revert st. induction (names d) as [|nm nms IH]; intros st H; [exact H|].
    cbn [fold_left]. apply IH, inputNameStep_diag, H.
Qed.

Lemma applyRegSpecifier_diag portMap st diag :
  List.In diag (dsDiags st) -> List.In diag (dsDiags (applyRegSpecifier portMap st)).
Proof.
  intros H. unfold applyRegSpecifier.
  repeat match goal with
         | |- context [match ?x with _ => _ end] => destruct x
         end; cbn [dsDiags]; try exact H; apply in_or_app; now left.
Qed.

(** A declaration of a name without an entry in the map is reported. *)
Lemma declStep_unknown portMap st decl t :
  List.In t (declaredBy decl) -> portMap !! valueText t = None ->
  List.In (unknownPort t) (dsDiags (declStep portMap st decl)).
Proof.
  intros Hin Hnone. destruct decl as [d|d]; cbn [declStep declaredBy] in *.
  - destruct Hin as [<-|[]]. unfold outputDeclStep. rewrite Hnone.
    cbn [dsDiags]. apply in_or_app. right. now left.
  - apply (fold_left_reaches (inputNameStep portMap)
             (fun st => List.In (unknownPort t) (dsDiags st)) (names d) t Hin).
    + intros s. unfold inputNameStep. rewrite Hnone.
      cbn [dsDiags]. apply in_or_app. right. now left.
    + intros s y. apply inputNameStep_diag.
Qed.

(** X9.  In the non-ANSI form every body declaration of a name that the
    port list does not give, the empty name included, is reported with
    [PrimitivePortUnknown] on that name. *)
Theorem unlisted_port_declaration_is_reported names body t :
  List.In t (declaredTokens body) ->
  valueText t = "" \/ ~ List.In (valueText t) (map valueText names) ->
  List.In (unknownPort t) (snd (nonAnsiPortList names body)).
Proof.
  intros Hin Hunlisted.
  assert (Hnone : buildPortMap names !! valueText t = None).
  { rewrite buildPortMap_lookup. destruct Hunlisted as [->|Hn]; [reflexivity|].
    destruct (bool_decide _); [reflexivity|]. now apply indexOf_None. }
  unfold declaredTokens in Hin. apply in_flat_map in Hin as [decl [Hdecl Ht]].
  unfold nonAnsiPortList. cbn [snd]. apply in_or_app. left.
  apply applyRegSpecifier_diag.
  apply (fold_left_reaches (declStep (buildPortMap names))
           (fun st => List.In (unknownPort t) (dsDiags st)) (portDecls body) decl Hdecl).
  - intros st. now apply declStep_unknown.
  - intros st y. apply declStep_diag.
Qed.

(** *** Ports the body does not declare *)

Section Untouched.

Variable portMap : gmap string nat.
Variable i : nat.
Variable p : PrimitivePortSymbol.

Local Abbreviation avoids := (Notions.avoids portMap i).
Local Abbreviation untouched := (Notions.untouched portMap i p).

Lemma outputDeclStep_untouched st d :
  avoids (outName d) -> untouched st -> untouched (outputDeclStep portMap st d).
Proof.
  intros Hav [Hp Hreg]. unfold outputDeclStep.
  destruct (portMap !! valueText (outName d)) as [idx|] eqn:Hidx; [|split; assumption].
  destruct (_ && _).
  - split; [exact Hp|]. cbn [regSpecifier]. intros spec [= <-]. exact Hav.
  - destruct (dsPorts st !! idx) as [port|]; [|split; assumption].
    split; [|exact Hreg]. cbn [dsPorts].
    rewrite list_lookup_insert_ne; [exact Hp|].
    intros ->. apply Hav. exact Hidx.
Qed.

Lemma inputNameStep_untouched st nm :
  avoids nm -> untouched st -> untouched (inputNameStep portMap st nm).
Proof.
  intros Hav [Hp Hreg]. unfold inputNameStep.
  destruct (portMap !! valueText nm) as [idx|] eqn:Hidx; [|split; assumption].
  destruct (dsPorts st !! idx) as [port|]; [|split; assumption].
  split; [|exact Hreg]. cbn [dsPorts].
  rewrite list_lookup_insert_ne; [exact Hp|].
  intros ->. apply Hav. exact Hidx.
Qed.

Lemma declStep_untouched st decl :
  Forall avoids (declaredBy decl) -> untouched st -> untouched (declStep portMap st decl).
Proof.
  intros Hav Hst. destruct decl as [d|d]; cbn [declStep declaredBy] in *.
  - apply outputDeclStep_untouched; [|exact Hst]. now apply Forall_inv in Hav.
  - apply (fold_left_keeps (inputNameStep portMap) untouched avoids (names d));
      [|exact Hav|exact Hst].
    intros s y Hy Hs. now apply inputNameStep_untouched.
Qed.

Lemma applyRegSpecifier_untouched st :
  untouched st -> dsPorts (applyRegSpecifier portMap st) !! i = Some p.
Proof.
  intros [Hp Hreg]. unfold applyRegSpecifier.
  destruct (regSpecifier st) as [spec|] eqn:Hspec; [|exact Hp].
  destruct (portMap !! valueText (outName spec)) as [idx|] eqn:Hidx; [|exact Hp].
  destruct (dsPorts st !! idx) as [port|]; [|exact Hp].
  destruct (getSyntax port); [|exact Hp].
  destruct (direction port); try exact Hp.
  cbn [dsPorts]. rewrite list_lookup_insert_ne; [exact Hp|].
  intros ->. exact (Hreg spec eq_refl Hidx).
Qed.

End Untouched.

(** X10.  In the non-ANSI form a port whose name no body declaration
    names stays as the port list made it, an input at the place of its
    name in the list and without a declaration, and is reported with
    [PrimitivePortMissing]. *)
Theorem undeclared_port_is_missing names body i nm :
  names !! i = Some nm ->
  ~ List.In (valueText nm) (map valueText (declaredTokens body)) ->
  let fresh := newPrimitivePortSymbol (valueText nm) (location nm) In in
  fst (nonAnsiPortList names body) !! i = Some fresh /\
  List.In (withArg (diagAt PrimitivePortMissing (location nm)) (valueText nm))
    (snd (nonAnsiPortList names body)).
Proof.
  intros Hnm Hundeclared fresh.
  assert (Hav : Forall (Forall (avoids (buildPortMap names) i))
                  (map declaredBy (portDecls body))).
  { apply Forall_forall. intros ts Hts. rewrite list_elem_of_In in Hts.
    apply in_map_iff in Hts as [decl [<- Hdecl]].
    apply Forall_forall. intros t Ht. rewrite list_elem_of_In in Ht.
    intros Hmap. rewrite buildPortMap_lookup in Hmap.
    destruct (bool_decide _); [discriminate|].
    apply indexOf_Some in Hmap as (nm' & Hl & Hn & _).
    rewrite Hnm in Hl. injection Hl as <-.
    apply Hundeclared. rewrite Hn. apply in_map. unfold declaredTokens.
    apply in_flat_map. exists decl. split; assumption. }
  assert (Hport : fst (nonAnsiPortList names body) !! i = Some fresh).
  { unfold nonAnsiPortList. cbn [fst].
    apply applyRegSpecifier_untouched.
    set (st0 := mkDeclState _ None []).
    assert (H0 : untouched (buildPortMap names) i fresh st0).
    { split; [|discriminate]. subst st0. cbn [dsPorts].
      change (((fun nm => newPrimitivePortSymbol (valueText nm) (location nm) In)
                 <$> names) !! i = Some fresh).
      rewrite list_lookup_fmap, Hnm. reflexivity. }
    revert H0. generalize st0. clear st0.
    induction (portDecls body) as [|decl decls IH]; intros st Hst; [exact Hst|].
    cbn [fold_left map] in *. apply Forall_cons in Hav as [Hd Hds].
    apply IH; [exact Hds|]. now apply declStep_untouched. }
  split; [exact Hport|].
  unfold nonAnsiPortList in *. cbn [fst snd] in *.
  apply in_or_app. right. unfold missingPorts. apply in_flat_map.
  exists fresh. split.
  - apply list_elem_of_In. eapply list_elem_of_lookup_2. exact Hport.
  - now left.
Qed.

End PortDeclarationFacts.

(** With the port list [(q, a)], [input b] is reported as unknown and [a],
    which has no declaration, as missing. *)
Lemma unlisted_port_declaration_is_reported_witness :
  List.In (Primitives.unknownPort (Primitives.tk "b" 26))
    (snd (Primitives.nonAnsiPortList [Primitives.tk "q" 12; Primitives.tk "a" 15]
            MoreSamples.strayInput)).
Proof.
  apply (unlisted_port_declaration_is_reported
           [Primitives.tk "q" 12; Primitives.tk "a" 15] MoreSamples.strayInput
           (Primitives.tk "b" 26)).
  - left. reflexivity.
  - right. cbn. intros [H|[H|[]]]; discriminate.
Defined.

Lemma undeclared_port_is_missing_witness :
  fst (Primitives.nonAnsiPortList [Primitives.tk "q" 12; Primitives.tk "a" 15]
         MoreSamples.strayInput) !! 1 =
    Some (Primitives.newPrimitivePortSymbol "a" 15 Primitives.In) /\
  List.In (withArg (diagAt PrimitivePortMissing 15) "a")
    (snd (Primitives.nonAnsiPortList [Primitives.tk "q" 12; Primitives.tk "a" 15]
            MoreSamples.strayInput)).
Proof.
  apply (undeclared_port_is_missing
           [Primitives.tk "q" 12; Primitives.tk "a" 15] MoreSamples.strayInput 1
           (Primitives.tk "a" 15)).
  - reflexivity.
  - cbn. intros [H|[H|[]]]; discriminate.
Defined.

(** ** Sequential primitives and their initial value *)

Section StoredInitialValueFacts.

Import Primitives.

Variable bind : ExpressionSyntax -> ASTContext -> Expression * list Diagnostic.
Variable eval : ASTContext -> Expression -> EvalResult.

Lemma bindInitVal_stored scope initExpr c :
  fst (bindInitVal bind eval scope initExpr) = Some c ->
  is_Some initExpr /\ exists val, c = CVInteger val /\ isInitValue val = true.
Proof.
  unfold bindInitVal. destruct initExpr as [ie|]; [|discriminate].
  destruct (bind ie _) as [expr ds]. destruct (bad expr); [discriminate|].
  unfold acceptedInitVal.
  destruct (_ && _); cbn [fst]; [|discriminate].
  destruct (constant _) as [[val| |]|]; cbn [fst]; try discriminate.
  destruct (isInitValue val) eqn:Hv; [|discriminate].
  intros [= <-]. split; [eexists; reflexivity|]. exists val. split; [reflexivity|exact Hv].
Qed.

Lemma checkInitial_combinational first initial :
  fst (checkInitial false first None initial) = None.
Proof. unfold checkInitial. destruct initial; reflexivity. Qed.

(** X11.  A primitive is flagged sequential only if it has at least two
    ports and the first is an [output reg]; and an initial value is stored
    only on a sequential primitive and is then an integer that is 0, 1 or a
    1-bit x. *)
Theorem stored_initial_value_is_checked scope syntax :
  let prim := fst (Primitives.fromSyntax bind eval scope syntax) in
  (isSequential prim = true ->
   exists first second rest,
     ports prim = first :: second :: rest /\ direction first = OutReg) /\
  (forall c, initVal prim = Some c ->
     isSequential prim = true /\
     exists val, c = CVInteger val /\ isInitValue val = true).
Proof.
  cbn zeta. unfold Primitives.fromSyntax.
  destruct (buildPorts syntax) as [ps ds].
  destruct ps as [|first [|second rest]]; cbn [fst isSequential initVal].
  - split; [discriminate|]. intros c [=].
  - split; [discriminate|]. intros c [=].
  - destruct (bool_decide (direction first = In)); cbn [fst isSequential initVal].
    { split; [discriminate|]. intros c [=]. }
    destruct (bool_decide (direction first = OutReg)) eqn:Hreg.
    + destruct (checkInitial _ _ _ _) as [initExpr dsI].
      destruct (bindInitVal bind eval scope initExpr) as [iv dsV] eqn:Hbv.
      cbn [fst isSequential initVal ports]. split.
      * intros _. exists first, second, rest. split; [reflexivity|].
        now apply bool_decide_eq_true_1 in Hreg.
      * intros c ->. split; [reflexivity|].
        apply (bindInitVal_stored scope initExpr c). now rewrite Hbv.
    + pose proof (checkInitial_combinational first (initialStmt (body syntax))) as Hci.
      destruct (checkInitial false first None _) as [initExpr dsI].
      cbn [fst] in Hci. subst initExpr. cbn [bindInitVal].
      cbn [fst isSequential initVal]. split; [discriminate|]. intros c [=].
Qed.

End StoredInitialValueFacts.

(** Seed scenario 5 stores its initial value, and is sequential. *)
Lemma stored_initial_value_is_checked_witness :
  let prim := fst (Primitives.fromSyntax Primitives.sampleBind Primitives.sampleEval
                     Primitives.unitScope Primitives.seed5) in
  Primitives.isSequential prim = true /\
  exists val, Primitives.initVal prim = Some (CVInteger val) /\
    Primitives.isInitValue val = true.
Proof.
  cbn zeta.
  destruct (proj2 (stored_initial_value_is_checked Primitives.sampleBind
                     Primitives.sampleEval Primitives.unitScope Primitives.seed5)
              _ eq_refl) as [Hs (val & Hc & Hv)].
  split; [exact Hs|]. exists val. split; [|exact Hv].
  rewrite <- Hc. reflexivity.
Defined.

(** ** Nets and their delay *)

Section NetDelayFacts.

Import Scopes NetSymbols.

Variable Compilation : Type.
Variable bindTimingControl :
  TimingControlSyntax -> ASTContext -> Compilation -> TimingControl * Compilation.
Variable fromParams :
  list ExpressionSyntax -> ASTContext -> Compilation -> TimingControl * Compilation.
Variable findPotentiallyImplicitNets : ExpressionSyntax -> ElabContext -> list Token.

Local Abbreviation getDelay := (NetSymbols.getDelay Compilation bindTimingControl fromParams).

(** X12.  An implicit net never has a delay: whatever the scope it is
    added to, [getDelay] returns no delay and leaves the compilation as it
    is, without a call of a binder; and every net that a continuous
    assignment creates is such an implicit net, of the scalar logic type
    and of the default net type of the scope. *)
Theorem implicit_nets_have_no_delay syntax parentContext :
  let nets := snd (ContinuousAssign.fromSyntax findPotentiallyImplicitNets syntax
                     parentContext) in
  Forall (fun net =>
            isImplicit net = true /\
            declaredType net = Resolved LogicType /\
            netType net = getDefaultNetType (scope parentContext) /\
            isError (netType net) = false /\
            forall scope comp,
              getDelay (setParent scope net) comp =
                (None, setDelay None (setParent scope net), comp)) nets.
Proof.
  cbn zeta. rewrite fromSyntax_unfold. cbn [snd].
  apply Forall_forall. intros net Hin. rewrite list_elem_of_In in Hin.
  apply in_flat_map in Hin as [expr [_ Hin]].
  unfold ContinuousAssign.implicitNetsOf in Hin.
  destruct (isError (getDefaultNetType (scope parentContext))) eqn:Hnt;
    cbn [negb] in Hin; [destruct Hin|].
  destruct (ContinuousAssign.assignmentLeft expr) as [l|]; [|destruct Hin].
  apply in_map_iff in Hin as [ins [<- _]].
  repeat split. exact Hnt.
Qed.

(** X13.  The delay of a declared net follows its declaration: for every
    net of a declaration, once it is in a scope, [getDelay] binds the delay
    of the declaration, in a non-procedural context that looks up before
    the net, and without a delay in the declaration it returns none and
    calls no binder. *)
Theorem declared_net_delay_follows_declaration syntax scope comp :
  Forall (fun net =>
            getDelay (setParent scope net) comp =
              match declDelay syntax with
              | Some delaySyntax =>
                  let context := mkASTContext scope (LookupBefore (netLocation net))
                                   [NonProcedural] in
                  let r := bindTimingControl delaySyntax context comp in
                  (Some (fst r), setDelay (Some (fst r)) (setParent scope net), snd r)
              | None => (None, setDelay None (setParent scope net), comp)
              end)
    (NetSymbols.fromSyntax syntax).
Proof.
  unfold NetSymbols.fromSyntax. apply Forall_forall. intros net Hin.
  rewrite list_elem_of_In in Hin. apply in_map_iff in Hin as [declarator [<- _]].
  unfold NetSymbols.getDelay. cbn.
  destruct (declDelay syntax) as [delaySyntax|]; [|reflexivity].
  cbn. destruct (bindTimingControl _ _ _) as [tc comp']. reflexivity.
Qed.

End NetDelayFacts.

(** ** Genvars *)

Section GenvarFacts.

Import Genvars.

Lemma genvars_snoc ids id :
  fromSyntax (ids ++ [id]) =
  fromSyntax ids ++
  (if bool_decide (valueText id = "") then []
   else [mkGenvarSymbol (valueText id) (location id) (Some id)]).
Proof.
  unfold fromSyntax. rewrite fold_left_app. cbn [fold_left].
  destruct (bool_decide _); [now rewrite app_nil_r|reflexivity].
Qed.

(** X14.  A genvar declaration gives one genvar for each identifier that
    has a name, in the order of the declaration, named and located as the
    identifier and with it as syntax; an identifier with an empty name
    gives none, so that no genvar has an empty name. *)
Theorem genvars_are_the_named_identifiers identifiers :
  fromSyntax identifiers =
    map (fun id => mkGenvarSymbol (valueText id) (location id) (Some id))
      (List.filter (fun id => negb (bool_decide (valueText id = ""))) identifiers) /\
  Forall (fun g => name g <> "") (fromSyntax identifiers).
Proof.
  assert (H : fromSyntax identifiers =
              map (fun id => mkGenvarSymbol (valueText id) (location id) (Some id))
                (List.filter (fun id => negb (bool_decide (valueText id = "")))
                   identifiers)).
  { induction identifiers as [|id ids IH] using rev_ind; [reflexivity|].
    rewrite genvars_snoc, IH, List.filter_app, map_app. cbn [List.filter].
    destruct (bool_decide _); reflexivity. }
  split; [exact H|].
  rewrite H. apply Forall_forall. intros g Hg. rewrite list_elem_of_In in Hg.
  apply in_map_iff in Hg as [id [<- Hid]]. apply filter_In in Hid as [_ Hid].
  cbn [name]. intros Hn. rewrite bool_decide_eq_true_2 in Hid by exact Hn.
  discriminate.
Qed.

End GenvarFacts.

(** ** Binding the default skews of a clocking block *)

Section DefaultSkewFacts.

Import ClockingBlocks ClockingSkews.

Variable MemberSyntax : Type.
Variable ScopeMembers : Type.
Variable noMembers : ScopeMembers.
Variable addMembers : MemberSyntax -> ScopeMembers -> ScopeMembers.
Variable noteDefaultClocking : Scope -> SourceRange -> list Diagnostic.
Variable noteGlobalClocking : Scope -> SourceRange -> list Diagnostic.
Variable ClockingSkew : Type.
Variable emptySkew : ClockingSkew.
Variable Compilation : Type.
Variable skewFromSyntax :
  ClockingSkewSyntax -> ASTContext -> Compilation -> ClockingSkew * Compilation.

Local Abbreviation getDefaultInputSkew :=
  (ClockingSkews.getDefaultInputSkew ClockingSkew emptySkew Compilation skewFromSyntax
     ScopeMembers).
Local Abbreviation getDefaultOutputSkew :=
  (ClockingSkews.getDefaultOutputSkew ClockingSkew emptySkew Compilation skewFromSyntax
     ScopeMembers).
Local Abbreviation Cache := (SkewCache ClockingSkew).

Lemma getDefaultInputSkew_cached block parent (cache : Cache) comp skew :
  defaultInputSkew _ cache = Some skew ->
  getDefaultInputSkew block parent cache comp = Some (skew, cache, comp).
Proof. unfold ClockingSkews.getDefaultInputSkew. now intros ->. Qed.

Lemma getDefaultOutputSkew_cached block parent (cache : Cache) comp skew :
  defaultOutputSkew _ cache = Some skew ->
  getDefaultOutputSkew block parent cache comp = Some (skew, cache, comp).
Proof. unfold ClockingSkews.getDefaultOutputSkew. now intros ->. Qed.

(** X15.  The default input skew of a block built from a declaration is
    bound from the first default input skew of the declaration, in the
    parent scope and looking up before the block, or is the skew without a
    value when the declaration has none, no binder being called then.  It
    is bound once: the result is kept, the output skew is not touched, and
    every later call, even without a parent scope, returns it and leaves
    the compilation as it is.  The same holds for the default output
    skew. *)
Theorem default_skews_are_bound_once scope syntax parent (cache : Cache) comp :
  let block := fst (ClockingBlocks.fromSyntax MemberSyntax ScopeMembers noMembers
                      addMembers noteDefaultClocking noteGlobalClocking scope syntax) in
  let context :=
    mkASTContext parent (LookupBefore (location (blockName _ syntax))) [] in
  let bound skews :=
    match head skews with
    | Some skew => skewFromSyntax skew context comp
    | None => (emptySkew, comp)
    end in
  (defaultInputSkew _ cache = None ->
   let r := bound (inputSkews _ (items _ syntax)) in
   let cache' := mkSkewCache _ (Some (fst r)) (defaultOutputSkew _ cache) in
   getDefaultInputSkew block (Some parent) cache comp = Some (fst r, cache', snd r) /\
   forall parent' comp',
     getDefaultInputSkew block parent' cache' comp' = Some (fst r, cache', comp')) /\
  (defaultOutputSkew _ cache = None ->
   let r := bound (outputSkews _ (items _ syntax)) in
   let cache' := mkSkewCache _ (defaultInputSkew _ cache) (Some (fst r)) in
   getDefaultOutputSkew block (Some parent) cache comp = Some (fst r, cache', snd r) /\
   forall parent' comp',
     getDefaultOutputSkew block parent' cache' comp' = Some (fst r, cache', comp')).
Proof.
  cbn zeta. unfold ClockingBlocks.fromSyntax. cbn [fst].
  set (ds0 := noteClocking _ _ _ _ _).
  destruct (item_loop MemberSyntax ScopeMembers addMembers (items _ syntax)
              None None noMembers ds0) as (Hi & Ho & _).
  cbn zeta in Hi, Ho. cbn [keep] in Hi, Ho.
  split; intros Hc.
  - split; [|intros parent' comp'; now apply getDefaultInputSkew_cached].
    unfold ClockingSkews.getDefaultInputSkew. rewrite Hc.
    cbn [inputSkewSyntax blockLocation]. rewrite Hi. clear Hi Ho.
    destruct (head (inputSkews _ _)) as [skew|]; [|reflexivity].
    destruct (skewFromSyntax _ _ _) as [s comp']. reflexivity.
  - split; [|intros parent' comp'; now apply getDefaultOutputSkew_cached].
    unfold ClockingSkews.getDefaultOutputSkew. rewrite Hc.
    cbn [outputSkewSyntax blockLocation]. rewrite Ho. clear Hi Ho.
    destruct (head (outputSkews _ _)) as [skew|]; [|reflexivity].
    destruct (skewFromSyntax _ _ _) as [s comp']. reflexivity.
Qed.

End DefaultSkewFacts.

(** In the sample block the input skew is bound from [#1] by one call of
    the binder. *)
Lemma default_skews_are_bound_once_witness :
  ClockingSkews.getDefaultInputSkew string "" nat MoreSamples.countingSkew (list string)
    MoreSamples.sampleBlock (Some Samples.moduleBody) (ClockingSkews.noSkews string) 0 =
  Some ("#1", ClockingSkews.mkSkewCache string (Some "#1") None, 1).
Proof.
  exact (proj1 (proj1 (default_skews_are_bound_once string (list string) []
                         (fun x ms => ms ++ [x]) (fun _ _ => []) (fun _ _ => [])
                         string "" nat MoreSamples.countingSkew
                         Samples.moduleBody Samples.sampleClocking Samples.moduleBody
                         (ClockingSkews.noSkews string) 0) eq_refl)).
Defined.

(** ** Variables of a rand-sequence rule *)

Section RuleVariableFacts.

Import RandSeq.

Variable unqualified : string -> option Found.

Local Abbreviation countProd := (RandSeq.countProd unqualified).
Local Abbreviation countIn := (RandSeq.countIn unqualified).
Local Abbreviation referenced := (RandSeq.referenced unqualified).
Local Abbreviation createRuleVariables := (RandSeq.createRuleVariables unqualified).

Lemma countIn_items m p : countIn m p = fold_left countProd (itemsOf p) m.
Proof.
  destruct p as [item| |c ifItem [elseItem|]|e item|e items]; try reflexivity.
  cbn [RandSeq.countIn itemsOf]. revert m.
  induction items as [|ci items IH]; intros m; [reflexivity|].
  cbn [fold_left map]. apply IH.
Qed.

Lemma count_loop ps m :
  fold_left countIn ps m = fold_left countProd (flat_map itemsOf ps) m.
Proof.
  revert m. induction ps as [|p ps IH]; intros m; [reflexivity|].
  cbn [fold_left flat_map]. rewrite fold_left_app, IH, countIn_items. reflexivity.
Qed.

Lemma referenced_cons item items :
  omap referenced (item :: items) =
  match referenced item with
  | Some prod => prod :: omap referenced items
  | None => omap referenced items
  end.
Proof. reflexivity. Qed.

Lemma count_references items m :
  fold_left countProd items m = fold_left emplaceOrCount (omap referenced items) m.
Proof.
  revert m. induction items as [|item items IH]; intros m; [reflexivity|].
  cbn [fold_left]. rewrite referenced_cons, IH.
  unfold RandSeq.countProd, RandSeq.referenced.
  destruct (unqualified _) as [[prod|loc]|]; try reflexivity.
  destruct (negb _); reflexivity.
Qed.

Lemma distinct_snoc refs prod :
  distinct (refs ++ [prod]) =
  if bool_decide (address prod ∈ map address (distinct refs)) then distinct refs
  else distinct refs ++ [prod].
Proof. unfold distinct. rewrite fold_left_app. reflexivity. Qed.

Lemma count_snoc refs prod k :
  count_occ Nat.eq_dec (map address (refs ++ [prod])) k =
  count_occ Nat.eq_dec (map address refs) k +
  (if bool_decide (address prod = k) then 1 else 0).
Proof.
  rewrite map_app, count_occ_app. cbn [map count_occ].
  destruct (Nat.eq_dec (address prod) k) as [Heq|Hne].
  - now rewrite bool_decide_eq_true_2.
  - now rewrite bool_decide_eq_false_2.
Qed.

Lemma same_address (l : list Production) p q :
  NoDup (map address l) -> p ∈ l -> q ∈ l -> address p = address q -> p = q.
Proof.
  induction l as [|x l IH]; intros Hnd Hp Hq Ha; [now apply elem_of_nil in Hp|].
  cbn [map] in Hnd. apply NoDup_cons in Hnd as [Hx Hnd].
  apply elem_of_cons in Hp as [->|Hp]; apply elem_of_cons in Hq as [->|Hq].
  - reflexivity.
  - exfalso. apply Hx. rewrite Ha. apply list_elem_of_fmap_2. exact Hq.
  - exfalso. apply Hx. rewrite <- Ha. apply list_elem_of_fmap_2. exact Hp.
  - now apply IH.
Qed.

(** The map after counting a list of references, against the distinct
    productions of the list. *)
Lemma counted refs :
  let m := fold_left emplaceOrCount refs ∅ in
  NoDup (map address (distinct refs)) /\
  (forall k p c,
     m !! k = Some (p, c) <->
     p ∈ distinct refs /\ address p = k /\
     c = count_occ Nat.eq_dec (map address refs) k) /\
  (forall p, p ∈ refs -> is_Some (m !! address p)) /\
  (forall p, p ∈ distinct refs -> p ∈ refs).
Proof.
  induction refs as [|prod refs IH] using rev_ind; cbn zeta.
  - split; [constructor|]. split; [|split].
    + intros k p c. cbn [fold_left]. rewrite lookup_empty. split; [discriminate|].
      intros [H _]. now apply elem_of_nil in H.
    + intros p H. now apply elem_of_nil in H.
    + intros p H. now apply elem_of_nil in H.
  - cbn zeta in IH. destruct IH as (Hnd & Hmap & Hall & Hsub).
    rewrite fold_left_app. cbn [fold_left].
    set (m := fold_left emplaceOrCount refs ∅) in *.
    rewrite distinct_snoc. unfold emplaceOrCount.
    destruct (m !! address prod) as [[q c]|] eqn:Hm.
    + (* counted once more *)
      destruct (proj1 (Hmap _ _ _) Hm) as (Hq & Haq & Hc).
      rewrite bool_decide_eq_true_2
        by (rewrite <- Haq; apply list_elem_of_fmap_2; exact Hq).
      split; [exact Hnd|]. split; [|split].
      * intros k p c'. rewrite count_snoc.
        destruct (decide (address prod = k)) as [Hk|Hk].
        -- subst k. rewrite lookup_insert_eq, bool_decide_eq_true_2 by reflexivity.
           split.
           ++ intros [= <- <-]. repeat split; [exact Hq|exact Haq|lia].
           ++ intros (Hp & Hap & ->).
              rewrite (same_address _ p q Hnd Hp Hq) by congruence.
              f_equal. f_equal. lia.
        -- rewrite lookup_insert_ne by exact Hk.
           rewrite bool_decide_eq_false_2 by exact Hk.
           rewrite Nat.add_0_r. apply Hmap.
      * intros p Hp. destruct (decide (address prod = address p)) as [Hk|Hk].
        -- rewrite <- Hk, lookup_insert_eq. eexists; reflexivity.
        -- rewrite lookup_insert_ne by exact Hk.
           apply elem_of_app in Hp as [Hp|Hp]; [now apply Hall|].
           apply list_elem_of_singleton in Hp. now subst p.
      * intros p Hp. apply elem_of_app. left. now apply Hsub.
    + (* entered *)
      assert (Hfresh : address prod ∉ map address (distinct refs)).
      { intros Hin. apply list_elem_of_fmap in Hin as (q & Haq & Hq).
        assert (Hsome : m !! address prod =
                        Some (q, count_occ Nat.eq_dec (map address refs) (address prod)))
          by (apply Hmap; repeat split; [exact Hq|now symmetry]).
        rewrite Hm in Hsome. discriminate. }
      assert (Hzero : count_occ Nat.eq_dec (map address refs) (address prod) = 0).
      { apply count_occ_not_In. intros Hin. apply in_map_iff in Hin as (q & Haq & Hq).
        apply list_elem_of_In in Hq. destruct (Hall q Hq) as [x Hx].
        rewrite Haq, Hm in Hx. discriminate. }
      rewrite bool_decide_eq_false_2 by exact Hfresh.
      split; [|split; [|split]].
      * rewrite map_app. cbn [map]. apply NoDup_app. split; [exact Hnd|].
        split; [|apply NoDup_singleton].
        intros x Hx Hx'. apply list_elem_of_singleton in Hx'. subst x.
        exact (Hfresh Hx).
      * intros k p c'. rewrite count_snoc.
        destruct (decide (address prod = k)) as [Hk|Hk].
        -- subst k. rewrite lookup_insert_eq, bool_decide_eq_true_2 by reflexivity.
           rewrite Hzero. split.
           ++ intros [= <- <-]. repeat split. apply elem_of_app. right.
              now apply list_elem_of_singleton.
           ++ intros (Hp & Hap & ->). apply elem_of_app in Hp as [Hp|Hp].
              ** exfalso. apply Hfresh. rewrite <- Hap.
                 apply list_elem_of_fmap_2. exact Hp.
              ** apply list_elem_of_singleton in Hp. now subst p.
        -- rewrite lookup_insert_ne by exact Hk.
           rewrite bool_decide_eq_false_2 by exact Hk.
           rewrite Nat.add_0_r. rewrite Hmap. split.
           ++ intros (Hp & Hap & ->). repeat split; [|exact Hap].
              apply elem_of_app. now left.
           ++ intros (Hp & Hap & ->). repeat split; [|exact Hap].
              apply elem_of_app in Hp as [Hp|Hp]; [exact Hp|].
              apply list_elem_of_singleton in Hp. subst p. contradiction.
      * intros p Hp. destruct (decide (address prod = address p)) as [Hk|Hk].
        -- rewrite <- Hk, lookup_insert_eq. eexists; reflexivity.
        -- rewrite lookup_insert_ne by exact Hk.
           apply elem_of_app in Hp as [Hp|Hp]; [now apply Hall|].
           apply list_elem_of_singleton in Hp. now subst p.
      * intros p Hp. apply elem_of_app in Hp as [Hp|Hp].
        -- apply elem_of_app. left. now apply Hsub.
        -- apply elem_of_app. now right.
Qed.

(** X16.  A rule gets one variable for each production with a value that
    its items refer to, whatever the number of references: the variables
    are, in some order, those of the distinct referenced productions, each
    named as its production, of the production's type when it is referred
    to once and otherwise an array of that type with the range from 1 to
    the number of references.  Every variable is automatic, constant,
    generated by the compiler and located at the first token of the
    rule. *)
Theorem rule_variables_count_references syntax :
  let refs := references unqualified syntax in
  Permutation (createRuleVariables syntax)
    (map (fun prod => ruleVariable syntax prod (timesReferenced refs prod))
       (distinct refs)) /\
  NoDup (map address (distinct refs)) /\
  (forall prod, List.In prod (distinct refs) ->
     List.In prod refs /\ 1 <= timesReferenced refs prod) /\
  (forall prod, List.In prod refs ->
     List.In (address prod) (map address (distinct refs))) /\
  Forall (fun v =>
            VariableSymbols.lifetime (variable v) = Automatic /\
            VariableSymbols.isConstVar (variable v) = true /\
            compilerGenerated v = true /\
            VariableSymbols.varLocation (variable v) = location (ruleFirstToken syntax))
    (createRuleVariables syntax).
Proof.
  cbn zeta. unfold references, ruleItems.
  set (refs := omap referenced (flat_map itemsOf (prods syntax))).
  destruct (counted refs) as (Hnd & Hmap & Hall & Hsub). cbn zeta in Hmap, Hall.
  assert (Hm : fold_left countIn (prods syntax) ∅ = fold_left emplaceOrCount refs ∅)
    by (rewrite count_loop, count_references; reflexivity).
  split; [|split; [|split; [|split]]].
  - unfold RandSeq.createRuleVariables. cbn zeta. rewrite Hm.
    set (m := fold_left emplaceOrCount refs ∅) in *.
    transitivity
      (map (fun '(_, (prod, count)) => ruleVariable syntax prod count)
         (map (fun prod => (address prod, (prod, timesReferenced refs prod)))
            (distinct refs))).
    + apply Permutation_map. apply NoDup_Permutation.
      * apply NoDup_map_to_list.
      * apply (NoDup_fmap_1 fst). rewrite <- list_fmap_compose.
        exact Hnd.
      * intros [k [p c]]. rewrite elem_of_map_to_list, Hmap. split.
        -- intros (Hp & <- & ->). apply list_elem_of_fmap.
           exists p. split; [reflexivity|exact Hp].
        -- intros Hin. apply list_elem_of_fmap in Hin as (q & [= -> -> ->] & Hq).
           repeat split. exact Hq.
    + rewrite map_map. reflexivity.
  - exact Hnd.
  - intros prod Hin. apply list_elem_of_In in Hin. pose proof (Hsub _ Hin) as Hr.
    split; [now apply list_elem_of_In|].
    unfold timesReferenced.
    apply (proj1 (count_occ_In Nat.eq_dec _ _)). apply in_map.
    now apply list_elem_of_In.
  - intros prod Hin. apply list_elem_of_In in Hin.
    destruct (Hall _ Hin) as [[q c] Hq]. apply Hmap in Hq as (Hq & Haq & _).
    rewrite <- Haq. apply in_map. now apply list_elem_of_In.
  - unfold RandSeq.createRuleVariables. apply Forall_forall. intros v Hv.
    rewrite list_elem_of_In in Hv. apply in_map_iff in Hv as ([k [p c]] & <- & _).
    repeat split.
Qed.

End RuleVariableFacts.

(** In the rule [a b a v] the production [a] is referred to twice and [b]
    once, and [v] has no value: the variables are an array for [a] and a
    variable of the type of [b]. *)
Lemma rule_variables_count_references_witness :
  List.In MoreSamples.prodA
    (RandSeq.references MoreSamples.findSample MoreSamples.rule_abav) /\
  RandSeq.timesReferenced
    (RandSeq.references MoreSamples.findSample MoreSamples.rule_abav)
    MoreSamples.prodA >= 1.
Proof.
  apply (proj1 (proj2 (proj2 (rule_variables_count_references MoreSamples.findSample
                                MoreSamples.rule_abav)))).
  left. reflexivity.
Defined.

Example sample_rule_variables :
  map RandSeq.variableType
    (RandSeq.createRuleVariables MoreSamples.findSample MoreSamples.rule_abav) =
  [RandSeq.OfReturnType (RandSeq.ValueType "string");
   RandSeq.FixedSizeUnpackedArray (RandSeq.ValueType "int") 1 2].
Proof. vm_compute. reflexivity. Qed.

(** ** Case productions of a rand sequence *)

Section CaseProdFacts.

Import RandSeq.

Variable unqualifiedAt : string -> SourceRange -> option Found.
Variable bindArgs :
  list ExpressionSyntax -> Production -> SourceRange -> list Expression * list RsDiagnostic.
Variable bindMembershipExpressions :
  ExpressionSyntax -> list ExpressionSyntax -> list Expression * list RsDiagnostic.

Local Abbreviation createProdItem := (RandSeq.createProdItem unqualifiedAt bindArgs).
Local Abbreviation collectStep := (RandSeq.collectStep unqualifiedAt bindArgs).
Local Abbreviation perExpression := (RandSeq.perExpression unqualifiedAt bindArgs).
Local Abbreviation createCaseProd :=
  (RandSeq.createCaseProd unqualifiedAt bindArgs bindMembershipExpressions).

Lemma standardItems_cons item items :
  standardItems (item :: items) =
  match standardOf item with
  | Some x => x :: standardItems items
  | None => standardItems items
  end.
Proof. reflexivity. Qed.

Lemma defaults_cons item items :
  omap defaultOf (item :: items) =
  match defaultOf item with
  | Some x => x :: omap defaultOf items
  | None => omap defaultOf items
  end.
Proof. reflexivity. Qed.

Lemma collectStep_standard es ps d ds exprs it :
  collectStep (mkCollected es ps d ds) (StandardRsCaseItem exprs it) =
  mkCollected (es ++ exprs) (ps ++ repeat (fst (createProdItem it)) (length exprs)) d
    (ds ++ snd (createProdItem it)).
Proof. unfold RandSeq.collectStep. now destruct (createProdItem it). Qed.

Lemma collectStep_default es ps d ds it :
  collectStep (mkCollected es ps d ds) (DefaultRsCaseItem it) =
  match d with
  | Some _ => mkCollected es ps d ds
  | None => mkCollected es ps (Some (fst (createProdItem it)))
              (ds ++ snd (createProdItem it))
  end.
Proof.
  unfold RandSeq.collectStep. cbn [defItem]. destruct d; [reflexivity|].
  now destruct (createProdItem it).
Qed.

(** The first loop, from any state. *)
Lemma collect_loop items es ps d ds :
  let st := fold_left collectStep items (mkCollected es ps d ds) in
  collectedExpressions st = es ++ concat (map fst (standardItems items)) /\
  collectedProds st = ps ++ perExpression items /\
  defItem st =
    match d with
    | Some pi => Some pi
    | None => (fun it => fst (createProdItem it)) <$> head (omap defaultOf items)
    end.
Proof.
  revert es ps d ds. induction items as [|item items IH]; intros es ps d ds; cbn zeta.
  - cbn. rewrite !app_nil_r. now destruct d.
  - cbn [fold_left]. unfold RandSeq.perExpression.
    rewrite standardItems_cons, defaults_cons.
    destruct item as [exprs it|it]; cbn [standardOf defaultOf].
    + rewrite collectStep_standard.
      destruct (IH (es ++ exprs) (ps ++ repeat (fst (createProdItem it)) (length exprs))
                  d (ds ++ snd (createProdItem it))) as (H1 & H2 & H3).
      rewrite H1, H2, H3. unfold RandSeq.perExpression.
      cbn [flat_map map concat fst]. rewrite <- !app_assoc. repeat split.
    + rewrite collectStep_default. destruct d as [pi|].
      * apply (IH es ps (Some pi) ds).
      * destruct (IH es ps (Some (fst (createProdItem it)))
                    (ds ++ snd (createProdItem it))) as (H1 & H2 & H3).
        rewrite H1, H2, H3. repeat split.
Qed.

(** The second loop, from any position of the two iterators that leaves
    enough to read. *)
Lemma group_loop items bs ps acc :
  length (concat (map fst (standardItems items))) <= length bs ->
  length (standardItems items) <= length ps ->
  exists c,
    fold_left groupStep items (Some (mkCursor bs ps acc)) = Some c /\
    exists new,
      built c = acc ++ new /\
      map caseItem new = firstn (length (standardItems items)) ps /\
      concat (map caseExpressions new) =
        firstn (length (concat (map fst (standardItems items)))) bs /\
      map (fun ci => length (caseExpressions ci)) new =
        map (fun s => length (fst s)) (standardItems items).
Proof.
  revert bs ps acc.
  induction items as [|item items IH]; intros bs ps acc Hb Hp.
  - eexists. split; [reflexivity|]. exists []. cbn. now rewrite app_nil_r.
  - cbn [fold_left]. destruct item as [exprs it|it].
    + rewrite standardItems_cons in *. cbn [standardOf] in *.
      cbn [map concat fst length] in Hb, Hp. rewrite length_app in Hb.
      destruct ps as [|pi rest]; [cbn in Hp; lia|]. cbn [length] in Hp.
      cbn [groupStep boundIt prodIt built].
      rewrite bool_decide_eq_true_2 by lia.
      destruct (IH (skipn (length exprs) bs) rest
                  (acc ++ [mkCaseItem (firstn (length exprs) bs) pi]))
        as (c & Hc & new & Hn1 & Hn2 & Hn3 & Hn4).
      { rewrite length_skipn. lia. }
      { lia. }
      exists c. split; [exact Hc|].
      exists (mkCaseItem (firstn (length exprs) bs) pi :: new).
      rewrite Hn1, <- app_assoc. split; [reflexivity|].
      cbn [map concat fst length caseItem caseExpressions firstn].
      rewrite Hn2, Hn3, Hn4. repeat split.
      * rewrite length_app. rewrite <- (firstn_skipn (length exprs) bs) at 3.
        rewrite firstn_app, length_firstn.
        replace (Nat.min (length exprs) (length bs)) with (length exprs) by lia.
        rewrite firstn_firstn.
        replace (Nat.min _ _) with (length exprs) by lia.
        f_equal. f_equal. lia.
      * rewrite length_firstn. f_equal. lia.
    + rewrite standardItems_cons in *. cbn [standardOf] in *.
      cbn [groupStep]. now apply IH.
Qed.

(** X17.  When the membership binder returns the case expression followed
    by one expression per item expression, and every item has an
    expression, a case production is built: its case items are those of the
    standard items in order, each with as many bound expressions as the
    item has, taken in order; the default is the first default item; and
    the k-th case item is paired with the k-th entry of the list that holds
    one production item per item expression, which is the production item
    of the k-th item when every item has one expression. *)
Theorem case_items_take_productions_in_order expr items bound ds :
  bindMembershipExpressions expr (concat (map fst (standardItems items))) = (bound, ds) ->
  length bound = S (length (concat (map fst (standardItems items)))) ->
  Forall (fun s => fst s <> []) (standardItems items) ->
  exists prod,
    fst (createCaseProd expr items) = Some prod /\
    head bound = Some (caseExpr prod) /\
    concat (map caseExpressions (caseItems prod)) = tail bound /\
    map (fun ci => length (caseExpressions ci)) (caseItems prod) =
      map (fun s => length (fst s)) (standardItems items) /\
    map caseItem (caseItems prod) =
      firstn (length (standardItems items)) (perExpression items) /\
    defaultItem prod =
      ((fun it => fst (createProdItem it)) <$> head (omap defaultOf items)) /\
    (Forall (fun s => length (fst s) = 1) (standardItems items) ->
     map caseItem (caseItems prod) =
       map (fun s => fst (createProdItem (snd s))) (standardItems items)).
Proof.
  intros Hbind Hlen Hne.
  destruct (collect_loop items [] [] None []) as (H1 & H2 & H3).
  cbn zeta in H1, H2, H3. cbn [app] in H1, H2.
  unfold RandSeq.createCaseProd. cbn zeta.
  rewrite H1, H2, H3, Hbind. cbn [fst].
  destruct bound as [|first rest]; [discriminate|].
  cbn [length] in Hlen. injection Hlen as Hlen.
  assert (Hcount : length (standardItems items) <= length (perExpression items)).
  { unfold RandSeq.perExpression. clear -Hne.
    induction (standardItems items) as [|[exprs it] l IH]; [reflexivity|].
    apply Forall_cons in Hne as [Hx Hl]. cbn [flat_map length fst] in *.
    rewrite length_app, repeat_length.
    destruct exprs; [contradiction|]. cbn [length]. specialize (IH Hl). lia. }
  destruct (group_loop items rest (perExpression items) [])
    as (c & Hc & new & Hn1 & Hn2 & Hn3 & Hn4); [lia|exact Hcount|].
  rewrite Hc. cbn [app] in Hn1. rewrite Hn1.
  exists (mkCaseProd first new
            ((fun it => fst (createProdItem it)) <$> head (omap defaultOf items))).
  cbn [caseExpr caseItems defaultItem head tail].
  repeat split; try assumption.
  - rewrite Hn3, <- Hlen. apply firstn_all.
  - intros Hone. rewrite Hn2. unfold RandSeq.perExpression. clear -Hone.
    induction (standardItems items) as [|[exprs it] l IH]; [reflexivity|].
    apply Forall_cons in Hone as [Hx Hl]. cbn [fst] in Hx.
    cbn [flat_map length map fst snd]. rewrite Hx. cbn [repeat app firstn].
    f_equal. now apply IH.
Qed.

End CaseProdFacts.

(** [case (1) 0, 1: a; 2: b; default: v; endcase]: the first item has two
    expressions, so the list with one production item per expression is
    [a; a; b], and the second case item, which is the one of [b], is paired
    with [a]. *)
Lemma case_items_take_productions_in_order_witness :
  exists prod,
    fst (RandSeq.createCaseProd (fun n _ => MoreSamples.findSample n) MoreSamples.noArgs
           MoreSamples.bindAll (LiteralExpression (mkToken "1" 300))
           MoreSamples.caseItems) = Some prod /\
    map (fun ci => RandSeq.name <$> RandSeq.target (RandSeq.caseItem ci))
      (RandSeq.caseItems prod) = [Some "a"; Some "a"] /\
    (RandSeq.name <$> (RandSeq.defaultItem prod ≫= RandSeq.target)) = Some "v".
Proof.
  destruct (case_items_take_productions_in_order (fun n _ => MoreSamples.findSample n)
              MoreSamples.noArgs MoreSamples.bindAll
              (LiteralExpression (mkToken "1" 300)) MoreSamples.caseItems _ _
              eq_refl eq_refl)
    as (prod & Hp & _ & _ & _ & Hitems & Hdef & _).
  { repeat constructor; discriminate. }
  exists prod. split; [exact Hp|]. split.
  - rewrite <- (map_map RandSeq.caseItem (fun pi => RandSeq.name <$> RandSeq.target pi)).
    rewrite Hitems. reflexivity.
  - rewrite Hdef. reflexivity.
Defined.

(** ** Ports of sequences, properties and let declarations *)

Section AssertionPortFacts.

Import AssertionPorts.

Variable owner : OwnerKind.

Local Abbreviation buildPort := (AssertionPorts.buildPort owner).
Local Abbreviation portStep := (AssertionPorts.portStep owner).
Local Abbreviation buildPorts := (AssertionPorts.buildPorts owner).

Lemma portStep_unfold st item :
  portStep st item =
  mkPortState (snd (fst (buildPort (lastType st) (lastLocalDir st) item)))
    (localVarDirection (fst (fst (buildPort (lastType st) (lastLocalDir st) item))))
    (results st ++ [fst (fst (buildPort (lastType st) (lastLocalDir st) item))])
    (portDiags st ++ snd (buildPort (lastType st) (lastLocalDir st) item)).
Proof.
  unfold AssertionPorts.portStep.
  now destruct (buildPort (lastType st) (lastLocalDir st) item) as [[port lt] ds].
Qed.

Lemma buildPort_fields lt ld item :
  let port := fst (fst (buildPort lt ld item)) in
  let dir :=
    match local item with
    | Some _ => Some (match direction item with Some (d, _) => d | None => In end)
    | None => if isEmpty (type item) then ld else None
    end in
  portName port = valueText (name item) /\
  portLocation port = location (name item) /\
  dimensionSyntax port = dimensions item /\
  localVarDirection port = dir /\
  declaredType port =
    (if isEmpty (type item) then
       match local item, lt with
       | None, Some t => TypeSyntax t
       | _, _ => UntypedType
       end
     else TypeSyntax (type item)) /\
  defaultValueSyntax port =
    (if isOutput dir then None else fst <$> defaultValue item) /\
  requireSequenceType port = bool_decide (is_Some dir).
Proof.
  cbn zeta. unfold AssertionPorts.buildPort.
  destruct (local item) as [l|], (isEmpty (type item)), lt as [t|]; cbn [fst snd];
    destruct (defaultValue item) as [[e r]|];
    try (match goal with |- context [isOutput ?d] => destruct (isOutput d) end);
    cbn [fst snd portName portLocation dimensionSyntax localVarDirection declaredType
         defaultValueSyntax requireSequenceType fmap option_fmap option_map];
    repeat split.
Qed.

Lemma buildPort_builtFrom lt ld item :
  let port := fst (fst (buildPort lt ld item)) in
  builtFrom item port /\
  requireSequenceType port = bool_decide (is_Some (localVarDirection port)).
Proof.
  cbn zeta.
  destruct (buildPort_fields lt ld item) as (H1 & H2 & H3 & H4 & H5 & H6 & H7).
  cbn zeta in *. split; [|now rewrite H7, H4].
  unfold builtFrom. rewrite H1, H2, H3, H4, H5, H6. clear.
  split; [reflexivity|]. split; [reflexivity|]. split; [reflexivity|].
  split; [now intros ->|]. split; [|split; [|reflexivity]].
  - intros [l Hl]. rewrite Hl. split; [reflexivity|]. now intros ->.
  - intros Hn He. now rewrite Hn, He.
Qed.

Lemma port_loop items st :
  exists new,
    results (fold_left portStep items st) = results st ++ new /\
    Forall2 builtFrom items new /\
    Forall (fun port =>
              requireSequenceType port = bool_decide (is_Some (localVarDirection port)))
      new.
Proof.
  revert st. induction items as [|item items IH]; intros st.
  - exists []. cbn. rewrite app_nil_r. repeat split; constructor.
  - cbn [fold_left]. rewrite portStep_unfold.
    match goal with
    | |- context [fold_left _ items ?s] => destruct (IH s) as (new & Hr & Hb & Hf)
    end.
    cbn [results] in Hr.
    destruct (buildPort_builtFrom (lastType st) (lastLocalDir st) item) as [H1 H2].
    eexists (_ :: new). rewrite Hr, <- app_assoc. split; [reflexivity|].
    split; constructor; assumption.
Qed.

(** X18.  There is one port per item of the port list, in order, named
    and located as the item and with its dimensions; an item with a type
    gives that type, an item with [local] its direction, input when none is
    written, and without a type no type at all; a default value is kept
    unless the port is an output or inout local, and is dropped then; and a
    port requires a sequence type exactly when it has a local direction. *)
Theorem assertion_ports_follow_items items :
  Forall2 builtFrom items (fst (buildPorts items)) /\
  Forall (fun port =>
            requireSequenceType port = bool_decide (is_Some (localVarDirection port)))
    (fst (buildPorts items)).
Proof.
  unfold AssertionPorts.buildPorts. cbn [fst].
  destruct (port_loop items (mkPortState None None [] [])) as (new & Hr & Hb & Hf).
  cbn [results app] in Hr. rewrite Hr. split; assumption.
Qed.

Lemma port_loop_length items st :
  exists new,
    results (fold_left portStep items st) = results st ++ new /\
    length new = length items.
Proof.
  destruct (port_loop items st) as (new & Hr & Hb & _).
  exists new. split; [exact Hr|]. symmetry. exact (Forall2_length _ _ _ Hb).
Qed.

(** Items that give a name only keep the type and the direction that are
    handed on. *)
Lemma followers_loop items st t :
  Forall (fun item => nameOnly item = true) items ->
  lastType st = Some t ->
  exists new,
    let st' := fold_left portStep items st in
    results st' = results st ++ new /\
    length new = length items /\
    lastType st' = Some t /\ lastLocalDir st' = lastLocalDir st /\
    Forall (fun port => declaredType port = TypeSyntax t /\
                        localVarDirection port = lastLocalDir st) new.
Proof.
  revert st. induction items as [|item items IH]; intros st Hall Ht.
  - exists []. cbn. rewrite app_nil_r. repeat split; [exact Ht|constructor].
  - apply Forall_cons in Hall as [Hitem Hall]. cbn [fold_left].
    unfold nameOnly in Hitem. apply andb_true_iff in Hitem as [Hloc Hty].
    assert (Hnone : local item = None).
    { destruct (local item); [|reflexivity].
      rewrite bool_decide_eq_true_2 in Hloc by (eexists; reflexivity). discriminate. }
    assert (Hstep : exists port,
               portStep st item =
               mkPortState (Some t) (lastLocalDir st) (results st ++ [port])
                 (portDiags st ++ snd (buildPort (lastType st) (lastLocalDir st) item)) /\
               declaredType port = TypeSyntax t /\
               localVarDirection port = lastLocalDir st).
    { rewrite portStep_unfold. unfold AssertionPorts.buildPort.
      rewrite Hnone, Hty, Ht. cbn [fst snd].
      destruct (defaultValue item) as [[e r]|]; [destruct (isOutput _)|];
        cbn [fst snd localVarDirection]; eexists; repeat split. }
    destruct Hstep as (port & Hstep & Hd & Hl). rewrite Hstep.
    destruct (IH (mkPortState (Some t) (lastLocalDir st) (results st ++ [port])
                    (portDiags st ++
                     snd (buildPort (lastType st) (lastLocalDir st) item)))
                Hall eq_refl) as (new & Hr & Hlen & Hlt & Hld & Hf).
    cbn zeta in *. cbn [results lastLocalDir] in *.
    exists (port :: new). rewrite Hr, <- app_assoc.
    repeat split; try assumption.
    + cbn. now rewrite Hlen.
    + constructor; [split; assumption|exact Hf].
Qed.

(** X19.  A type is handed on: the items behind an item with a type that
    give a name only, neither [local] nor a type of their own, get the type
    of that item and its local direction, whatever comes before or
    after. *)
Theorem port_type_is_inherited before typed followers after :
  isEmpty (type typed) = false ->
  Forall (fun item => nameOnly item = true) followers ->
  exists pb port pf pa,
    fst (buildPorts (before ++ typed :: followers ++ after)) = pb ++ port :: pf ++ pa /\
    length pb = length before /\ length pf = length followers /\
    length pa = length after /\
    declaredType port = TypeSyntax (type typed) /\
    Forall (fun q => declaredType q = TypeSyntax (type typed) /\
                     localVarDirection q = localVarDirection port) pf.
Proof.
  intros Hty Hall. unfold AssertionPorts.buildPorts. cbn [fst].
  rewrite fold_left_app. cbn [fold_left]. rewrite fold_left_app.
  set (st0 := mkPortState None None [] []).
  destruct (port_loop_length before st0) as (pb & Hpb & Hlb).
  set (st1 := fold_left portStep before st0) in *.
  cbn [results app] in Hpb.
  assert (Hstep : exists port,
             lastType (portStep st1 typed) = Some (type typed) /\
             lastLocalDir (portStep st1 typed) = localVarDirection port /\
             results (portStep st1 typed) = pb ++ [port] /\
             declaredType port = TypeSyntax (type typed)).
  { rewrite portStep_unfold. cbn [lastType lastLocalDir results]. rewrite Hpb.
    eexists. split; [|split; [reflexivity|split; [reflexivity|]]].
    - unfold AssertionPorts.buildPort. rewrite Hty.
      destruct (local typed); cbn [fst snd];
        destruct (defaultValue typed) as [[e r]|]; [destruct (isOutput _)| |destruct (isOutput _)|];
        reflexivity.
    - unfold AssertionPorts.buildPort. rewrite Hty.
      destruct (local typed); cbn [fst snd];
        destruct (defaultValue typed) as [[e r]|]; [destruct (isOutput _)| |destruct (isOutput _)|];
        reflexivity. }
  destruct Hstep as (port & Hlt & Hld & Hres & Hdecl).
  destruct (followers_loop followers (portStep st1 typed) (type typed) Hall Hlt)
    as (pf & Hpf & Hlf & _ & _ & Hf).
  cbn zeta in Hpf. rewrite Hld in Hf.
  destruct (port_loop_length after (fold_left portStep followers (portStep st1 typed)))
    as (pa & Hpa & Hla).
  exists pb, port, pf, pa. rewrite Hpa, Hpf, Hres, <- !app_assoc.
  repeat split; assumption.
Qed.

(** *** Reports on the type of a port *)

Lemma withPortCode_app c ds1 ds2 :
  withPortCode c (ds1 ++ ds2) = withPortCode c ds1 ++ withPortCode c ds2.
Proof. apply List.filter_app. Qed.

Lemma buildPort_type_reports lt ld item :
  let ds := snd (buildPort lt ld item) in
  withPortCode PropertyPortInSeq ds =
    (if bool_decide (owner = Sequence) &&
        bool_decide (typeKind (type item) = PropertyType)
     then [mkPortDiagnostic PropertyPortInSeq (typeRange (type item)) []]
     else []) /\
  withPortCode PropertyPortInLet ds =
    (if bool_decide (owner = LetDecl) &&
        (bool_decide (typeKind (type item) = PropertyType) ||
         bool_decide (typeKind (type item) = SequenceType))
     then [mkPortDiagnostic PropertyPortInLet (typeRange (type item))
             [valueText (typeFirstToken (type item))]]
     else []).
Proof.
  cbn zeta. unfold AssertionPorts.buildPort, isEmpty.
  destruct (local item) as [l|], (typeKind (type item)) as [[|] [|]| | | |], lt as [t|];
    cbn [negb andb fst snd];
    destruct (defaultValue item) as [[e r]|];
    try (match goal with |- context [isOutput ?d] => destruct (isOutput d) end);
    cbn [fst snd];
    destruct owner; split;
    try reflexivity;
    destruct (direction item) as [[[| | |] rr]|], (dimensions item); reflexivity.
Qed.

Lemma type_reports_loop items st :
  withPortCode PropertyPortInSeq (portDiags (fold_left portStep items st)) =
    withPortCode PropertyPortInSeq (portDiags st) ++
    (if bool_decide (owner = Sequence)
     then map (fun item => mkPortDiagnostic PropertyPortInSeq (typeRange (type item)) [])
            (List.filter (fun item => bool_decide (typeKind (type item) = PropertyType))
               items)
     else []) /\
  withPortCode PropertyPortInLet (portDiags (fold_left portStep items st)) =
    withPortCode PropertyPortInLet (portDiags st) ++
    (if bool_decide (owner = LetDecl)
     then map (fun item => mkPortDiagnostic PropertyPortInLet (typeRange (type item))
                             [valueText (typeFirstToken (type item))])
            (List.filter
               (fun item => bool_decide (typeKind (type item) = PropertyType) ||
                            bool_decide (typeKind (type item) = SequenceType))
               items)
     else []).
Proof.
  revert st. induction items as [|item items IH]; intros st.
  - cbn. destruct (bool_decide _), (bool_decide _); now rewrite !app_nil_r.
  - cbn [fold_left]. rewrite portStep_unfold.
    match goal with
    | |- context [fold_left _ items ?s] => destruct (IH s) as [H1 H2]
    end.
    rewrite H1, H2. cbn [portDiags]. rewrite !withPortCode_app.
    destruct (buildPort_type_reports (lastType st) (lastLocalDir st) item) as [R1 R2].
    cbn zeta in R1, R2. rewrite R1, R2. cbn [List.filter].
    rewrite <- !app_assoc.
    destruct (bool_decide (owner = Sequence)), (bool_decide (owner = LetDecl)),
      (bool_decide (typeKind (type item) = PropertyType)),
      (bool_decide (typeKind (type item) = SequenceType)); cbn; split; reflexivity.
Qed.

(** X20.  The type of a port is checked against the owner of the ports:
    in a sequence every port of the type [property] is reported with
    [PropertyPortInSeq] over its type, in a let declaration every port of
    the type [property] or [sequence] with [PropertyPortInLet] over its type
    and with the first token of the type, once each and in the order of the
    ports; elsewhere these two are never reported. *)
Theorem port_types_are_checked_against_owner items :
  withPortCode PropertyPortInSeq (snd (buildPorts items)) =
    (if bool_decide (owner = Sequence)
     then map (fun item => mkPortDiagnostic PropertyPortInSeq (typeRange (type item)) [])
            (List.filter (fun item => bool_decide (typeKind (type item) = PropertyType))
               items)
     else []) /\
  withPortCode PropertyPortInLet (snd (buildPorts items)) =
    (if bool_decide (owner = LetDecl)
     then map (fun item => mkPortDiagnostic PropertyPortInLet (typeRange (type item))
                             [valueText (typeFirstToken (type item))])
            (List.filter
               (fun item => bool_decide (typeKind (type item) = PropertyType) ||
                            bool_decide (typeKind (type item) = SequenceType))
               items)
     else []).
Proof.
  unfold AssertionPorts.buildPorts. cbn [snd].
  destruct (type_reports_loop items (mkPortState None None [] [])) as [H1 H2].
  rewrite H1, H2. split; reflexivity.
Qed.

End AssertionPortFacts.

(** In [sequence s(local input int x, y, untyped z = 1)] the port [y]
    gets the type and the direction of [x]. *)
Lemma port_type_is_inherited_witness :
  exists pb port pf pa,
    fst (AssertionPorts.buildPorts AssertionPorts.Sequence
           ([] ++ MoreSamples.port_x :: [MoreSamples.port_y] ++ [MoreSamples.port_z])) =
      pb ++ port :: pf ++ pa /\
    length pf = 1 /\
    Forall (fun q => AssertionPorts.declaredType q =
                       AssertionPorts.TypeSyntax MoreSamples.intType /\
                     AssertionPorts.localVarDirection q =
                       AssertionPorts.localVarDirection port) pf.
Proof.
  destruct (port_type_is_inherited AssertionPorts.Sequence [] MoreSamples.port_x
              [MoreSamples.port_y] [MoreSamples.port_z] eq_refl)
    as (pb & port & pf & pa & H & _ & Hlen & _ & _ & Hf).
  { repeat constructor. }
  exists pb, port, pf, pa. repeat split; assumption.
Defined.

Lemma assertion_ports_follow_items_witness :
  Forall2 AssertionPorts.builtFrom [MoreSamples.port_x; MoreSamples.port_y]
    (fst (AssertionPorts.buildPorts AssertionPorts.Sequence
            [MoreSamples.port_x; MoreSamples.port_y])).
Proof.
  exact (proj1 (assertion_ports_follow_items AssertionPorts.Sequence
                  [MoreSamples.port_x; MoreSamples.port_y])).
Defined.

(** ** Package imports *)

Section ImportFacts.

Import Imports.

Variable PackageSymbol : Type.
Variable Symbol : Type.
Variable getPackage : string -> option PackageSymbol.
Variable lintMode : bool.
Variable findForImport : PackageSymbol -> string -> option Symbol.

Local Abbreviation Chain := (ScopeChain PackageSymbol).
Local Abbreviation importedSymbol :=
  (Imports.importedSymbol PackageSymbol Symbol getPackage lintMode findForImport).
Local Abbreviation getWildcardPackage :=
  (Imports.getWildcardPackage PackageSymbol getPackage lintMode).

Lemma noteInPackage_enclosing (scope : Chain) (s : Symbol) :
  noteInPackage _ _ scope s =
  match enclosingPackage _ scope with
  | Some pkg => [(pkg, s)]
  | None => []
  end.
Proof.
  induction scope as [[pkg|]|[pkg|] parent IH]; cbn; try reflexivity. exact IH.
Qed.

(** X21.  An explicit import is resolved once.  The first query looks the
    package up by name and the member in it, and returns the member when
    both are found; it issues at most one diagnostic: [UnknownPackage] at
    the package name of the syntax when no package has the name, the name
    is not empty and the compilation is not in lint mode, and
    [UnknownPackageMember] at the item when the package has no such member
    and the member name is not empty; and it notes the import on the package
    around the scope only when the member is found.  Every later query
    returns the same member, issues no diagnostic, notes nothing and leaves
    the symbol as it is. *)
Theorem explicit_import_is_resolved_once sym (scope : Chain) :
  initialized _ _ sym = false ->
  import _ _ sym = None ->
  getParentScope _ _ sym = Some scope ->
  exists r,
    importedSymbol sym = Some r /\
    result _ _ r = getPackage (packageName _ _ sym) ≫=
                   (fun p => findForImport p (importName _ _ sym)) /\
    package_ _ _ (symbol _ _ r) = getPackage (packageName _ _ sym) /\
    diags _ _ r =
      match getPackage (packageName _ _ sym) with
      | None =>
          if negb (bool_decide (packageName _ _ sym = "")) && negb lintMode
          then [mkImportDiagnostic UnknownPackage
                  (match getSyntax _ _ sym with
                   | Some syntax => locationOf (package syntax)
                   | None => location _ _ sym
                   end)
                  [packageName _ _ sym]]
          else []
      | Some p =>
          match findForImport p (importName _ _ sym) with
          | Some _ => []
          | None =>
              if negb (bool_decide (importName _ _ sym = ""))
              then [mkImportDiagnostic UnknownPackageMember
                      (match getSyntax _ _ sym with
                       | Some syntax => locationOf (item syntax)
                       | None => location _ _ sym
                       end)
                      [importName _ _ sym; packageName _ _ sym]]
              else []
          end
      end /\
    noted _ _ r =
      match result _ _ r, enclosingPackage _ scope with
      | Some s, Some pkg => [(pkg, s)]
      | _, _ => []
      end /\
    importedSymbol (symbol _ _ r) =
      Some (mkImported _ _ (result _ _ r) (symbol _ _ r) [] []).
Proof.
  intros Hinit Himport Hscope. unfold Imports.importedSymbol at 1.
  rewrite Hinit, Hscope, Himport. cbn [negb]. unfold findPackage.
  destruct (getPackage (packageName _ _ sym)) as [p|].
  - rewrite (bool_decide_eq_true_2 (is_Some (Some p))) by (eexists; reflexivity).
    cbn [negb andb mbind option_bind].
    destruct (findForImport p (importName _ _ sym)) as [s|].
    + eexists. split; [reflexivity|]. cbn [result symbol diags noted package_].
      rewrite noteInPackage_enclosing. repeat split.
    + eexists. split; [reflexivity|]. cbn [result symbol diags noted package_ app].
      repeat split.
  - rewrite (bool_decide_eq_false_2 (is_Some None)) by (intros [x Hx]; discriminate).
    cbn [negb andb mbind option_bind].
    eexists. split; [reflexivity|]. cbn [result symbol diags noted package_].
    repeat split.
Qed.

(** X22.  The package of a wildcard import is looked up once: the first
    query returns the package of that name and reports [UnknownPackage],
    at the package name of the syntax and with the name, exactly when no
    package has the name, the name is not empty and the compilation is not
    in lint mode, and it reports nothing else; every later query returns
    the same answer without a diagnostic, also when no package was found;
    and after [setPackage] no lookup is made at all. *)
Theorem wildcard_package_is_looked_up_once sym (scope : Chain) :
  wildcardPackage _ sym = None ->
  wildcardParentScope _ sym = Some scope ->
  exists sym' ds,
    getWildcardPackage sym = Some (getPackage (wildcardPackageName _ sym), sym', ds) /\
    ds =
      match getPackage (wildcardPackageName _ sym) with
      | Some _ => []
      | None =>
          if negb (bool_decide (wildcardPackageName _ sym = "")) && negb lintMode
          then [mkImportDiagnostic UnknownPackage
                  (match wildcardSyntax _ sym with
                   | Some syntax => locationOf (package syntax)
                   | None => wildcardLocation _ sym
                   end)
                  [wildcardPackageName _ sym]]
          else []
      end /\
    length ds <= 1 /\
    (ds = [] <->
     is_Some (getPackage (wildcardPackageName _ sym)) \/
     wildcardPackageName _ sym = "" \/ lintMode = true) /\
    getWildcardPackage sym' = Some (getPackage (wildcardPackageName _ sym), sym', []) /\
    forall pkg,
      getWildcardPackage (setPackage _ pkg sym) =
        Some (Some pkg, setPackage _ pkg sym, []).
Proof.
  intros Hnone Hscope. unfold Imports.getWildcardPackage at 1.
  rewrite Hnone, Hscope. unfold findPackage.
  eexists. eexists. split; [reflexivity|].
  split; [|split; [|split; [|split; [reflexivity|reflexivity]]]].
  - destruct (getPackage (wildcardPackageName _ sym)) as [p|].
    + now rewrite (bool_decide_eq_true_2 (is_Some (Some p))) by (eexists; reflexivity).
    + now rewrite (bool_decide_eq_false_2 (is_Some None))
        by (intros [x Hx]; discriminate).
  - destruct (_ && _); cbn; lia.
  - destruct (getPackage (wildcardPackageName _ sym)) as [p|].
    + rewrite (bool_decide_eq_true_2 (is_Some (Some p))) by (eexists; reflexivity).
      cbn. split; [|reflexivity]. intros _. left. eexists; reflexivity.
    + rewrite (bool_decide_eq_false_2 (is_Some None)) by (intros [x Hx]; discriminate).
      cbn [negb andb].
      destruct (bool_decide (wildcardPackageName _ sym = "")) eqn:Hn; cbn [negb andb].
      * split; [|reflexivity]. intros _. right. left.
        now apply bool_decide_eq_true_1 in Hn.
      * apply bool_decide_eq_false_1 in Hn.
        destruct lintMode; cbn [negb].
        -- split; [|reflexivity]. intros _. right. now right.
        -- split; [discriminate|]. intros [[x Hx]|[H|H]];
             [discriminate|contradiction|discriminate].
Qed.

End ImportFacts.

(** [import p::T;] in a block inside the package [outer]: the member is
    found, nothing is reported and the import is noted on [outer]. *)
Lemma explicit_import_is_resolved_once_witness :
  exists r,
    Imports.importedSymbol string string MoreSamples.packageNamed false MoreSamples.memberOf
      MoreSamples.import_p_T = Some r /\
    Imports.result _ _ r = Some "p::T" /\
    Imports.diags _ _ r = [] /\
    Imports.noted _ _ r = [("outer", "p::T")].
Proof.
  destruct (explicit_import_is_resolved_once string string MoreSamples.packageNamed false
              MoreSamples.memberOf MoreSamples.import_p_T MoreSamples.insideOuter
              eq_refl eq_refl eq_refl)
    as (r & Hr & Hres & _ & Hds & Hnoted & _).
  exists r. split; [exact Hr|]. split; [exact Hres|]. split; [exact Hds|].
  rewrite Hnoted, Hres. reflexivity.
Defined.

(** [import q::*;] where no package is named [q]: the first query reports
    the package and the second does not. *)
Lemma wildcard_package_is_looked_up_once_witness :
  exists sym' ds,
    Imports.getWildcardPackage string MoreSamples.packageNamed false
      MoreSamples.import_q_all = Some (None, sym', ds) /\
    ds = [Imports.mkImportDiagnostic Imports.UnknownPackage 57 ["q"]] /\
    Imports.getWildcardPackage string MoreSamples.packageNamed false sym' =
      Some (None, sym', []).
Proof.
  destruct (wildcard_package_is_looked_up_once string MoreSamples.packageNamed false
              MoreSamples.import_q_all MoreSamples.insideOuter eq_refl eq_refl)
    as (sym' & ds & H1 & H2 & _ & _ & H4 & _).
  exists sym', ds. split; [exact H1|]. split; [exact H2|exact H4].
Defined.

(** ** Formal arguments *)

Section FormalArgumentFacts.

Import VariableSymbols FormalArguments.

(** A port declaration whose header is not a variable port header
    gives no argument and the report [ExpectedFunctionPort] over the header;
    otherwise, unless an assertion fails, it gives one argument per
    declarator and no report, the arguments being named and located as the
    declarators, of the direction of the header and of the default lifetime
    of the scope, constant exactly when the header has the [const] keyword,
    which then goes with the direction [ref], and not merged with a
    variable. *)
Lemma formal_arguments_follow_declarators scope syntax args ds :
  FormalArguments.fromSyntax scope syntax = Some (args, ds) ->
  match header syntax with
  | OtherPortHeader r =>
      args = [] /\ ds = [mkArgumentDiagnostic ExpectedFunctionPort r]
  | VariablePortHeader constKeyword dir _ dataType =>
      ds = [] /\
      (is_Some constKeyword -> dir = Ref) /\
      map (fun a => varName (variable a)) args =
        map (fun d => valueText (name d)) (declarators syntax) /\
      map (fun a => varLocation (variable a)) args =
        map (fun d => location (name d)) (declarators syntax) /\
      Forall (fun a =>
                direction a = dir /\
                lifetime (variable a) = getDefaultLifetime scope /\
                isConstVar (variable a) = bool_decide (is_Some constKeyword) /\
                declaredTypeSyntax (variable a) = Some dataType /\
                mergedVar a = None /\ formalArgMergeVar a = false) args
  end.
Proof.
  unfold FormalArguments.fromSyntax.
  destruct (header syntax) as [constKeyword dir varKeyword dataType|r].
  - destruct (bool_decide (is_Some constKeyword) && negb (bool_decide (dir = Ref)))
      eqn:Hassert; [discriminate|].
    intros [= <- <-]. split; [reflexivity|]. split; [|split; [|split]].
    + intros Hc. rewrite bool_decide_eq_true_2 in Hassert by exact Hc.
      cbn [andb] in Hassert. apply negb_false_iff in Hassert.
      now apply bool_decide_eq_true_1 in Hassert.
    + rewrite map_map. reflexivity.
    + rewrite map_map. reflexivity.
    + apply Forall_forall. intros a Ha. rewrite list_elem_of_In in Ha.
      apply in_map_iff in Ha as [d [<- _]]. repeat split.
  - intros [= <- <-]. split; reflexivity.
Qed.

(** X23.  An argument of a port declaration merges with a variable
    exactly when the header of the declaration leaves its type open, with
    neither the [var] keyword nor a type, and with one variable at most:
    the first merge records the variable and raises the flag on the declared
    type, and every later merge is refused and changes nothing; when the
    header fixes the type every merge is refused. *)
Theorem formal_argument_merges_once scope syntax args ds arg v w :
  FormalArguments.fromSyntax scope syntax = Some (args, ds) ->
  List.In arg args ->
  exists merged arg',
    mergeVariable v arg = Some (merged, arg') /\
    merged = leavesTypeOpen syntax /\
    (merged = true ->
     mergedVar arg' = Some v /\ formalArgMergeVar arg' = true /\
     variable arg' = variable arg /\ direction arg' = direction arg) /\
    (merged = false -> arg' = arg) /\
    (merged = true -> mergeVariable w arg' = Some (false, arg')).
Proof.
  unfold FormalArguments.fromSyntax, leavesTypeOpen.
  destruct (header syntax) as [constKeyword dir varKeyword dataType|r] eqn:Hh.
  - destruct (_ && _); [discriminate|]. intros [= <- <-] Hin.
    apply in_map_iff in Hin as [d [<- _]].
    unfold mergeVariable. cbn [mergedVar syntaxParent]. rewrite Hh.
    destruct varKeyword as [k|], dataType as [|k'|n]; cbn;
      eexists; eexists; (split; [reflexivity|]); repeat split; discriminate.
  - intros [= <- <-] [].
Qed.

End FormalArgumentFacts.

(** The argument [x] of [input x, y;] merges with a variable, once. *)
Lemma formal_argument_merges_once_witness :
  exists args ds arg merged arg',
    FormalArguments.fromSyntax MoreSamples.functionScope MoreSamples.input_x_y =
      Some (args, ds) /\
    head args = Some arg /\
    FormalArguments.mergeVariable (VariableSymbols.newVariableSymbol "x" 80 Automatic) arg =
      Some (merged, arg') /\
    merged = true.
Proof.
  eexists. eexists. eexists.
  destruct (formal_argument_merges_once MoreSamples.functionScope MoreSamples.input_x_y
              _ _ _ (VariableSymbols.newVariableSymbol "x" 80 Automatic)
              (VariableSymbols.newVariableSymbol "x" 80 Automatic)
              eq_refl (or_introl eq_refl))
    as (merged & arg' & Hm & Ht & _).
  exists merged, arg'. split; [reflexivity|]. split; [reflexivity|].
  split; [exact Hm|exact Ht].
Defined.

(** ** Signals of a clocking block *)

Section ClockVarFacts.

Import ClockVars.

Variable ClockingSkew : Type.
Variable emptySkew : ClockingSkew.
Variable Issued : Type.
Variable skewFromSyntax :
  ClockingBlocks.ClockingSkewSyntax -> ASTContext -> ClockingSkew * list Issued.
Variable bind : ExpressionSyntax -> ASTContext -> Expression * list Issued.
Variable requireLValue : Expression -> ASTContext -> SourceLocation -> list Issued.
Variable unqualifiedAt :
  Scope -> string -> LookupLocation -> SourceRange -> option FoundSymbol.
Variable fromSymbol : ASTContext -> FoundSymbol -> SourceRange -> Expression * list Issued.

Local Abbreviation directionOf :=
  (ClockVars.directionOf ClockingSkew emptySkew Issued skewFromSyntax).
Local Abbreviation declare :=
  (ClockVars.declare ClockingSkew Issued bind requireLValue unqualifiedAt fromSymbol).
Local Abbreviation fromSyntax :=
  (ClockVars.fromSyntax ClockingSkew emptySkew Issued skewFromSyntax bind requireLValue
     unqualifiedAt fromSymbol).
Local Abbreviation Var := (ClockVarSymbol ClockingSkew).
Local Abbreviation resolved := (ClockVars.resolved unqualifiedAt).
Local Abbreviation rejected := (ClockVars.rejected Issued unqualifiedAt).

Lemma directionOf_table context dir :
  let '(d, inSkew, outSkew, ds) := directionOf context dir in
  d <> Ref /\
  (d = In <-> input dir <> Some InOutKeyword /\ output dir = None) /\
  (d = Out <-> input dir = None /\ is_Some (output dir)) /\
  (input dir = Some InOutKeyword -> inSkew = emptySkew /\ outSkew = emptySkew /\ ds = []) /\
  (input dir = None -> inSkew = emptySkew) /\
  (output dir = None -> outSkew = emptySkew).
Proof.
  unfold ClockVars.directionOf.
  destruct (input dir) as [[|]|], (inputSkew dir) as [si|], (output dir) as [o|],
    (outputSkew dir) as [so|]; cbn;
    repeat match goal with
           | |- context [skewFromSyntax ?s ?c] => destruct (skewFromSyntax s c)
           end;
    repeat split; try discriminate; try congruence;
    try (intros [H1 H2]; congruence);
    try (intros [H1 [x H2]]; congruence);
    try (eexists; reflexivity);
    try (intros H; exfalso; apply H; reflexivity).
Qed.

Lemma declare_fields parent ll context dir inSkew outSkew decl :
  let '(arg, ds, drv) := declare parent ll context dir inSkew outSkew decl in
  varName _ arg = valueText (name decl) /\
  varLocation _ arg = location (name decl) /\
  getSyntax _ arg = decl /\
  varDirection _ arg = dir /\ varInputSkew _ arg = inSkew /\
  varOutputSkew _ arg = outSkew /\ lifetime _ arg = Static.
Proof.
  unfold ClockVars.declare.
  destruct (value decl) as [v|].
  - destruct (bind _ _) as [e ds]. repeat split.
  - destruct (unqualifiedAt _ _ _ _) as [s|].
    + destruct (_ && _).
      * repeat split.
      * destruct (fromSymbol _ _ _) as [valExpr ds2]. repeat split.
    + repeat split.
Qed.

Lemma no_invalid_signal_from_callee (ds : list Issued) :
  List.filter (isInvalidSignal Issued) (map (FromCallee Issued) ds) = [].
Proof. induction ds as [|x l IH]; [reflexivity|exact IH]. Qed.

Lemma declare_signals parent blockLocation context dir inSkew outSkew decl :
  let '(arg, ds, drv) :=
    declare parent (LookupBefore blockLocation) context dir inSkew outSkew decl in
  List.filter (isInvalidSignal Issued) ds =
    match rejected parent blockLocation decl with Some d => [d] | None => [] end /\
  map fst drv =
    (if bool_decide (dir = In) then []
     else match resolved parent blockLocation decl with Some s => [s] | None => [] end) /\
  signalType _ arg =
    match value decl with
    | Some v => TypeOf (fst (bind (expr v) context))
    | None =>
        match resolved parent blockLocation decl with
        | Some s => LinkedTo s
        | None => ErrorType
        end
    end /\
  getInitializer _ arg =
    ((fun v => fst (bind (expr v) context)) <$> value decl).
Proof.
  unfold ClockVars.declare, ClockVars.rejected, ClockVars.resolved, namesSignal,
    signalOf, isSignal.
  destruct (value decl) as [v|].
  - rewrite (bool_decide_eq_true_2 (is_Some (Some v))) by (eexists; reflexivity).
    cbn [negb fmap option_fmap option_map].
    destruct (bind (expr v) context) as [e ds]. cbn [fst].
    rewrite no_invalid_signal_from_callee.
    repeat split. now destruct (bool_decide (dir = In)).
  - rewrite (bool_decide_eq_false_2 (is_Some None)) by (intros [x Hx]; discriminate).
    cbn [negb fmap option_fmap option_map].
    destruct (unqualifiedAt _ _ _ _) as [s|].
    + destruct (bool_decide (foundKind s = NetKind)),
        (bool_decide (foundKind s = VariableKind)); cbn [negb andb orb];
        try (destruct (fromSymbol _ _ _) as [valExpr ds2]; cbn [app];
             rewrite no_invalid_signal_from_callee;
             repeat split; now destruct (bool_decide (dir = In))).
      repeat split. now destruct (bool_decide (dir = In)).
    + repeat split. now destruct (bool_decide (dir = In)).
Qed.

Lemma omap_snoc {A B} (f : A -> option B) l x :
  omap f (l ++ [x]) = omap f l ++ match f x with Some y => [y] | None => [] end.
Proof.
  induction l as [|a l IH]; [cbn; now destruct (f x)|].
  change (omap f ((a :: l) ++ [x])) with
    (match f a with Some y => y :: omap f (l ++ [x]) | None => omap f (l ++ [x]) end).
  change (omap f (a :: l)) with
    (match f a with Some y => y :: omap f l | None => omap f l end).
  rewrite IH. now destruct (f a).
Qed.

(** The declaration loop, from its start. *)
Lemma declare_loop parent blockLocation context dir inSkew outSkew ds0 ds :
  let r := fold_left
             (fun st decl =>
                let '(arg, dsd, drv) :=
                  declare parent (LookupBefore blockLocation) context dir inSkew outSkew
                    decl in
                mkSignals _ _ (results _ _ st ++ [arg]) (diags _ _ st ++ dsd)
                  (drivers _ _ st ++ drv))
             ds (mkSignals _ _ [] (map (FromCallee Issued) ds0) []) in
  map (getSyntax _) (results _ _ r) = ds /\
  map (varName _) (results _ _ r) = map (fun d => valueText (name d)) ds /\
  map (varLocation _) (results _ _ r) = map (fun d => location (name d)) ds /\
  Forall (fun v : Var => varDirection _ v = dir /\ varInputSkew _ v = inSkew /\
                         varOutputSkew _ v = outSkew /\ lifetime _ v = Static)
    (results _ _ r) /\
  List.filter (isInvalidSignal Issued) (diags _ _ r) =
    omap (rejected parent blockLocation) ds /\
  map fst (drivers _ _ r) =
    (if bool_decide (dir = In) then [] else omap (resolved parent blockLocation) ds) /\
  map (signalType _) (results _ _ r) =
    map (fun decl =>
           match value decl with
           | Some v => TypeOf (fst (bind (expr v) context))
           | None =>
               match resolved parent blockLocation decl with
               | Some s => LinkedTo s
               | None => ErrorType
               end
           end) ds /\
  map (getInitializer _) (results _ _ r) =
    map (fun decl => (fun v => fst (bind (expr v) context)) <$> value decl) ds.
Proof.
  induction ds as [|decl ds IH] using rev_ind; cbn zeta.
  - cbn [fold_left results diags drivers map]. rewrite no_invalid_signal_from_callee.
    repeat split; try constructor. now destruct (bool_decide (dir = In)).
  - rewrite fold_left_app. cbn [fold_left]. cbn zeta in IH.
    set (st := fold_left _ ds _) in *.
    destruct IH as (H1 & H2 & H3 & H4 & H5 & H6 & H7 & H8).
    pose proof (declare_fields parent (LookupBefore blockLocation) context dir inSkew
                  outSkew decl) as Hf.
    pose proof (declare_signals parent blockLocation context dir inSkew outSkew decl)
      as Hs.
    destruct (declare _ _ _ _ _ _ decl) as [[arg dsd] drv].
    destruct Hf as (F1 & F2 & F3 & F4 & F5 & F6 & F7).
    destruct Hs as (S1 & S2 & S3 & S4).
    cbn [results diags drivers]. rewrite !map_app, List.filter_app, !omap_snoc.
    cbn [map]. rewrite H1, H2, H3, H5, H6, H7, H8, F1, F2, F3, S1, S2, S3, S4.
    repeat split.
    + apply Forall_app. split; [exact H4|]. repeat constructor; assumption.
    + destruct (bool_decide (dir = In)); [reflexivity|]. reflexivity.
Qed.

(** X24.  The signals of one clocking item are one per declaration, in
    order and named and located as the declaration, all static and all with
    the one direction and the two skews of the item.  The direction is input
    exactly when the item has no output keyword and not the inout keyword,
    output exactly when it has the output keyword only, and never ref; with
    the inout keyword no skew is bound, both skews stay empty whatever the
    item writes, and without the input (output) keyword the input (output)
    skew stays empty. *)
Theorem clock_signals_share_direction_and_skews parent blockLocation syntax :
  exists r dir inSkew outSkew,
    fromSyntax (Some parent) blockLocation syntax = Some r /\
    map (getSyntax _) (results _ _ r) = decls syntax /\
    map (varName _) (results _ _ r) = map (fun d => valueText (name d)) (decls syntax) /\
    map (varLocation _) (results _ _ r) =
      map (fun d => location (name d)) (decls syntax) /\
    Forall (fun v : Var => varDirection _ v = dir /\ varInputSkew _ v = inSkew /\
                           varOutputSkew _ v = outSkew /\ lifetime _ v = Static)
      (results _ _ r) /\
    dir <> Ref /\
    (dir = In <->
     input (direction syntax) <> Some InOutKeyword /\ output (direction syntax) = None) /\
    (dir = Out <->
     input (direction syntax) = None /\ is_Some (output (direction syntax))) /\
    (input (direction syntax) = Some InOutKeyword ->
     inSkew = emptySkew /\ outSkew = emptySkew) /\
    (input (direction syntax) = None -> inSkew = emptySkew) /\
    (output (direction syntax) = None -> outSkew = emptySkew).
Proof.
  unfold ClockVars.fromSyntax.
  pose proof (directionOf_table
                (mkASTContext parent (LookupBefore blockLocation) [NonProcedural])
                (direction syntax)) as Ht.
  destruct (directionOf _ _) as [[[dir inSkew] outSkew] ds0].
  destruct Ht as (T1 & T2 & T3 & T4 & T5 & T6).
  eexists. exists dir, inSkew, outSkew. split; [reflexivity|].
  match goal with
  | |- context [fold_left _ _ (mkSignals _ _ [] (map _ ?d) [])] =>
      match goal with
      | |- context [ClockVars.declare _ _ _ _ _ _ ?p (LookupBefore ?l) ?c] =>
          destruct (declare_loop p l c dir inSkew outSkew d (decls syntax))
            as (H1 & H2 & H3 & H4 & _)
      end
  end.
  cbn zeta in H1, H2, H3, H4.
  split; [exact H1|]. split; [exact H2|]. split; [exact H3|]. split; [exact H4|].
  split; [exact T1|]. split; [exact T2|]. split; [exact T3|].
  split; [|split; [exact T5|exact T6]].
  intros H. destruct (T4 H) as (Hi & Ho & _). split; assumption.
Qed.

(** X25.  A declaration of a clocking item with a value takes its type
    and its initializer from the bound value and is not looked up; one
    without a value is looked up in the parent of the block, before the
    block, and is linked to what is found when that is a net or a variable,
    and otherwise has the error type.  [InvalidClockingSignal] is reported
    once, with a note at the declaration found, for each declaration
    without a value that names something else than a net or a variable, and
    for no other.  Drivers are added only when the item is not an input: one
    for each declaration without a value that names a net or a variable, in
    order. *)
Theorem clock_signals_are_resolved_in_the_parent parent blockLocation syntax :
  exists r context,
    fromSyntax (Some parent) blockLocation syntax = Some r /\
    contextScope context = parent /\
    lookupLocation context = LookupBefore blockLocation /\
    map (signalType _) (results _ _ r) =
      map (fun decl =>
             match value decl with
             | Some v => TypeOf (fst (bind (expr v) context))
             | None =>
                 match resolved parent blockLocation decl with
                 | Some s => LinkedTo s
                 | None => ErrorType
                 end
             end) (decls syntax) /\
    map (getInitializer _) (results _ _ r) =
      map (fun decl => (fun v => fst (bind (expr v) context)) <$> value decl)
        (decls syntax) /\
    List.filter (isInvalidSignal Issued) (diags _ _ r) =
      omap (rejected parent blockLocation) (decls syntax) /\
    map fst (drivers _ _ r) =
      (if bool_decide (input (direction syntax) <> Some InOutKeyword /\
                       output (direction syntax) = None)
       then []
       else omap (resolved parent blockLocation) (decls syntax)).
Proof.
  unfold ClockVars.fromSyntax.
  pose proof (directionOf_table
                (mkASTContext parent (LookupBefore blockLocation) [NonProcedural])
                (direction syntax)) as Ht.
  destruct (directionOf _ _) as [[[dir inSkew] outSkew] ds0].
  destruct Ht as (T1 & T2 & T3 & T4 & T5 & T6).
  eexists.
  match goal with
  | |- context [fold_left _ _ (mkSignals _ _ [] (map _ ?d) [])] =>
      match goal with
      | |- context [ClockVars.declare _ _ _ _ _ _ ?p (LookupBefore ?l) ?c] =>
          exists c;
          destruct (declare_loop p l c dir inSkew outSkew d (decls syntax))
            as (_ & _ & _ & _ & H5 & H6 & H7 & H8)
      end
  end.
  cbn zeta in H5, H6, H7, H8.
  split; [reflexivity|].
  split; [now destruct (_ || _)|]. split; [now destruct (_ || _)|].
  split; [exact H7|]. split; [exact H8|]. split; [exact H5|].
  rewrite H6. destruct (bool_decide (dir = In)) eqn:Hd.
  - apply bool_decide_eq_true_1 in Hd. rewrite bool_decide_eq_true_2; [reflexivity|].
    now apply T2.
  - apply bool_decide_eq_false_1 in Hd. rewrite bool_decide_eq_false_2; [reflexivity|].
    intros H. apply Hd. now apply T2.
Qed.

End ClockVarFacts.

(** [inout #1 clk, f;]: the two signals are inout and, although a skew is
    written, without skews. *)
Lemma clock_signals_share_direction_and_skews_witness :
  exists r,
    MoreSamples.clockSignals = Some r /\
    Forall (fun v => ClockVars.varDirection _ v = ClockVars.InOut /\
                     ClockVars.varInputSkew _ v = "")
      (ClockVars.results _ _ r).
Proof.
  destruct (clock_signals_share_direction_and_skews string "" Diagnostic
              MoreSamples.textSkew Primitives.sampleBind (fun _ _ _ => [])
              MoreSamples.signalNamed MoreSamples.valueOf Samples.moduleBody 90
              MoreSamples.inout_clk_f)
    as (r & dir & inSkew & outSkew & Hr & _ & _ & _ & Hall & Href & Hin & Hout & Hio & _).
  exists r. split; [exact Hr|].
  destruct (Hio eq_refl) as [Hi _].
  assert (Hdir : dir = ClockVars.InOut).
  { destruct dir.
    - destruct (proj1 Hin eq_refl) as [Hne _]. exfalso. apply Hne. reflexivity.
    - destruct (proj1 Hout eq_refl) as [Hnone _]. discriminate.
    - reflexivity.
    - exfalso. apply Href. reflexivity. }
  eapply Forall_impl; [exact Hall|]. intros v (Hd & Hs & _). split; congruence.
Defined.

(** Of [clk], a net, and [f], which is neither a net nor a variable, the
    first gets a driver and the second is reported. *)
Example sample_clock_signals :
  match MoreSamples.clockSignals with
  | Some r =>
      map fst (ClockVars.drivers _ _ r) =
        [ClockVars.mkFoundSymbol "clk" ClockVars.NetKind 5] /\
      ClockVars.diags _ _ r =
        [ClockVars.InvalidClockingSignal Diagnostic (109, 110) "f" 7]
  | None => False
  end.
Proof. vm_compute. split; reflexivity. Qed.

(** ** Modports *)

Section ModportFacts.

Import Modports.

Variable SymbolKind : Type.
Variable isSubroutine : SymbolKind -> bool.
Variable isClockingBlock : SymbolKind -> bool.
Variable isAllowedInModport : SymbolKind -> bool.
Variable Issued : Type.
Variable unqualifiedAt :
  Scope -> string -> LookupLocation -> SourceRange -> option (FoundSymbol SymbolKind).
Variable fromSymbol :
  ASTContext -> FoundSymbol SymbolKind -> SourceRange -> Expression * list Issued.
Variable bind : ExpressionSyntax -> ASTContext -> list ASTFlags -> Expression * list Issued.
Variable requireLValue :
  Expression -> ASTContext -> SourceLocation -> list AssignFlags -> list Issued.
Variable canConnectToRefArg : Expression -> bool.
Variable ModportSubroutinePortSyntax : Type.
Variable MethodPrototypeSymbol : Type.
Variable prototypeOfName :
  ASTContext -> ModportNamedPortSyntax -> bool -> MethodPrototypeSymbol * list Issued.
Variable prototypeOfPort :
  Scope -> ModportSubroutinePortSyntax -> bool -> MethodPrototypeSymbol * list Issued.

Local Abbreviation fromNamedPort :=
  (Modports.fromNamedPort SymbolKind isSubroutine isAllowedInModport Issued unqualifiedAt
     fromSymbol requireLValue canConnectToRefArg).
Local Abbreviation fromExplicitPort :=
  (Modports.fromExplicitPort SymbolKind Issued bind requireLValue canConnectToRefArg).
Local Abbreviation fromClockingPort :=
  (Modports.fromClockingPort SymbolKind isClockingBlock Issued unqualifiedAt).
Local Abbreviation addSimplePort :=
  (Modports.addSimplePort SymbolKind isSubroutine isAllowedInModport Issued
     unqualifiedAt fromSymbol bind requireLValue canConnectToRefArg
     MethodPrototypeSymbol).
Local Abbreviation addSubroutinePort :=
  (Modports.addSubroutinePort SymbolKind Issued ModportSubroutinePortSyntax
     MethodPrototypeSymbol prototypeOfName prototypeOfPort).
Local Abbreviation addPorts :=
  (Modports.addPorts SymbolKind isSubroutine isClockingBlock isAllowedInModport Issued
     unqualifiedAt fromSymbol bind requireLValue canConnectToRefArg
     ModportSubroutinePortSyntax MethodPrototypeSymbol prototypeOfName prototypeOfPort).
Local Abbreviation addItem :=
  (Modports.addItem SymbolKind isSubroutine isClockingBlock isAllowedInModport Issued
     unqualifiedAt fromSymbol bind requireLValue canConnectToRefArg
     ModportSubroutinePortSyntax MethodPrototypeSymbol prototypeOfName prototypeOfPort).
Local Abbreviation fromSyntax :=
  (Modports.fromSyntax SymbolKind isSubroutine isClockingBlock isAllowedInModport Issued
     unqualifiedAt fromSymbol bind requireLValue canConnectToRefArg
     ModportSubroutinePortSyntax MethodPrototypeSymbol prototypeOfName prototypeOfPort).
Local Abbreviation Modport := (ModportSymbol SymbolKind MethodPrototypeSymbol).
Local Abbreviation Diag := (ModportDiagnostic Issued).

Lemma no_rejection_from_callee (ds : list Issued) :
  List.filter isRejection (map (@FromCallee Issued) ds) = [].
Proof. induction ds as [|x l IH]; [reflexivity|exact IH]. Qed.

Lemma no_rejection_from_check dir e context loc :
  List.filter isRejection
    (checkDirection Issued requireLValue canConnectToRefArg dir e context loc) = [].
Proof.
  destruct dir; cbn [checkDirection]; try apply no_rejection_from_callee; [reflexivity|].
  now destruct (negb _).
Qed.

(** X26.  A named modport port is connected to what its name stands for
    in the scope of the modport, parents apart, when that is found, is not
    a subroutine and is allowed in a modport; its type is then linked to the
    type of that symbol.  A subroutine is rejected with
    [ExpectedImportExport] and any other symbol that is not allowed with
    [NotAllowedInModport], over the name and with a note at the symbol;
    a port that is not connected has the error type, and nothing else is
    reported for it.  The port is built unless the symbol it would be
    connected to has no declared type: the assertion of the code fails
    there, and only there. *)
Theorem modport_port_connects_allowed_symbols context dir syntax :
  let n := namedPortName syntax in
  let found := unqualifiedAt (contextScope context) (valueText n)
                 (lookupLocation context) (range n) in
  let connection :=
    found ≫= fun s =>
      if isSubroutine (foundKind s) || negb (isAllowedInModport (foundKind s))
      then None else Some s in
  match fromNamedPort context dir syntax with
  | Some r =>
      (forall s, connection = Some s -> hasDeclaredType s = true) /\
      portName (fst r) = valueText n /\
      direction (fst r) = dir /\
      internalSymbol (fst r) = connection /\
      portType (fst r) =
        match internalSymbol (fst r) with
        | Some s => LinkedTo s
        | None => ErrorType
        end /\
      List.filter isRejection (snd r) =
        match found with
        | Some s =>
            if isSubroutine (foundKind s)
            then [ExpectedImportExport (range n) (valueText n) (foundLocation s)]
            else if negb (isAllowedInModport (foundKind s))
            then [NotAllowedInModport (range n) (valueText n) (foundLocation s)]
            else []
        | None => []
        end /\
      (internalSymbol (fst r) = None -> snd r = List.filter isRejection (snd r))
  | None => exists s, connection = Some s /\ hasDeclaredType s = false
  end.
Proof.
  cbn zeta. unfold Modports.fromNamedPort.
  destruct (unqualifiedAt _ _ _ _) as [s|]; cbn [mbind option_bind].
  - destruct (isSubroutine (foundKind s)); cbn [orb].
    + repeat split. discriminate.
    + destruct (isAllowedInModport (foundKind s)); cbn [negb].
      * destruct (hasDeclaredType s) eqn:Hd; cbn [negb].
        -- destruct (fromSymbol _ _ _) as [e ds']. cbn [fst snd app].
           rewrite List.filter_app, no_rejection_from_callee, no_rejection_from_check.
           repeat split; try discriminate. now intros s' [= <-].
        -- now exists s.
      * repeat split. discriminate.
  - repeat split. discriminate.
Qed.

(** *** The members of a modport *)

Lemma addSimplePort_failed context d ports :
  fold_left (addSimplePort context d) ports None = None.
Proof. induction ports as [|p ports IH]; [reflexivity|exact IH]. Qed.

Lemma addPorts_failed context ports :
  fold_left (addPorts context) ports None = None.
Proof. induction ports as [|p ports IH]; [reflexivity|exact IH]. Qed.

(** The simple ports of a list: a port for each, unless the assertion of a
    named port fails. *)
Lemma simplePorts_loop context d ports (m : Modport) (ds : list Diag) :
  match fold_left (addSimplePort context d) ports (Some (m, ds)) with
  | Some r =>
      (forall syntax, List.In (NamedPort syntax) ports ->
                      is_Some (fromNamedPort context d syntax)) /\
      modportName (fst r) = modportName m /\
      modportLocation (fst r) = modportLocation m /\
      hasExports (fst r) = hasExports m /\
      map kindOfMember (members (fst r)) =
        map kindOfMember (members m) ++ map (fun _ => PortKind) ports
  | None =>
      exists syntax, List.In (NamedPort syntax) ports /\ fromNamedPort context d syntax = None
  end.
Proof.
  revert m ds. induction ports as [|p ports IH]; intros m ds.
  - cbn. rewrite app_nil_r. repeat split. intros syntax [].
  - cbn [fold_left Modports.addSimplePort].
    destruct p as [syn|syn].
    + destruct (fromNamedPort context d syn) as [[mpp dsp]|] eqn:Hn.
      * match goal with
        | |- context [fold_left _ ports (Some (?m', ?ds'))] =>
            specialize (IH m' ds');
            destruct (fold_left _ ports (Some (m', ds'))) as [r|]
        end.
        -- destruct IH as (H0 & H1 & H2 & H3 & H4).
           rewrite H1, H2, H3, H4.
           cbn [modportName modportLocation hasExports members map].
           rewrite map_app, <- app_assoc. repeat split.
           intros syntax [[= ->]|Hin]; [now rewrite Hn|now apply H0].
        -- destruct IH as (syntax & Hin & Hf). exists syntax. split; [now right|exact Hf].
      * rewrite addSimplePort_failed. exists syn. split; [now left|exact Hn].
    + destruct (fromExplicitPort context d syn) as [mpp dsp].
      match goal with
      | |- context [fold_left _ ports (Some (?m', ?ds'))] =>
          specialize (IH m' ds');
          destruct (fold_left _ ports (Some (m', ds'))) as [r|]
      end.
      * destruct IH as (H0 & H1 & H2 & H3 & H4).
        rewrite H1, H2, H3, H4.
        cbn [modportName modportLocation hasExports members map].
        rewrite map_app, <- app_assoc. repeat split.
        intros syntax [[=]|Hin]. now apply H0.
      * destruct IH as (syntax & Hin & Hf). exists syntax. split; [now right|exact Hf].
Qed.

(** The subroutine ports of a list: a method prototype for each. *)
Lemma subroutinePorts_loop context export ports (m : Modport) (ds : list Diag) :
  let r := fold_left (addSubroutinePort context export) ports (m, ds) in
  modportName (fst r) = modportName m /\
  modportLocation (fst r) = modportLocation m /\
  hasExports (fst r) = hasExports m /\
  map kindOfMember (members (fst r)) =
    map kindOfMember (members m) ++ map (fun _ => MethodKind) ports.
Proof.
  cbn zeta. revert m ds. induction ports as [|p ports IH]; intros m ds.
  - cbn. now rewrite app_nil_r.
  - cbn [fold_left map Modports.addSubroutinePort].
    destruct p as [syn|syn];
      [destruct (prototypeOfName context syn export) as [mps dsp]
      |destruct (prototypeOfPort (contextScope context) syn export) as [mps dsp]].
    all: match goal with
         | IH' : forall m ds, _ |- context [fold_left _ _ (?m', ?ds')] =>
             destruct (IH' m' ds') as (H1 & H2 & H3 & H4)
         end.
    all: rewrite H1, H2, H3, H4; cbn [modportName modportLocation hasExports members];
      rewrite map_app, <- app_assoc; repeat split.
Qed.

Lemma addPorts_members context port (m : Modport) (ds : list Diag) :
  match addPorts context (Some (m, ds)) port with
  | Some r =>
      (forall d ports syntax,
         port = ModportSimplePortList _ d ports -> List.In (NamedPort syntax) ports ->
         is_Some (fromNamedPort context d syntax)) /\
      modportName (fst r) = modportName m /\
      modportLocation (fst r) = modportLocation m /\
      hasExports (fst r) = hasExports m || exports port /\
      map kindOfMember (members (fst r)) =
        map kindOfMember (members m) ++ kindsOf port
  | None =>
      exists d ports syntax,
        port = ModportSimplePortList _ d ports /\ List.In (NamedPort syntax) ports /\
        fromNamedPort context d syntax = None
  end.
Proof.
  destruct port as [d ports|k ports|syntax]; cbn [Modports.addPorts].
  - cbn [Modports.exports Modports.kindsOf]. rewrite orb_false_r.
    pose proof (simplePorts_loop context d ports m ds) as Hl.
    destruct (fold_left _ ports _) as [r|].
    + destruct Hl as (H0 & H1 & H2 & H3 & H4). repeat split; try assumption.
      intros d' ports' syntax [= <- <-]. apply H0.
    + destruct Hl as (syntax & Hin & Hf). now exists d, ports, syntax.
  - cbn [Modports.exports Modports.kindsOf].
    set (m0 := if isExport k then _ else m).
    assert (Hm0 : modportName m0 = modportName m /\
                  modportLocation m0 = modportLocation m /\
                  hasExports m0 = hasExports m || isExport k /\
                  members m0 = members m).
    { subst m0. destruct (isExport k); cbn; rewrite ?orb_true_r, ?orb_false_r;
        repeat split. }
    destruct Hm0 as (E1 & E2 & E3 & E4). rewrite <- E1, <- E2, <- E3, <- E4.
    destruct (subroutinePorts_loop context (isExport k) ports m0 ds)
      as (H1 & H2 & H3 & H4).
    repeat split; try assumption. discriminate.
  - destruct (fromClockingPort context syntax) as [mcs dsc].
    cbn [fst modportName modportLocation hasExports members Modports.exports
         Modports.kindsOf].
    rewrite orb_false_r, map_app. repeat split. discriminate.
Qed.

Lemma addPorts_loop context ports (m : Modport) (ds : list Diag) :
  match fold_left (addPorts context) ports (Some (m, ds)) with
  | Some r =>
      (forall d simple syntax,
         List.In (ModportSimplePortList _ d simple) ports -> List.In (NamedPort syntax) simple ->
         is_Some (fromNamedPort context d syntax)) /\
      modportName (fst r) = modportName m /\
      modportLocation (fst r) = modportLocation m /\
      hasExports (fst r) = hasExports m || existsb exports ports /\
      map kindOfMember (members (fst r)) =
        map kindOfMember (members m) ++ flat_map kindsOf ports
  | None =>
      exists d simple syntax,
        List.In (ModportSimplePortList _ d simple) ports /\ List.In (NamedPort syntax) simple /\
        fromNamedPort context d syntax = None
  end.
Proof.
  revert m ds. induction ports as [|port ports IH]; intros m ds.
  - cbn. rewrite orb_false_r, app_nil_r. repeat split. intros d simple syntax [].
  - cbn [fold_left existsb flat_map].
    pose proof (addPorts_members context port m ds) as Hs.
    destruct (addPorts context (Some (m, ds)) port) as [[m' ds']|].
    + cbn [fst] in Hs. destruct Hs as (S0 & S1 & S2 & S3 & S4).
      specialize (IH m' ds').
      destruct (fold_left _ ports (Some (m', ds'))) as [r|].
      * destruct IH as (H0 & H1 & H2 & H3 & H4).
        rewrite H1, H2, H3, H4, S1, S2, S3, S4, orb_assoc, <- app_assoc.
        repeat split.
        intros d simple syntax [->|Hin] Hs;
          [exact (S0 _ _ _ eq_refl Hs)|exact (H0 _ _ _ Hin Hs)].
      * destruct IH as (d & simple & syntax & Hin & Hs & Hf).
        exists d, simple, syntax. split; [now right|now split].
    + rewrite addPorts_failed.
      destruct Hs as (d & simple & syntax & -> & Hs & Hf).
      exists d, simple, syntax. split; [now left|now split].
Qed.

(** X27.  A modport declaration gives one modport per item, in order and
    named and located as the item.  The members of a modport are those of
    its port lists in order: a port for each simple port, a method prototype
    for each subroutine port and a clocking for each clocking port; and a
    modport has exports exactly when one of its subroutine port lists is an
    export list.  The modports are built exactly when every named simple
    port of the declaration is; otherwise the assertion of one of them
    fails. *)
Theorem modports_follow_declaration context items :
  match fromSyntax context items with
  | Some (r, _) =>
      (forall item d simple syntax,
         List.In item items -> List.In (ModportSimplePortList _ d simple) (itemPorts item) ->
         List.In (NamedPort syntax) simple ->
         is_Some (fromNamedPort context d syntax)) /\
      map modportName r = map (fun item => valueText (itemName item)) items /\
      map modportLocation r = map (fun item => location (itemName item)) items /\
      map hasExports r = map (fun item => existsb exports (itemPorts item)) items /\
      map (fun m => map kindOfMember (members m)) r =
        map (fun item => flat_map kindsOf (itemPorts item)) items
  | None =>
      exists item d simple syntax,
        List.In item items /\ List.In (ModportSimplePortList _ d simple) (itemPorts item) /\
        List.In (NamedPort syntax) simple /\ fromNamedPort context d syntax = None
  end.
Proof.
  unfold Modports.fromSyntax.
  induction items as [|item items IH] using rev_ind.
  - cbn. repeat split. intros item d simple syntax [].
  - rewrite fold_left_app. cbn [fold_left].
    destruct (fold_left _ items (Some ([], []))) as [[results diags]|].
    + destruct IH as (H0 & H1 & H2 & H3 & H4). cbn [Modports.addItem].
      match goal with
      | |- context [fold_left _ (itemPorts item) (Some (?m, ?ds))] =>
          pose proof (addPorts_loop context (itemPorts item) m ds) as Hl
      end.
      destruct (fold_left _ (itemPorts item) _) as [[m' ds']|].
      * cbn [fst modportName modportLocation hasExports members map app orb] in Hl.
        destruct Hl as (L0 & L1 & L2 & L3 & L4).
        rewrite !map_app. cbn [map].
        rewrite H1, H2, H3, H4, L1, L2, L3, L4. repeat split.
        intros item' d simple syntax Hin Hp Hs.
        apply in_app_or in Hin as [Hin|[<-|[]]];
          [exact (H0 _ _ _ _ Hin Hp Hs)|exact (L0 _ _ _ Hp Hs)].
      * destruct Hl as (d & simple & syntax & Hin & Hs & Hf).
        exists item, d, simple, syntax. repeat split; try assumption.
        apply in_or_app. right. now left.
    + cbn [Modports.addItem].
      destruct IH as (item' & d & simple & syntax & Hin & Hp & Hs & Hf).
      exists item', d, simple, syntax. repeat split; try assumption.
      apply in_or_app. now left.
Qed.

End ModportFacts.

(** The modport port [input f], where [f] is a function, is rejected and
    not connected. *)
Lemma modport_port_connects_allowed_symbols_witness :
  (fun r => (Modports.internalSymbol (fst r), snd r)) <$> MoreSamples.namedPort "f" 120 =
  Some (None, [Modports.ExpectedImportExport (120, 121) "f" 7]).
Proof.
  pose proof (modport_port_connects_allowed_symbols MoreSamples.SampleKind
                (fun k => match k with MoreSamples.SubroutineSymbol => true | _ => false end)
                (fun k => match k with MoreSamples.NetSymbol => true | _ => false end)
                Diagnostic MoreSamples.modportLookup
                (fun context s r =>
                   (mkExpression IntegerLiteral false 1 false None None r None, []))
                (fun _ _ _ _ => []) (fun _ => true)
                (mkASTContext Samples.moduleBody LookupMax []) Modports.In
                (Modports.mkModportNamedPort (mkToken "f" 120)))
    as H.
  cbn zeta in H. fold (MoreSamples.namedPort "f" 120) in H.
  destruct (MoreSamples.namedPort "f" 120) as [r|]; [|destruct H as (s & [=] & _)].
  destruct H as (_ & _ & _ & Hint & _ & Hrej & Honly).
  cbn [fmap option_fmap option_map]. rewrite Hint. cbn [mbind option_bind] in *.
  rewrite (Honly Hint). now rewrite Hrej.
Defined.

(** The assertion fails on [input g], where [g] is of an allowed kind and
    has no declared type, and [input clk] is connected. *)
Example modport_port_without_declared_type :
  MoreSamples.namedPort "g" 120 = None /\
  (fun r => (Modports.internalSymbol (fst r), Modports.portType (fst r), snd r)) <$>
    MoreSamples.namedPort "clk" 120 =
  Some (Some (Modports.mkFoundSymbol _ MoreSamples.NetSymbol 5 true),
        Modports.LinkedTo (Modports.mkFoundSymbol _ MoreSamples.NetSymbol 5 true), []).
Proof. split; reflexivity. Qed.

(** ** Rules of a rand sequence *)

Section RuleFacts.

Import RandSeq.

Variable unqualifiedAt : string -> SourceRange -> option Found.
Variable bindArgs :
  list ExpressionSyntax -> Production -> SourceRange -> list Expression * list RsDiagnostic.
Variable bindMembershipExpressions :
  ExpressionSyntax -> list ExpressionSyntax -> list Expression * list RsDiagnostic.
Variable StatementBlockSymbol : Type.
Variable bind : ExpressionSyntax -> Expression * list RsDiagnostic.
Variable requireBooleanConvertible : Expression -> list RsDiagnostic.
Variable requireIntegral : Expression -> list RsDiagnostic.
Variable isNumeric : Expression -> bool.
Variable typeToString : Expression -> string.
Variable getStatement : StatementBlockSymbol -> list RsDiagnostic.

Local Abbreviation prodStep :=
  (RandSeq.prodStep unqualifiedAt bindArgs bindMembershipExpressions StatementBlockSymbol
     bind requireBooleanConvertible requireIntegral).
Local Abbreviation createRule :=
  (RandSeq.createRule unqualifiedAt bindArgs bindMembershipExpressions StatementBlockSymbol
     bind requireBooleanConvertible requireIntegral isNumeric typeToString getStatement).
Local Abbreviation caseBuilds :=
  (RandSeq.caseBuilds unqualifiedAt bindArgs bindMembershipExpressions).
Local Abbreviation builtFrom := (RandSeq.builtFrom StatementBlockSymbol).
Local Abbreviation blockOf := (RandSeq.blockOf StatementBlockSymbol).
Local Abbreviation State := (RuleState StatementBlockSymbol).

Lemma blockOf_cons p ps :
  omap blockOf (p :: ps) =
  match blockOf p with Some b => b :: omap blockOf ps | None => omap blockOf ps end.
Proof. reflexivity. Qed.

(** One step of the loop: a code block takes the block at the iterator,
    any other production leaves the iterator where it is. *)
Lemma prodStep_takes p (st : State) :
  (if isCodeBlock p then 1 else 0) <= length (blockIt _ st) ->
  caseBuilds p ->
  exists prod ds,
    prodStep (Some st) p =
      Some (mkRuleState _ (skipn (if isCodeBlock p then 1 else 0) (blockIt _ st))
              (builtProds _ st ++ [prod]) ds) /\
    builtFrom p prod /\
    blockOf prod = (if isCodeBlock p then head (blockIt _ st) else None).
Proof.
  intros Hlen Hcase.
  destruct p as [item| |c ifItem elseClause|e item|e items];
    cbn [RandSeq.prodStep isCodeBlock skipn] in *.
  - destruct (createProdItem _ _ item) as [pi ds].
    eexists. eexists. split; [reflexivity|]. split; [exact I|reflexivity].
  - destruct (blockIt _ st) as [|block rest]; [cbn in Hlen; lia|].
    eexists. eexists. split; [reflexivity|]. split; [exact I|reflexivity].
  - destruct (bind c) as [expr ds1].
    destruct (createProdItem _ _ ifItem) as [ifI ds2].
    destruct elseClause as [item|].
    + destruct (createProdItem _ _ item) as [pi ds3].
      eexists. eexists. split; [reflexivity|]. split; [|reflexivity].
      cbn. split; intros _; eexists; reflexivity.
    + eexists. eexists. split; [reflexivity|]. split; [|reflexivity].
      cbn. split; intros [x Hx]; discriminate.
  - destruct (bind e) as [expr ds1].
    destruct (createProdItem _ _ item) as [pi ds2].
    eexists. eexists. split; [reflexivity|]. split; [exact I|reflexivity].
  - cbn [RandSeq.caseBuilds] in Hcase.
    destruct (createCaseProd _ _ _ e items) as [[c|] ds]; cbn [fst] in Hcase.
    + eexists. eexists. split; [reflexivity|]. split; [exact I|reflexivity].
    + destruct Hcase as [x Hx]. discriminate.
Qed.

Lemma prod_loop ps (st : State) :
  length (List.filter isCodeBlock ps) <= length (blockIt _ st) ->
  Forall caseBuilds ps ->
  exists new ds,
    fold_left prodStep ps (Some st) =
      Some (mkRuleState _ (skipn (length (List.filter isCodeBlock ps)) (blockIt _ st))
              (builtProds _ st ++ new) ds) /\
    Forall2 builtFrom ps new /\
    omap blockOf new = firstn (length (List.filter isCodeBlock ps)) (blockIt _ st).
Proof.
  revert st. induction ps as [|p ps IH]; intros st Hlen Hcase.
  - exists [], (ruleDiags _ st). cbn. rewrite app_nil_r. destruct st.
    repeat split. constructor.
  - apply Forall_cons in Hcase as [Hp Hps]. cbn [fold_left List.filter] in *.
    assert (Hone : (if isCodeBlock p then 1 else 0) <= length (blockIt _ st))
      by (destruct (isCodeBlock p); cbn [length] in Hlen; lia).
    destruct (prodStep_takes p st Hone Hp) as (prod & ds & Hstep & Hb & Hblock).
    rewrite Hstep.
    match goal with
    | |- context [fold_left _ ps (Some ?s)] => destruct (IH s) as (new & ds' & Hl & Hf & Ho)
    end.
    { cbn [blockIt]. rewrite length_skipn.
      destruct (isCodeBlock p); cbn [length] in *; lia. }
    { exact Hps. }
    cbn [blockIt builtProds] in Hl, Ho.
    exists (prod :: new), ds'. split; [|split].
    + rewrite Hl, <- app_assoc. cbn [app].
      destruct (isCodeBlock p); cbn [length skipn]; [|reflexivity].
      destruct (blockIt _ st) as [|b rest]; [cbn in Hone; lia|reflexivity].
    + constructor; assumption.
    + rewrite blockOf_cons, Hblock, Ho.
      destruct (isCodeBlock p); cbn [length skipn]; [|reflexivity].
      destruct (blockIt _ st) as [|b rest]; [cbn in Hone; lia|reflexivity].
Qed.

(** X28.  The code blocks of a rule take the statement blocks of the rule
    block in order.  When the rule block has a statement block for every
    code block of the rule, that of the weight clause included, and the
    case productions of the rule can be built, a rule is built with one
    production for each production of the syntax, in order and of its kind;
    the code blocks among them are the first statement blocks, in order, the
    code block of the weight clause is the statement block after these, and
    the rule is a rand join exactly when the syntax has the rand join. *)
Theorem code_blocks_take_statement_blocks_in_order syntax blocks :
  let n := length (List.filter isCodeBlock (prods syntax)) in
  let weighted := match weightClause syntax with
                  | Some wc => weightCodeBlock wc
                  | None => false
                  end in
  n + (if weighted then 1 else 0) <= length blocks ->
  Forall caseBuilds (prods syntax) ->
  exists rule ds,
    createRule syntax blocks = Some (rule, ds) /\
    Forall2 builtFrom (prods syntax) (ruleProds _ rule) /\
    omap blockOf (ruleProds _ rule) = firstn n blocks /\
    codeBlock _ rule = (if weighted then blocks !! n else None) /\
    isRandJoin _ rule = bool_decide (is_Some (randJoin syntax)) /\
    (is_Some (weightExpr _ rule) <-> is_Some (weightClause syntax)).
Proof.
  intros n weighted Hlen Hcase.
  destruct (prod_loop (prods syntax) (mkRuleState _ blocks [] []))
    as (new & ds & Hl & Hf & Ho); [cbn [blockIt]; fold n; lia|exact Hcase|].
  cbn [blockIt builtProds app] in Hl, Ho. fold n in Hl, Ho.
  unfold RandSeq.createRule. rewrite Hl. cbn [blockIt builtProds ruleDiags].
  assert (Hnth : weighted = true ->
                 exists block rest, skipn n blocks = block :: rest /\
                                    blocks !! n = Some block).
  { intros Hw. rewrite Hw in Hlen.
    destruct (skipn n blocks) as [|block rest] eqn:Hs.
    - apply (f_equal (@length _)) in Hs. rewrite length_skipn in Hs. cbn in Hs. lia.
    - exists block, rest. split; [reflexivity|].
      rewrite <- (Nat.add_0_r n), <- lookup_drop.
      change (drop n blocks) with (skipn n blocks). now rewrite Hs. }
  subst weighted.
  destruct (weightClause syntax) as [wc|].
  - destruct (bind (weight wc)) as [e dsw].
    destruct (weightCodeBlock wc).
    + destruct (Hnth eq_refl) as (block & rest & Hs & Hb). rewrite Hs, Hb.
      destruct (randJoin syntax) as [[es|]|]; [destruct (bind es) as [ej dsj]| |];
        eexists; eexists; (split; [reflexivity|]);
        cbn [ruleProds codeBlock isRandJoin weightExpr];
        repeat split; try assumption; try (intros _; eexists; reflexivity).
    + destruct (randJoin syntax) as [[es|]|]; [destruct (bind es) as [ej dsj]| |];
        eexists; eexists; (split; [reflexivity|]);
        cbn [ruleProds codeBlock isRandJoin weightExpr];
        repeat split; try assumption; try (intros _; eexists; reflexivity).
  - destruct (randJoin syntax) as [[es|]|]; [destruct (bind es) as [ej dsj]| |];
      eexists; eexists; (split; [reflexivity|]);
      cbn [ruleProds codeBlock isRandJoin weightExpr];
      repeat split; try assumption; try (intros [x Hx]; discriminate).
Qed.

End RuleFacts.

(** In [{ ... } a := 2 { ... }] the code block of the rule is [b0] and
    that of the weight clause is [b1]. *)
Lemma code_blocks_take_statement_blocks_in_order_witness :
  exists rule ds,
    MoreSamples.ruleOf MoreSamples.rule_block_a ["b0"; "b1"] = Some (rule, ds) /\
    omap (RandSeq.blockOf string) (RandSeq.ruleProds _ rule) = ["b0"] /\
    RandSeq.codeBlock _ rule = Some "b1".
Proof.
  destruct (code_blocks_take_statement_blocks_in_order
              (fun n _ => MoreSamples.findSample n) MoreSamples.noArgs MoreSamples.bindAll
              string (fun e => (MoreSamples.literalOf e, [])) (fun _ => []) (fun _ => [])
              (fun _ => true) (fun _ => "int") (fun _ => []) MoreSamples.rule_block_a
              ["b0"; "b1"])
    as (rule & ds & Hr & _ & Hb & Hc & _).
  { cbn. lia. }
  { repeat constructor. }
  exists rule, ds. split; [exact Hr|]. split; [exact Hb|exact Hc].
Defined.
